(** * Food events and the food-aware Vicsek loop: a shallow embedding

    The development follows the Python sources
      - [events/FoodEvent.py]
      - [model/VicsekIndividualsMultiSwitchOscillationFood.py]
      - [model/Vicsek.py]
      - [services/ServiceVision.py]
    NumPy float arrays are lists of rationals ([Q], exact arithmetic), boolean
    masks are lists of [bool], Python integers are [Z].  The geometry of the
    vision service needs [arctan], [arccos] and [sqrt] and is stated over the
    real numbers. *)

From Stdlib Require Import ZArith QArith Qround List Bool Lia Lqa.
From Stdlib Require Import Permutation Sorted.
From Stdlib Require Reals Lra.
Import ListNotations.

Local Open Scope Z_scope.
Local Open Scope Q_scope.

(** ** The error monad: a Python exception aborts the run *)

Definition bind {A B : Type} (m : option A) (k : A -> option B) : option B :=
  match m with
  | Some a => k a
  | None => None
  end.

Notation "'do' x <- m ; k" := (bind m (fun x => k))
  (at level 10, x pattern, m at level 100, k at level 200).

(** ** NumPy primitives used by the sources *)

Module NumPy.

(** [np.full(n, v)] *)
Definition full {A : Type} (n : nat) (v : A) : list A := repeat v n.

(** Elementwise binary operation on two arrays of one shape. *)
Fixpoint map2 {A B C : Type} (f : A -> B -> C) (xs : list A) (ys : list B) : list C :=
  match xs, ys with
  | x :: xs', y :: ys' => f x y :: map2 f xs' ys'
  | _, _ => []
  end.

(** [np.where(cond, a, b)] on arrays of one shape. *)
Definition where_ {A : Type} (c : list bool) (a b : list A) : list A :=
  map2 (fun (ci : bool) (ab : A * A) => if ci then fst ab else snd ab) c (combine a b).

(** [arr[mask] = v] for a boolean mask; NumPy raises IndexError when the
    mask and the array differ in length. *)
Definition mask_assign (mask : list bool) (v : Q) (arr : list Q) : option (list Q) :=
  if Nat.eqb (length mask) (length arr)
  then Some (map2 (fun (m : bool) (x : Q) => if m then v else x) mask arr)
  else None.

(** [arr[mask] += v] for a boolean mask. *)
Definition mask_add (mask : list bool) (v : Q) (arr : list Q) : option (list Q) :=
  if Nat.eqb (length mask) (length arr)
  then Some (map2 (fun (m : bool) (x : Q) => if m then x + v else x) mask arr)
  else None.

(** [l[:k]] for a Python integer [k]: a negative [k] counts from the end. *)
Definition slice_to {A : Type} (k : Z) (l : list A) : list A :=
  if (0 <=? k)%Z then firstn (Z.to_nat k) l
  else firstn (length l - Z.to_nat (- k)) l.

(** Insertion of index [i] into a list of indices ordered by [key]; [i] goes
    in front of the first index whose key is not smaller. *)
Fixpoint insert_index (key : nat -> Q) (i : nat) (l : list nat) : list nat :=
  match l with
  | [] => [i]
  | j :: l' =>
      if Qle_bool (key i) (key j) then i :: j :: l'
      else j :: insert_index key i l'
  end.

(** One sort kernel for [np.argsort(a)]: the insertion pass over the indices
    from the last to the first, which leaves equal values in ascending index
    order.  NumPy promises the ascending order of the values and, for its
    default kind, no order among equal values; the functions that call
    [np.argsort] take the kernel as an argument. *)
Definition argsort (a : list Q) : list nat :=
  fold_right (insert_index (fun i => nth i a 0)) [] (seq 0 (length a)).

(** [preselection = np.full(n, False); preselection[indices] = True];
    an index outside the array raises IndexError. *)
Definition mask_of_indices (n : nat) (indices : list nat) : option (list bool) :=
  if forallb (fun i => Nat.ltb i n) indices
  then Some (map (fun i => existsb (Nat.eqb i) indices) (seq 0 n))
  else None.

(** [a & b] on boolean arrays of one shape (ValueError otherwise). *)
Definition mask_and (a b : list bool) : option (list bool) :=
  if Nat.eqb (length a) (length b) then Some (map2 andb a b) else None.

(** [np.count_nonzero(mask)] *)
Definition count_nonzero (mask : list bool) : nat := length (filter (fun b => b) mask).

(** [np.rint]: round to the nearest integer, halves to the even neighbour. *)
Definition rint (q : Q) : Z :=
  let f := Qfloor q in
  match Qcompare (q - inject_Z f) (1 # 2) with
  | Lt => f
  | Gt => (f + 1)%Z
  | Eq => if Z.even f then f else (f + 1)%Z
  end.

(** ndarray objects live in a store and are passed by reference: a Python
    name bound to an array is an address, and an in-place update is seen
    through every name bound to that address. *)
Definition ndarray := nat.
Definition Store := list (list Q).

Definition deref (s : Store) (a : ndarray) : option (list Q) := nth_error s a.

Fixpoint update (s : Store) (a : ndarray) (v : list Q) : Store :=
  match s, a with
  | [], _ => []
  | _ :: s', O => v :: s'
  | x :: s', S a' => x :: update s' a' v
  end.

Definition alloc (s : Store) (v : list Q) : Store * ndarray := (s ++ [v], length s).

End NumPy.

(** ** [services/ServiceVicsekHelper.getDifferences] *)

Module ServiceVicsekHelper.

(** Modelled from the spec: [ServiceVicsekHelper.getDifferences] is not among
    the sources.  Per axis the minimal wrapped difference is
    d - L*round(d/L); the squared distance is the sum of the squared per-axis
    minimal differences. *)
Definition wrapped (d L : Q) : Q := d - L * inject_Z (NumPy.rint (d / L)).

(** Modelled from the spec: the squared minimum-image distance of two points. *)
Definition sqdist (domainSize a b : Q * Q) : Q :=
  let dx := wrapped (fst a - fst b) (fst domainSize) in
  let dy := wrapped (snd a - snd b) (snd domainSize) in
  dx * dx + dy * dy.

(** Modelled from the spec: the matrix of squared distances; entry [[a][b]]
    belongs to the difference of row [a] and row [b]. *)
Definition getDifferences (array : list (Q * Q)) (domainSize : Q * Q) : list (list Q) :=
  map (fun a => map (fun b => sqdist domainSize a b) array) array.

End ServiceVicsekHelper.

(** ** [events/FoodEvent.py] *)

Module FoodEvent.

Record t := mk {
  startTimestep : Z;
  maxAmount : Z;
  amount : Z;
  domainSize : Q * Q;
  areas : list (Q * Q * Q);
  radius : Q;
  stopMovement : bool;
  duration : Z;
  timestep : option Z
}.

Definition set_amount (ev : t) (a : Z) : t :=
  mk (startTimestep ev) (maxAmount ev) a (domainSize ev) (areas ev) (radius ev)
     (stopMovement ev) (duration ev) (timestep ev).

Definition set_duration (ev : t) (d : Z) : t :=
  mk (startTimestep ev) (maxAmount ev) (amount ev) (domainSize ev) (areas ev) (radius ev)
     (stopMovement ev) d (timestep ev).

Definition set_timestep (ev : t) (ts : Z) : t :=
  mk (startTimestep ev) (maxAmount ev) (amount ev) (domainSize ev) (areas ev) (radius ev)
     (stopMovement ev) (duration ev) (Some ts).

(** [__init__]: [self.radius = self.areas[0][2]], overridden by a truthy
    [radius] argument; [self.duration = -1]. *)
Definition init (startTimestep amount : Z) (domainSize : Q * Q)
    (areas : list (Q * Q * Q)) (radius : option Q) (stopMovement : bool) : option t :=
  match areas with
  | [] => None
  | (_, _, r0) :: _ =>
      let r := match radius with
               | Some r => if Qeq_bool r 0 then r0 else r
               | None => r0
               end in
      Some (mk startTimestep amount amount domainSize areas r stopMovement (-1)%Z None)
  end.

(** [getOriginPoint]: [self.areas[0][:2]] *)
Definition getOriginPoint (ev : t) : option (Q * Q) :=
  match areas ev with
  | [] => None
  | (x, y, _) :: _ => Some (x, y)
  end.

(** [selectAffected(candidates, rij2)]; [argsort] is the kernel behind
    [np.argsort]. *)
Definition selectAffected_by (argsort : list Q -> list nat) (ev : t)
    (candidates : list bool) (rij2 : list Q) : option (t * list bool) :=
  let len := Z.of_nat (length candidates) in
  let numberOfAffected := if (amount ev <? len)%Z then amount ev else len in
  let ev' := set_amount ev (amount ev - numberOfAffected)%Z in
  let indices := NumPy.slice_to numberOfAffected (argsort rij2) in
  do preselection <- NumPy.mask_of_indices (length candidates) indices;
  do affected <- NumPy.mask_and candidates preselection;
  Some (ev', affected).

(** [selectAffected] on the kernel [NumPy.argsort]. *)
Definition selectAffected : t -> list bool -> list Q -> option (t * list bool) :=
  selectAffected_by NumPy.argsort.

(** [posWithCenter[:-1] = positions]: the rows must number
    [totalNumberOfParticles], or be a single row that NumPy broadcasts. *)
Definition assign_rows (n : nat) (positions : list (Q * Q)) : option (list (Q * Q)) :=
  if Nat.eqb (length positions) n then Some positions
  else match positions with
       | [p] => Some (repeat p n)
       | _ => None
       end.

(** [rij2[-1][:-1]]: the last row without its last entry. *)
Definition relevantDistances (rij2 : list (list Q)) : list Q :=
  removelast (last rij2 []).

(** [executeEvent(totalNumberOfParticles, positions, speeds, hungerLevels)];
    [speeds] and [hungerLevels] are array objects updated in place and
    returned. *)
Definition executeEvent_by (argsort : list Q -> list nat) (ev : t) (s : NumPy.Store)
    (totalNumberOfParticles : nat) (positions : list (Q * Q))
    (speeds hungerLevels : NumPy.ndarray)
    : option (t * NumPy.Store * (NumPy.ndarray * NumPy.ndarray * list bool)) :=
  do rows <- assign_rows totalNumberOfParticles positions;
  do origin <- getOriginPoint ev;
  let posWithCenter := rows ++ [origin] in
  let rij2 := ServiceVicsekHelper.getDifferences posWithCenter (domainSize ev) in
  let dists := relevantDistances rij2 in
  let candidates := map (fun d => Qle_bool d (radius ev * radius ev)) dists in
  do (ev', affected) <- selectAffected_by argsort ev candidates dists;
  do sp <- NumPy.deref s speeds;
  do sp' <- NumPy.mask_assign affected 0 sp;
  let s1 := NumPy.update s speeds sp' in
  do hl <- NumPy.deref s1 hungerLevels;
  do hl' <- NumPy.mask_add affected 1 hl;
  let s2 := NumPy.update s1 hungerLevels hl' in
  Some (ev', s2, (speeds, hungerLevels, affected)).

(** [executeEvent] on the kernel [NumPy.argsort]. *)
Definition executeEvent :
    t -> NumPy.Store -> nat -> list (Q * Q) -> NumPy.ndarray -> NumPy.ndarray ->
    option (t * NumPy.Store * (NumPy.ndarray * NumPy.ndarray * list bool)) :=
  executeEvent_by NumPy.argsort.

(** [check(totalNumberOfParticles, currentTimestep, positions, speeds, hungerLevels)] *)
Definition check_by (argsort : list Q -> list nat) (ev : t) (s : NumPy.Store)
    (totalNumberOfParticles : nat) (currentTimestep : Z) (positions : list (Q * Q))
    (speeds hungerLevels : NumPy.ndarray)
    : option (t * NumPy.Store * (NumPy.ndarray * NumPy.ndarray * list bool)) :=
  let affected := NumPy.full totalNumberOfParticles false in
  if (currentTimestep <=? startTimestep ev)%Z && (0 <? amount ev)%Z then
    executeEvent_by argsort (set_timestep ev currentTimestep) s totalNumberOfParticles
                    positions speeds hungerLevels
  else if (duration ev =? -1)%Z then
    Some (set_duration ev (currentTimestep - startTimestep ev)%Z, s,
          (speeds, hungerLevels, affected))
  else
    Some (ev, s, (speeds, hungerLevels, affected)).

(** [check] on the kernel [NumPy.argsort]. *)
Definition check :
    t -> NumPy.Store -> nat -> Z -> list (Q * Q) -> NumPy.ndarray -> NumPy.ndarray ->
    option (t * NumPy.Store * (NumPy.ndarray * NumPy.ndarray * list bool)) :=
  check_by NumPy.argsort.

End FoodEvent.

(** ** [model/VicsekIndividualsMultiSwitchOscillationFood.py] *)

Module Food.

Import NumPy.

(** The constructor arguments the food loop reads, with [dt] as fixed by
    [prepareSimulation]. *)
Record Config := mkConfig {
  numberOfParticles : nat;
  speed : Q;
  radius : Q;
  noise : Q;
  domainSize : Q * Q;
  maxFood : Q;
  foodAppearanceProbability : option Q;
  foodSourceAmount : Z;
  dt : Q
}.

(** The parts of the loop that live in the parent class and in services that
    are not among the sources: neighbour computation, stress, orientation
    events ([handleEvents], lines 197-202), and switching plus the Vicsek
    orientation update ([getDecisions], [computeNewOrientations], lines
    206-220), which receives the noise of the step.  [Aux] is their private
    state: orientations, switch values, stress levels. *)
Record Collaborators (Aux : Type) := mkCollaborators {
  handleEvents : Aux -> Z -> list (Q * Q) -> list bool -> list Q -> Aux * list Q;
  decideAndOrient :
    Aux -> Z -> list (Q * Q) -> list Q -> list (Q * Q) -> Aux * list (Q * Q) * list Q
}.
Arguments handleEvents {Aux}.
Arguments decideAndOrient {Aux}.

(** Two arrays combined elementwise under NumPy broadcasting of
    one-dimensional shapes. *)
Definition broadcast2 {A B : Type} (xs : list A) (ys : list B) : option (list (A * B)) :=
  if Nat.eqb (length xs) (length ys) then Some (combine xs ys)
  else match xs, ys with
       | [x], _ => Some (map (pair x) ys)
       | _, [y] => Some (map (fun x => (x, y)) xs)
       | _, _ => None
       end.

(** [arr[indices] = v] for integer indices. *)
Definition index_assign (indices : list nat) (v : Q) (arr : list Q) : option (list Q) :=
  if forallb (fun i => Nat.ltb i (length arr)) indices
  then Some (map (fun i => if existsb (Nat.eqb i) indices then v else nth i arr 0)
                 (seq 0 (length arr)))
  else None.

(** [set(np.array(overallAffected).nonzero()[1])]: the columns holding a
    True in some row. *)
Definition nonzero_columns (n : nat) (overallAffected : list (list bool)) : list nat :=
  filter (fun i => existsb (fun mask => nth i mask false) overallAffected) (seq 0 n).

(** The loop [for event in self.foodEvents: ... event.check(...)] of
    [handleFoodEvents]; the names [speeds] and [hungerLevels] are rebound to
    the objects each call returns. *)
Fixpoint checkEvents (n : nat) (t : Z) (positions : list (Q * Q))
    (events : list FoodEvent.t) (s : Store) (speeds hungerLevels : ndarray)
    : option (list FoodEvent.t * Store * (ndarray * ndarray * list (list bool))) :=
  match events with
  | [] => Some ([], s, (speeds, hungerLevels, []))
  | event :: rest =>
      do (event', s1, (speeds1, hungerLevels1, affected)) <-
         FoodEvent.check event s n t positions speeds hungerLevels;
      do (rest', s2, (speeds2, hungerLevels2, overallAffected)) <-
         checkEvents n t positions rest s1 speeds1 hungerLevels1;
      Some (event' :: rest', s2, (speeds2, hungerLevels2, affected :: overallAffected))
  end.

(** [handleFoodEvents(t, positions, speeds, hungerLevels)]; the result also
    carries the list [overallAffected] the method builds. *)
Definition handleFoodEvents (cfg : Config) (events : list FoodEvent.t) (s : Store)
    (t : Z) (positions : list (Q * Q)) (speeds hungerLevels : ndarray)
    : option (list FoodEvent.t * Store * (list Q * ndarray * list (list bool))) :=
  let n := numberOfParticles cfg in
  do (events', s1, (_, hungerLevels1, overallAffected)) <-
     checkEvents n t positions events s speeds hungerLevels;
  let speeds1 := full n (speed cfg) in
  do speeds2 <-
     (if Nat.ltb 0 (length events') then
        let flat := nonzero_columns n overallAffected in
        if Nat.ltb 0 (length flat) then index_assign flat 0 speeds1 else Some speeds1
      else Some speeds1);
  do hl <- deref s1 hungerLevels1;
  do pairs <- broadcast2 hl speeds2;
  let speeds3 := map (fun hs : Q * Q =>
                        if Qle_bool (maxFood cfg) (fst hs) then speed cfg else snd hs) pairs in
  Some (events', s1, (speeds3, hungerLevels1, overallAffected)).

(** The two global generators the loop reads: the one of Python's [random]
    module, as the stream of its [random.random()] values, and the one of
    [np.random], as the stream of its standard normal values.  A state of the
    loop holds a cursor to the next unread value of each. *)
Record Generators := mkGenerators {
  python : nat -> Q;
  numpy : nat -> Q
}.

(** [Vicsek.generateNoise]:
    [np.random.normal(scale=self.noise, size=(n, len(self.domainSize)))],
    filled row by row; a negative scale raises ValueError. *)
Definition generateNoise (cfg : Config) (normal : nat -> Q) (cursor : nat)
    : option (list (Q * Q)) :=
  if Qle_bool 0 (noise cfg) then
    Some (map (fun i => (noise cfg * normal (cursor + 2 * i)%nat,
                         noise cfg * normal (cursor + 2 * i + 1)%nat))
              (seq 0 (numberOfParticles cfg)))
  else None.

(** [updateFoodEvents]: [random.random()] reads Python's generator, here the
    stream [rng] with a cursor to the next unread draw. *)
Definition updateFoodEvents (cfg : Config) (rng : nat -> Q) (cursor : nat) (t : Z)
    (events : list FoodEvent.t) : option (nat * list FoodEvent.t) :=
  match foodAppearanceProbability cfg with
  | None => Some (cursor, events)
  | Some p =>
      if Qeq_bool p 0 then Some (cursor, events)
      else
        let rand := rng cursor in
        if negb (Qle_bool p rand) then
          let x := rng (cursor + 1)%nat * fst (domainSize cfg) in
          let y := rng (cursor + 2)%nat * snd (domainSize cfg) in
          do foodEvent <- FoodEvent.init t (foodSourceAmount cfg) (domainSize cfg)
                            [(x, y, radius cfg)] (Some (radius cfg)) true;
          Some ((cursor + 3)%nat, events ++ [foodEvent])
        else Some ((cursor + 1)%nat, events)
  end.

(** The local variables and attributes that [simulate] carries from one
    iteration to the next, and the histories it fills. *)
Record State (Aux : Type) := mkState {
  t : nat;
  positions : list (Q * Q);
  speeds : list Q;
  hungerLevels : ndarray;
  alive : list bool;
  foodEvents : list FoodEvent.t;
  store : Store;
  aux : Aux;
  cursor : nat;
  npCursor : nat;
  overallAffected : list (list bool);
  positionsHistory : list (list (Q * Q));
  orientationsHistory : list (list (Q * Q));
  hungerLevelHistory : list (list Q);
  alivenessHistory : list (list bool)
}.
Arguments mkState {Aux}.
Arguments t {Aux}.
Arguments positions {Aux}.
Arguments speeds {Aux}.
Arguments hungerLevels {Aux}.
Arguments alive {Aux}.
Arguments foodEvents {Aux}.
Arguments store {Aux}.
Arguments aux {Aux}.
Arguments cursor {Aux}.
Arguments npCursor {Aux}.
Arguments overallAffected {Aux}.
Arguments positionsHistory {Aux}.
Arguments orientationsHistory {Aux}.
Arguments hungerLevelHistory {Aux}.
Arguments alivenessHistory {Aux}.

(** [positions += self.dt*(orientations.T * speeds).T] followed by
    [positions += -self.domainSize*np.floor(positions/self.domainSize)]. *)
Definition wrap (x L : Q) : Q := x + - L * inject_Z (Qfloor (x / L)).

Definition move (cfg : Config) (positions orientations : list (Q * Q)) (speeds : list Q)
    : option (list (Q * Q)) :=
  let n := length positions in
  if Nat.eqb (length orientations) n && Nat.eqb (length speeds) n then
    Some (map2 (fun (p : Q * Q) (os : Q * Q * Q) =>
                  let '(o, sp) := os in
                  let x := fst p + dt cfg * (fst o * sp) in
                  let y := snd p + dt cfg * (snd o * sp) in
                  (wrap x (fst (domainSize cfg)), wrap y (snd (domainSize cfg))))
               positions (combine orientations speeds))
  else None.

Section Loop.

Context {Aux : Type}.
Variable C : Collaborators Aux.
Variable cfg : Config.
Variable rng : Generators.

(** One iteration of the [for t in range(self.numIntervals)] loop.  As in
    [Vicsek.computeNewOrientations], the orientation update draws the noise
    of the step with one call of [generateNoise]. *)
Definition step (st : State Aux) : option (State Aux) :=
  let n := numberOfParticles cfg in
  let tz := Z.of_nat (t st) in
  (* previousHungerLevels = hungerLevels: a second name for one array *)
  let previousHungerLevels := hungerLevels st in
  do (cursor1, events1) <-
     updateFoodEvents cfg (python rng) (cursor st) tz (foodEvents st);
  let '(aux1, speedsEv) := handleEvents C (aux st) tz (positions st) (alive st) (speeds st) in
  (* the speeds array that handleEvents returns is an object of its own *)
  let '(s1, speedsObj) := alloc (store st) speedsEv in
  do (events2, s2, (speedsF, hungerLevels2, affected)) <-
     handleFoodEvents cfg events1 s1 tz (positions st) speedsObj (hungerLevels st);
  do noise <- generateNoise cfg (numpy rng) (npCursor st);
  let '(aux2, orientations, speedsSw) :=
     decideAndOrient C aux1 tz (positions st) speedsF noise in
  do positions' <- move cfg (positions st) orientations speedsSw;
  do hl <- deref s2 hungerLevels2;
  do prev <- deref s2 previousHungerLevels;
  (* hungerLevels - 0.1 and np.where build new arrays *)
  let reducedHungerLevels := map (fun h => h - (1 # 10)) hl in
  do same <- broadcast2 hl prev;
  let unchanged := map (fun hp : Q * Q => Qeq_bool (fst hp) (snd hp)) same in
  if Nat.eqb (length unchanged) (length hl) then
    let new := where_ unchanged reducedHungerLevels hl in
    let '(s3, hungerLevels3) := alloc s2 new in
    let alive' := map (fun h => negb (Qle_bool h 0)) new in
    Some (mkState (S (t st)) positions' speedsSw hungerLevels3 alive' events2 s3 aux2
                  cursor1 (npCursor st + 2 * n)%nat affected
                  (positionsHistory st ++ [positions'])
                  (orientationsHistory st ++ [orientations])
                  (hungerLevelHistory st ++ [new])
                  (alivenessHistory st ++ [alive']))
  else None.

Fixpoint run (k : nat) (st : State Aux) : option (State Aux) :=
  match k with
  | O => Some st
  | S k' => do st' <- step st; run k' st'
  end.

(** The state on entry to the loop: [hungerLevels = np.full(n, maxFood)],
    [alive = np.full(n, True)], [speeds = np.full(n, speed)]. *)
Definition initial (aux0 : Aux) (positions0 : list (Q * Q))
    (foodEvents0 : list FoodEvent.t) : State Aux :=
  let n := numberOfParticles cfg in
  let '(s0, hungerLevels0) := alloc [] (full n (maxFood cfg)) in
  mkState 0 positions0 (full n (speed cfg)) hungerLevels0 (full n true)
          foodEvents0 s0 aux0 0 0 [] [] [] [] [].

(** [simulate]: [numIntervals] iterations from the initial state.  The
    history arrays have [numIntervals] rows, and writing the initial row 0
    raises IndexError when there is none. *)
Definition simulate (aux0 : Aux) (positions0 : list (Q * Q))
    (foodEvents0 : list FoodEvent.t) (numIntervals : nat) : option (State Aux) :=
  match numIntervals with
  | O => None
  | S _ => run numIntervals (initial aux0 positions0 foodEvents0)
  end.

(** The hunger row of a state, read through its array reference. *)
Definition hunger (st : State Aux) : list Q :=
  match deref (store st) (hungerLevels st) with
  | Some hl => hl
  | None => []
  end.

End Loop.

End Food.

(** ** [services/ServiceVision.py] *)

Module ServiceVision.

Import Reals.
Local Open Scope R_scope.

(** Python's [%] on floats: the remainder takes the sign of the divisor. *)
Definition py_mod (x m : R) : R := x - m * IZR (Int_part (x / m)).

(** [normaliseAngles] *)
Definition normaliseAngles (angle : R) : R :=
  let a1 := if Rlt_dec angle 0 then 2 * PI - Rabs angle else angle in
  if Rgt_dec a1 (2 * PI) then py_mod a1 (2 * PI) else a1.

(** [determineMinMaxAngleOfVision] for one particle; [angle] is what
    [ServiceOrientations.computeAnglesForOrientations] returns for it. *)
Definition determineMinMaxAngleOfVision (angle degreesOfVision : R) : R * R :=
  let angularDistance := degreesOfVision / 2 in
  let currentAngles := normaliseAngles angle in
  (normaliseAngles (currentAngles - angularDistance),
   normaliseAngles (currentAngles + angularDistance)).

(** [isInFieldOfVision(positions, minAngles, maxAngles)], entry [[i][j]].
    [posDiffs[i][j] = positions[j] - positions[i]].  [np.arctan] takes one
    input: its second positional argument is the output buffer, so
    [relativeAngles] is the arctangent of the y-difference alone.  The
    one-dimensional [minAngles] and [maxAngles] broadcast along the last
    axis. *)
Definition isInFieldOfVision (positions : list (R * R)) (minAngles maxAngles : list R)
    (i j : nat) : Prop :=
  let pi_ := nth i positions (0, 0) in
  let pj := nth j positions (0, 0) in
  let posDiffs := (fst pj - fst pi_, snd pj - snd pi_) in
  let relativeAngles := atan (snd posDiffs) in
  let angles := py_mod relativeAngles (2 * PI) in
  let minA := nth j minAngles 0 in
  let maxA := nth j maxAngles 0 in
  (minA < maxA /\ (angles >= minA /\ angles <= maxA)) \/
  (minA >= maxA /\ (angles >= minA \/ angles <= maxA)).

(** [np.clip(x, lo, hi)] *)
Definition clip (lo hi x : R) : R := Rmin (Rmax x lo) hi.

(** [np.linalg.norm] of a 2-vector *)
Definition norm (v : R * R) : R := sqrt (fst v * fst v + snd v * snd v).

(** The mask [in_fov] of [get_visible_agents], entry [j] of iteration [i]. *)
Definition in_fov (positions : list (R * R)) (orientations : list R)
    (fov view_distance : R) (i j : nat) : Prop :=
  let pos_i := nth i positions (0, 0) in
  let orient_i := nth i orientations 0 in
  let pj := nth j positions (0, 0) in
  let rel_pos := (fst pj - fst pos_i, snd pj - snd pos_i) in
  let distances := norm rel_pos in
  let denom := Rmax distances (1 / 100000000) in
  let directions := (fst rel_pos / denom, snd rel_pos / denom) in
  let forward := (cos orient_i, sin orient_i) in
  let cos_angles := fst directions * fst forward + snd directions * snd forward in
  let angles := acos (clip (-1) 1 cos_angles) in
  angles <= fov / 2 /\ distances > 0 /\ distances <= view_distance.

(** The same mask as the array of booleans the loop goes on with. *)
Definition in_fovb (positions : list (R * R)) (orientations : list R)
    (fov view_distance : R) (i j : nat) : bool :=
  let pos_i := nth i positions (0, 0) in
  let orient_i := nth i orientations 0 in
  let pj := nth j positions (0, 0) in
  let rel_pos := (fst pj - fst pos_i, snd pj - snd pos_i) in
  let distances := norm rel_pos in
  let denom := Rmax distances (1 / 100000000) in
  let directions := (fst rel_pos / denom, snd rel_pos / denom) in
  let forward := (cos orient_i, sin orient_i) in
  let cos_angles := fst directions * fst forward + snd directions * snd forward in
  let angles := acos (clip (-1) 1 cos_angles) in
  (if Rle_dec angles (fov / 2) then true else false)
  && (if Rgt_dec distances 0 then true else false)
  && (if Rle_dec distances view_distance then true else false).

(** Insertion of index [i] into a list of indices ordered by [key]; [i] goes
    in front of the first index whose key is not smaller. *)
Fixpoint insert_by_distance (key : nat -> R) (i : nat) (l : list nat) : list nat :=
  match l with
  | [] => [i]
  | j :: l' =>
      if Rle_dec (key i) (key j) then i :: j :: l'
      else j :: insert_by_distance key i l'
  end.

(** [np.argsort(candidate_distances)]: the indices in ascending order of
    distance, equal distances in index order (NumPy documents no order among
    equal keys for its default kind). *)
Definition argsort_distances (a : list R) : list nat :=
  fold_right (insert_by_distance (fun i => nth i a 0)) [] (seq 0 (length a)).

(** The array [occluded] that [get_visible_agents] computes once agent [j]
    is appended to [visible]: entry [k] holds when agent [k] projects
    farther along the direction of [j] than [j] is away, and lies less than
    [agent_radius] off that direction. *)
Definition occluded (positions : list (R * R)) (pos_i : R * R) (distances : list R)
    (agent_radius : R) (j : nat) : list bool :=
  let pj := nth j positions (0, 0) in
  let rel_vec := (fst pj - fst pos_i, snd pj - snd pos_i) in
  let rel_dir := (fst rel_vec / norm rel_vec, snd rel_vec / norm rel_vec) in
  map (fun p : R * R =>
         let v := (fst p - fst pos_i, snd p - snd pos_i) in
         let dot_prods := fst v * fst rel_dir + snd v * snd rel_dir in
         let proj_lens := Rabs (fst v * snd rel_dir - snd v * fst rel_dir) in
         (if Rgt_dec dot_prods (nth j distances 0) then true else false)
         && (if Rlt_dec proj_lens agent_radius then true else false))
      positions.

(** The loop [for j in sorted_indices] of the occlusion branch, from the
    current [occluded_mask]; the result is the list [visible]. *)
Fixpoint sweep (positions : list (R * R)) (pos_i : R * R) (distances : list R)
    (agent_radius : R) (sorted_indices : list nat) (occluded_mask : list bool)
    : list nat :=
  match sorted_indices with
  | [] => []
  | j :: rest =>
      if nth j occluded_mask false
      then sweep positions pos_i distances agent_radius rest occluded_mask
      else j :: sweep positions pos_i distances agent_radius rest
                  (NumPy.map2 orb occluded_mask
                     (occluded positions pos_i distances agent_radius j))
  end.

(** One iteration of the loop [for i in range(n)] of [get_visible_agents]:
    the list [visible] of agent [i]. *)
Definition visible_from (positions : list (R * R)) (orientations : list R)
    (fov view_distance agent_radius : R) (occlusion_active : bool) (i : nat)
    : list nat :=
  let n := length positions in
  let pos_i := nth i positions (0, 0) in
  let distances :=
    map (fun p : R * R => norm (fst p - fst pos_i, snd p - snd pos_i)) positions in
  let candidates := filter (in_fovb positions orientations fov view_distance i) (seq 0 n) in
  let candidate_distances := map (fun j => nth j distances 0) candidates in
  let sorted_indices :=
    map (fun k => nth k candidates 0%nat) (argsort_distances candidate_distances) in
  if occlusion_active
  then sweep positions pos_i distances agent_radius sorted_indices (NumPy.full n false)
  else sorted_indices.

(** [get_visible_agents]; [orientations[i]] raises IndexError when there are
    fewer orientations than positions. *)
Definition get_visible_agents (positions : list (R * R)) (orientations : list R)
    (fov view_distance agent_radius : R) (occlusion_active : bool)
    : option (list (list nat)) :=
  let n := length positions in
  if (length orientations <? n)%nat then None
  else Some (map (visible_from positions orientations fov view_distance agent_radius
                    occlusion_active) (seq 0 n)).

(** The loop [for i in range(len(positions)): mask[i][indices[i]] = True]
    of [compute_visibility_mask] over the rows [rows] of the all-[False]
    mask of width [n]; [indices[i]] raises IndexError on a list that is too
    short, and so does an index outside the row. *)
Fixpoint mark_visible (n : nat) (indices : list (list nat)) (rows : list nat)
    : option (list (list bool)) :=
  match rows with
  | [] => Some []
  | i :: rest =>
      do idx <- nth_error indices i ;
      do marked <- NumPy.mask_of_indices n idx ;
      do others <- mark_visible n indices rest ;
      Some (marked :: others)
  end.

(** [np.fill_diagonal(mask, v)] *)
Definition fill_diagonal (v : bool) (mask : list (list bool)) : list (list bool) :=
  map (fun i =>
         map (fun j => if (j =? i)%nat then v else nth j (nth i mask []) false)
           (seq 0 (length (nth i mask []))))
    (seq 0 (length mask)).

(** [compute_visibility_mask]; [angles] is what
    [ServiceOrientations.computeAnglesForOrientations] returns for the
    orientations. *)
Definition compute_visibility_mask (positions : list (R * R)) (angles : list R)
    (fov view_distance agent_radius : R) (occlusion_active : bool)
    : option (list (list bool)) :=
  do indices <- get_visible_agents positions angles fov view_distance agent_radius
                  occlusion_active ;
  do mask <- mark_visible (length positions) indices (seq 0 (length positions)) ;
  Some (fill_diagonal true mask).

(** Agent [k] is hidden behind agent [j] as seen from agent [i]: along the
    direction from [i] to [j] it projects farther than [j] is away, and it
    lies less than [agent_radius] off that direction. *)
Definition occludes (positions : list (R * R)) (agent_radius : R) (i j k : nat) : Prop :=
  let pos_i := nth i positions (0, 0) in
  let pj := nth j positions (0, 0) in
  let pk := nth k positions (0, 0) in
  let rel_vec := (fst pj - fst pos_i, snd pj - snd pos_i) in
  let rel_dir := (fst rel_vec / norm rel_vec, snd rel_vec / norm rel_vec) in
  let v := (fst pk - fst pos_i, snd pk - snd pos_i) in
  fst v * fst rel_dir + snd v * snd rel_dir > norm rel_vec /\
  Rabs (fst v * snd rel_dir - snd v * fst rel_dir) < agent_radius.

(** The distance from agent [i] to agent [j], as [np.linalg.norm] gives it. *)
Definition distance (positions : list (R * R)) (i j : nat) : R :=
  norm (fst (nth j positions (0, 0)) - fst (nth i positions (0, 0)),
        snd (nth j positions (0, 0)) - snd (nth i positions (0, 0))).

(** *** What the specification asks of the two tests *)

(** The bearing from [p] to [q] lies within [fov/2] on either side of the
    heading [theta]. *)
Definition bearing_within_fov (p q : R * R) (theta fov : R) : Prop :=
  exists delta : R,
    - (fov / 2) <= delta <= fov / 2 /\
    fst q - fst p = norm (fst q - fst p, snd q - snd p) * cos (theta + delta) /\
    snd q - snd p = norm (fst q - fst p, snd q - snd p) * sin (theta + delta).

(** Modelled from the spec: the rounding of the minimum-image convention
    d - L*round(d/L) of the geometry service, to the nearest integer, a half
    going up. *)
Definition round_nearest (x : R) : Z := Int_part (x + 1 / 2).

(** Modelled from the spec: the minimal wrapped difference along one axis. *)
Definition min_image (d L : R) : R := d - L * IZR (round_nearest (d / L)).

(** Modelled from the spec: the sum of the squared per-axis minimal
    differences. *)
Definition min_image_sqdist (domainSize p q : R * R) : R :=
  let dx := min_image (fst q - fst p) (fst domainSize) in
  let dy := min_image (snd q - snd p) (snd domainSize) in
  dx * dx + dy * dy.

End ServiceVision.

(** ** Notions used in the statements *)

Module Notions.

Import NumPy.


(** How many of the masks select agent [i]. *)
Definition selection_count (masks : list (list bool)) (i : nat) : nat :=
  length (filter (fun mask : list bool => nth i mask false) masks).

(** The squared distance of every agent to the origin of an event. *)
Definition distancesTo (domainSize origin : Q * Q) (positions : list (Q * Q)) : list Q :=
  map (fun p => ServiceVicsekHelper.sqdist domainSize origin p) positions.

(** The mask of agents within the event radius. *)
Definition withinRadius (radius : Q) (dists : list Q) : list bool :=
  map (fun d => Qle_bool d (radius * radius)) dists.

(** What NumPy promises of [np.argsort]: the indices of the array, each
    once, in ascending order of the values.  The order among equal values is
    the kernel's. *)
Definition sorts (argsort : list Q -> list nat) : Prop :=
  forall a : list Q,
    Permutation (argsort a) (seq 0 (length a)) /\
    StronglySorted (fun i j => nth i a 0 <= nth j a 0) (argsort a).


(** An event built by [FoodEvent.__init__] has a first area. *)
Definition event_ok (ev : FoodEvent.t) : Prop := FoodEvent.areas ev <> [].

(** What a call of [check] that does not fire leaves of the event: the first
    such call records the duration. *)
Definition idle (currentTimestep : Z) (ev : FoodEvent.t) : FoodEvent.t :=
  if (FoodEvent.duration ev =? -1)%Z
  then FoodEvent.set_duration ev (currentTimestep - FoodEvent.startTimestep ev)%Z
  else ev.

(** [ev'] is the source [ev] at a later time: everything but the remaining
    amount, the duration and the last firing time is the same. *)
Definition same_source (ev ev' : FoodEvent.t) : Prop :=
  FoodEvent.startTimestep ev' = FoodEvent.startTimestep ev /\
  FoodEvent.maxAmount ev' = FoodEvent.maxAmount ev /\
  FoodEvent.domainSize ev' = FoodEvent.domainSize ev /\
  FoodEvent.areas ev' = FoodEvent.areas ev /\
  FoodEvent.radius ev' = FoodEvent.radius ev /\
  FoodEvent.stopMovement ev' = FoodEvent.stopMovement ev.

(** A point of the domain [0, Lx) x [0, Ly). *)
Definition in_domain (domainSize p : Q * Q) : Prop :=
  (0 <= fst p /\ fst p < fst domainSize) /\ (0 <= snd p /\ snd p < snd domainSize).

Section Loop.

Context {Aux : Type}.
Variable C : Food.Collaborators Aux.
Variable cfg : Food.Config.
Variable rng : Food.Generators.

(** The arrays of a state have one entry per particle. *)
Definition shaped (st : Food.State Aux) : Prop :=
  length (Food.positions st) = Food.numberOfParticles cfg /\
  length (Food.speeds st) = Food.numberOfParticles cfg /\
  (exists hl, deref (Food.store st) (Food.hungerLevels st) = Some hl /\
              length hl = Food.numberOfParticles cfg) /\
  Forall event_ok (Food.foodEvents st).

(** The collaborators return arrays of the shape they are given. *)
Definition shape_preserving : Prop :=
  (forall a t ps al sp,
      length (snd (Food.handleEvents C a t ps al sp)) = length sp) /\
  (forall a t ps sp nz,
      length (snd (fst (Food.decideAndOrient C a t ps sp nz))) = length ps /\
      length (snd (Food.decideAndOrient C a t ps sp nz)) = length sp).

(** The states after each of the next [k] iterations. *)
Fixpoint states (k : nat) (st : Food.State Aux) : option (list (Food.State Aux)) :=
  match k with
  | O => Some []
  | S k' =>
      do st' <- Food.step C cfg rng st;
      do rest <- states k' st';
      Some (st' :: rest)
  end.

(** Agent [i] is selected by no food event in the iteration that
    produced [st]. *)
Definition unfed (i : nat) (st : Food.State Aux) : Prop :=
  selection_count (Food.overallAffected st) i = 0%nat.

(** How often agent [i] was selected over the iterations that produced
    the states [l]. *)
Fixpoint fed_total (l : list (Food.State Aux)) (i : nat) : nat :=
  match l with
  | [] => 0
  | st :: rest => (selection_count (Food.overallAffected st) i + fed_total rest i)%nat
  end.

(** The aliveness row of a state is the one computed from its hunger row. *)
Definition alive_from_hunger (st : Food.State Aux) : Prop :=
  Food.alive st = map (fun h => negb (Qle_bool h 0)) (Food.hunger st).

(** Every food event of the state was created before the current timestep. *)
Definition past_events (st : Food.State Aux) : Prop :=
  Forall (fun ev => (FoodEvent.startTimestep ev < Z.of_nat (Food.t st))%Z)
         (Food.foodEvents st).

(** Two pairs of generators agree on the draws that [K] iterations may read
    from the cursors [c] and [npc] on: three of Python's generator and two
    per particle of NumPy's for each iteration. *)
Definition agree_from (rng1 rng2 : Food.Generators) (c npc K : nat) : Prop :=
  (forall j, (c <= j < c + 3 * K)%nat -> Food.python rng1 j = Food.python rng2 j) /\
  (forall j, (npc <= j < npc + 2 * Food.numberOfParticles cfg * K)%nat ->
     Food.numpy rng1 j = Food.numpy rng2 j).

End Loop.

End Notions.

(** ** Concrete scenes *)

Module Scenes.

Import NumPy.

(** A food source at (5,5) with radius 5 on a 25 x 25 domain, created for
    timestep 3 with the given amount. *)
Definition source (amount : Z) : FoodEvent.t :=
  FoodEvent.mk 3 amount amount (25, 25) [(5, 5, 5)] 5 true (-1) None.

(** A store holding a speeds array at address 0 and a hunger array at
    address 1, for [n] particles. *)
Definition arrays (n : nat) : Store := [full n 1; full n 50].

(** Two agents, both farther than the radius from the source. *)
Definition far_positions : list (Q * Q) := [(20, 20); (22, 22)].

(** Four agents: agents 1 and 2 are equally far from the source, agent 3 is
    nearest, agent 0 is outside the radius. *)
Definition near_positions : list (Q * Q) := [(15, 15); (5, 8); (8, 5); (5, 6)].


(** Collaborators that leave the speeds as they are and head every agent
    along the x axis; their private state is trivial. *)
Definition still : Food.Collaborators unit :=
  Food.mkCollaborators unit
    (fun a _ _ _ speeds => (a, speeds))
    (fun a _ positions speeds _ => (a, map (fun _ : Q * Q => (1, 0)) positions, speeds)).

(** Two agents at rest (speed 0) on a 25 x 25 domain, [maxFood] 1, food
    appearing with probability 1/2, one unit per source. *)
Definition resting : Food.Config :=
  Food.mkConfig 2 0 5 0 (25, 25) 1 (Some (1 # 2)) 1 1.

Definition resting_positions : list (Q * Q) := [(5, 5); (20, 20)].

(** Draws of Python's generator: no source until timestep 10, where one
    appears at (5,5). *)
Definition late_draws (k : nat) : Q :=
  if Nat.eqb k 10 then 1 # 10
  else if Nat.eqb k 11 then 1 # 5
  else if Nat.eqb k 12 then 1 # 5
  else 9 # 10.

(** Draws of Python's generator: no source until timestep 11, where one
    appears at (5,5). *)
Definition later_draws (k : nat) : Q :=
  if Nat.eqb k 11 then 1 # 10
  else if Nat.eqb k 12 then 1 # 5
  else if Nat.eqb k 13 then 1 # 5
  else 9 # 10.

(** Draws of Python's generator: a source at (5,5) at timestep 0 and none
    afterwards. *)
Definition early_draws (k : nat) : Q :=
  if Nat.eqb k 0 then 1 # 10
  else if Nat.eqb k 1 then 1 # 5
  else if Nat.eqb k 2 then 1 # 5
  else 9 # 10.

(** Normal draws of NumPy's generator. *)
Definition normal_draws (k : nat) : Q := if Nat.even k then 1 # 3 else - (1 # 4).

(** The generators of the two runs. *)
Definition late : Food.Generators := Food.mkGenerators late_draws normal_draws.
Definition later : Food.Generators := Food.mkGenerators later_draws normal_draws.
Definition early : Food.Generators := Food.mkGenerators early_draws normal_draws.

(** Two resting agents that start with a tenth of food and see no source. *)
Definition fragile : Food.Config :=
  Food.mkConfig 2 0 5 0 (25, 25) (1 # 10) None 1 1.

(** Four moving agents with [maxFood] 60. *)
Definition roaming : Food.Config :=
  Food.mkConfig 4 1 5 (1 # 100) (25, 25) 60 (Some (1 # 50)) 10 1.

End Scenes.

(** ** A scene for the visibility service *)

Module VisionScenes.

Import Reals.
Local Open Scope R_scope.

(** Three agents in a row along the x-axis, all heading east. *)
Definition row : list (R * R) := [(0, 0); (1, 0); (2, 0)].

Definition east : list R := [0; 0; 0].

End VisionScenes.

(** * Properties *)

Import NumPy Notions.

(** ** Arrays and masks *)

Lemma map2_length {A B D : Type} (f : A -> B -> D) (xs : list A) (ys : list B) :
  length xs = length ys -> length (map2 f xs ys) = length xs.
Proof.
  revert ys; induction xs as [|x xs IH]; intros [|y ys] H; simpl in *; try discriminate; auto.
Qed.

Lemma nth_map2 {A B D : Type} (f : A -> B -> D) (xs : list A) (ys : list B)
    (i : nat) (da : A) (db : B) (dd : D) :
  length xs = length ys -> (i < length xs)%nat ->
  nth i (map2 f xs ys) dd = f (nth i xs da) (nth i ys db).
Proof.
  revert ys i; induction xs as [|x xs IH]; intros [|y ys] i H Hi; simpl in *;
    try discriminate; try lia.
  destruct i; auto. apply IH; lia.
Qed.

Lemma full_length {A : Type} (n : nat) (v : A) : length (full n v) = n.
Proof. apply repeat_length. Qed.

Lemma nth_full {A : Type} (n i : nat) (v d : A) : (i < n)%nat -> nth i (full n v) d = v.
Proof.
  unfold full. revert i; induction n; intros i H; [lia|].
  destruct i; simpl; auto. apply IHn; lia.
Qed.

Lemma nth_full_false (n i : nat) : nth i (full n false) false = false.
Proof.
  unfold full. revert i; induction n; intros [|i]; simpl; auto.
Qed.

(** ** The store *)

Lemma deref_update_same (s : Store) (a : ndarray) (v w : list Q) :
  deref s a = Some w -> deref (update s a v) a = Some v.
Proof.
  unfold deref. revert a; induction s as [|x s IH]; intros [|a]; simpl; try discriminate; auto.
Qed.

Lemma deref_update_other (s : Store) (a b : ndarray) (v : list Q) :
  a <> b -> deref (update s a v) b = deref s b.
Proof.
  unfold deref. revert a b; induction s as [|x s IH]; intros [|a] [|b] H; simpl;
    try reflexivity; try congruence.
  apply IH. congruence.
Qed.

Lemma deref_alloc_old (s : Store) (v : list Q) (a : ndarray) (w : list Q) :
  deref s a = Some w -> deref (fst (alloc s v)) a = Some w /\ a <> snd (alloc s v).
Proof.
  unfold deref, alloc; simpl. intros H.
  assert (Hlt : (a < length s)%nat) by (apply nth_error_Some; congruence).
  split; [rewrite nth_error_app1; auto | lia].
Qed.

Lemma deref_alloc_new (s : Store) (v : list Q) :
  deref (fst (alloc s v)) (snd (alloc s v)) = Some v.
Proof.
  unfold deref, alloc; simpl. rewrite nth_error_app2 by lia.
  rewrite Nat.sub_diag. reflexivity.
Qed.

(** ** Sort kernels *)

Lemma insert_index_perm (key : nat -> Q) (i : nat) (l : list nat) :
  Permutation (insert_index key i l) (i :: l).
Proof.
  induction l as [|j l IH]; simpl; [apply Permutation_refl|].
  destruct (Qle_bool (key i) (key j)); [apply Permutation_refl|].
  eapply Permutation_trans; [apply perm_skip, IH | apply perm_swap].
Qed.

Lemma insert_index_sorted (key : nat -> Q) (i : nat) (l : list nat) :
  StronglySorted (fun x y => key x <= key y) l ->
  StronglySorted (fun x y => key x <= key y) (insert_index key i l).
Proof.
  induction l as [|j l IH]; intros Hs; simpl.
  - constructor; constructor.
  - inversion Hs as [|? ? Hs' Hj]; subst.
    destruct (Qle_bool (key i) (key j)) eqn:E.
    + apply Qle_bool_iff in E. constructor; [exact Hs|].
      constructor; [exact E|].
      rewrite Forall_forall in *. intros x Hx.
      eapply Qle_trans; [exact E | apply Hj, Hx].
    + constructor; [apply IH; assumption|].
      apply (Permutation_Forall (Permutation_sym (insert_index_perm _ i l))).
      constructor; [|exact Hj].
      apply Qlt_le_weak, Qnot_le_lt. intro H. apply Qle_bool_iff in H. congruence.
Qed.

(** The insertion pass sorts the indices it is given, in whatever order it
    is given them. *)
Lemma insertion_sorts (a : list Q) (order : list nat) :
  Permutation (fold_right (insert_index (fun k => nth k a 0)) [] order) order /\
  StronglySorted (fun i j => nth i a 0 <= nth j a 0)
    (fold_right (insert_index (fun k => nth k a 0)) [] order).
Proof.
  induction order as [|i order [Hp Hs]]; simpl.
  - split; [apply Permutation_refl | constructor].
  - split.
    + eapply Permutation_trans; [apply insert_index_perm | apply perm_skip, Hp].
    + apply (insert_index_sorted (fun k => nth k a 0)). exact Hs.
Qed.

Lemma argsort_sorts : sorts argsort.
Proof. intro a. apply insertion_sorts. Qed.


Section Kernel.

Variable kernel : list Q -> list nat.
Hypothesis Hkernel : sorts kernel.

Lemma kernel_perm (a : list Q) : Permutation (kernel a) (seq 0 (length a)).
Proof. apply Hkernel. Qed.




Lemma kernel_In (a : list Q) (i : nat) : In i (kernel a) <-> (i < length a)%nat.
Proof.
  split; intro H.
  - apply (Permutation_in _ (kernel_perm a)) in H. apply in_seq in H. lia.
  - apply (Permutation_in _ (Permutation_sym (kernel_perm a))). apply in_seq. lia.
Qed.

End Kernel.


(** ** Masks as sets of indices *)

Lemma map_nth_seq {A : Type} (l : list A) (d : A) :
  map (fun i => nth i l d) (seq 0 (length l)) = l.
Proof.
  induction l as [|x l IH]; simpl; [reflexivity|].
  f_equal. rewrite <- seq_shift, map_map. exact IH.
Qed.

Lemma nth_map_seq {A : Type} (f : nat -> A) (n i : nat) (d : A) :
  (i < n)%nat -> nth i (map f (seq 0 n)) d = f i.
Proof.
  intro H. rewrite (nth_indep _ d (f 0%nat)) by (rewrite length_map, length_seq; exact H).
  rewrite map_nth. rewrite seq_nth by exact H. reflexivity.
Qed.

Lemma count_nonzero_indices (mask : list bool) :
  count_nonzero mask =
  length (filter (fun i => nth i mask false) (seq 0 (length mask))).
Proof.
  unfold count_nonzero.
  rewrite <- (map_nth_seq mask false) at 1.
  rewrite filter_map_swap, length_map. reflexivity.
Qed.



Lemma In_firstn {A : Type} (k : nat) (l : list A) (x : A) : In x (firstn k l) -> In x l.
Proof.
  intro H. rewrite <- (firstn_skipn k l). apply in_or_app; left; exact H.
Qed.

Lemma existsb_eqb_In (i : nat) (l : list nat) : existsb (Nat.eqb i) l = true <-> In i l.
Proof.
  rewrite existsb_exists. split.
  - intros [x [Hx E]]. apply Nat.eqb_eq in E. subst; exact Hx.
  - intro H. exists i; split; [exact H | apply Nat.eqb_refl].
Qed.

Lemma withinRadius_length (r : Q) (dists : list Q) :
  length (withinRadius r dists) = length dists.
Proof. apply length_map. Qed.

Lemma withinRadius_nth (r : Q) (dists : list Q) (i : nat) :
  (i < length dists)%nat ->
  nth i (withinRadius r dists) false = Qle_bool (nth i dists 0) (r * r).
Proof.
  intro H. unfold withinRadius.
  rewrite (nth_indep _ false (Qle_bool 0 (r * r))) by (rewrite length_map; exact H).
  apply (map_nth (fun d => Qle_bool d (r * r))).
Qed.

(** ** Nearest-first selection *)

Section Selection.

Variable kernel : list Q -> list nat.
Hypothesis Hkernel : sorts kernel.
Variable dists : list Q.
Variable r : Q.


End Selection.

(** ** [FoodEvent.selectAffected] and [FoodEvent.executeEvent] *)

Lemma relevantDistances_origin (domainSize origin : Q * Q) (rows : list (Q * Q)) :
  FoodEvent.relevantDistances
    (ServiceVicsekHelper.getDifferences (rows ++ [origin]) domainSize)
  = distancesTo domainSize origin rows.
Proof.
  unfold FoodEvent.relevantDistances, ServiceVicsekHelper.getDifferences, distancesTo.
  rewrite (map_app _ rows [origin]). simpl. rewrite last_last.
  rewrite (map_app _ rows [origin]). simpl. apply removelast_last.
Qed.

Lemma distancesTo_length (domainSize origin : Q * Q) (positions : list (Q * Q)) :
  length (distancesTo domainSize origin positions) = length positions.
Proof. apply length_map. Qed.

Lemma slice_to_prefix {A : Type} (k : Z) (l : list A) :
  exists m, slice_to k l = firstn m l.
Proof.
  unfold slice_to. destruct (0 <=? k)%Z; eexists; reflexivity.
Qed.

Section KernelSelection.

Variable kernel : list Q -> list nat.
Hypothesis Hkernel : sorts kernel.

(** The number [numberOfAffected] that [selectAffected] takes off the budget. *)
Lemma selectAffected_by_general (ev : FoodEvent.t) (candidates : list bool)
    (rij2 : list Q) :
  length rij2 = length candidates ->
  let len := Z.of_nat (length candidates) in
  let k := if (FoodEvent.amount ev <? len)%Z then FoodEvent.amount ev else len in
  exists affected,
    FoodEvent.selectAffected_by kernel ev candidates rij2
      = Some (FoodEvent.set_amount ev (FoodEvent.amount ev - k), affected) /\
    length affected = length candidates /\
    forall i, (i < length candidates)%nat ->
      nth i affected false
      = nth i candidates false && existsb (Nat.eqb i) (slice_to k (kernel rij2)).
Proof.
  intros Hlen len k. unfold FoodEvent.selectAffected_by. fold len. fold k.
  set (indices := slice_to k (kernel rij2)).
  assert (Hb : forallb (fun i => Nat.ltb i (length candidates)) indices = true).
  { apply forallb_forall. intros i Hi. apply Nat.ltb_lt. rewrite <- Hlen.
    apply (kernel_In kernel Hkernel). unfold indices in Hi.
    destruct (slice_to_prefix k (kernel rij2)) as [m Hm]. rewrite Hm in Hi.
    eapply In_firstn; exact Hi. }
  unfold mask_of_indices. rewrite Hb. simpl.
  unfold mask_and. rewrite length_map, length_seq, Nat.eqb_refl. simpl.
  eexists; split; [reflexivity|]. split.
  - rewrite map2_length; [reflexivity | rewrite length_map, length_seq; reflexivity].
  - intros i Hi.
    rewrite (nth_map2 andb _ _ i false false false);
      [| rewrite length_map, length_seq; reflexivity | exact Hi].
    rewrite nth_map_seq by exact Hi. reflexivity.
Qed.


End KernelSelection.

Lemma selectAffected_general (ev : FoodEvent.t) (candidates : list bool) (rij2 : list Q) :
  length rij2 = length candidates ->
  let len := Z.of_nat (length candidates) in
  let k := if (FoodEvent.amount ev <? len)%Z then FoodEvent.amount ev else len in
  exists affected,
    FoodEvent.selectAffected ev candidates rij2
      = Some (FoodEvent.set_amount ev (FoodEvent.amount ev - k), affected) /\
    length affected = length candidates /\
    forall i, (i < length candidates)%nat ->
      nth i affected false
      = nth i candidates false && existsb (Nat.eqb i) (slice_to k (argsort rij2)).
Proof.
  exact (selectAffected_by_general argsort argsort_sorts ev candidates rij2).
Qed.

Lemma assign_rows_same (n : nat) (positions : list (Q * Q)) :
  length positions = n -> FoodEvent.assign_rows n positions = Some positions.
Proof.
  intro H. unfold FoodEvent.assign_rows. rewrite H, Nat.eqb_refl. reflexivity.
Qed.

Section KernelFiring.

Variable kernel : list Q -> list nat.
Hypothesis Hkernel : sorts kernel.

(** A firing on well-shaped arrays: the selection of [selectAffected] is
    written into the two arrays in place. *)
Lemma executeEvent_by_shaped (ev : FoodEvent.t) (s : Store) (n : nat)
    (positions : list (Q * Q)) (speeds hungerLevels : ndarray)
    (sp hl : list Q) (origin : Q * Q) :
  length positions = n ->
  FoodEvent.getOriginPoint ev = Some origin ->
  deref s speeds = Some sp -> length sp = n ->
  deref s hungerLevels = Some hl -> length hl = n ->
  speeds <> hungerLevels ->
  let dists := distancesTo (FoodEvent.domainSize ev) origin positions in
  let cands := withinRadius (FoodEvent.radius ev) dists in
  exists ev' affected,
    FoodEvent.selectAffected_by kernel ev cands dists = Some (ev', affected) /\
    FoodEvent.areas ev' = FoodEvent.areas ev /\
    length affected = n /\
    FoodEvent.executeEvent_by kernel ev s n positions speeds hungerLevels
    = Some (ev',
            update (update s speeds (map2 (fun (m : bool) (x : Q) => if m then 0 else x) affected sp))
                   hungerLevels
                   (map2 (fun (m : bool) (x : Q) => if m then x + 1 else x) affected hl),
            (speeds, hungerLevels, affected)).
Proof.
  intros Hpos Horigin Hsp Hspn Hhl Hhln Hneq dists cands.
  destruct (selectAffected_by_general kernel Hkernel ev cands dists)
    as [affected [Hsel [Hlen _]]].
  { unfold cands. rewrite withinRadius_length. reflexivity. }
  assert (Hn : length affected = n).
  { rewrite Hlen. unfold cands, dists.
    rewrite withinRadius_length, distancesTo_length. exact Hpos. }
  eexists; exists affected. split; [exact Hsel|]. split; [reflexivity|]. split; [exact Hn|].
  unfold FoodEvent.executeEvent_by. rewrite (assign_rows_same _ _ Hpos). simpl.
  rewrite Horigin. simpl. rewrite relevantDistances_origin.
  fold dists. fold (withinRadius (FoodEvent.radius ev) dists). fold cands.
  rewrite Hsel. simpl. rewrite Hsp. simpl.
  unfold mask_assign. rewrite Hn, Hspn, Nat.eqb_refl. simpl.
  rewrite deref_update_other by exact Hneq. rewrite Hhl. simpl.
  unfold mask_add. rewrite Hn, Hhln, Nat.eqb_refl. simpl. reflexivity.
Qed.

End KernelFiring.

Lemma executeEvent_shaped (ev : FoodEvent.t) (s : Store) (n : nat)
    (positions : list (Q * Q)) (speeds hungerLevels : ndarray)
    (sp hl : list Q) (origin : Q * Q) :
  length positions = n ->
  FoodEvent.getOriginPoint ev = Some origin ->
  deref s speeds = Some sp -> length sp = n ->
  deref s hungerLevels = Some hl -> length hl = n ->
  speeds <> hungerLevels ->
  let dists := distancesTo (FoodEvent.domainSize ev) origin positions in
  let cands := withinRadius (FoodEvent.radius ev) dists in
  exists ev' affected,
    FoodEvent.selectAffected ev cands dists = Some (ev', affected) /\
    FoodEvent.areas ev' = FoodEvent.areas ev /\
    length affected = n /\
    FoodEvent.executeEvent ev s n positions speeds hungerLevels
    = Some (ev',
            update (update s speeds (map2 (fun (m : bool) (x : Q) => if m then 0 else x) affected sp))
                   hungerLevels
                   (map2 (fun (m : bool) (x : Q) => if m then x + 1 else x) affected hl),
            (speeds, hungerLevels, affected)).
Proof.
  exact (executeEvent_by_shaped argsort argsort_sorts ev s n positions speeds hungerLevels
           sp hl origin).
Qed.

Lemma check_by_exhausted (kernel : list Q -> list nat) (ev : FoodEvent.t) (s : Store)
    (n : nat) (t : Z) (positions : list (Q * Q)) (speeds hungerLevels : ndarray) :
  ~ (t <= FoodEvent.startTimestep ev /\ 0 < FoodEvent.amount ev)%Z ->
  exists ev',
    FoodEvent.check_by kernel ev s n t positions speeds hungerLevels
      = Some (ev', s, (speeds, hungerLevels, full n false)) /\
    FoodEvent.amount ev' = FoodEvent.amount ev /\
    FoodEvent.startTimestep ev' = FoodEvent.startTimestep ev /\
    FoodEvent.areas ev' = FoodEvent.areas ev.
Proof.
  intro H. unfold FoodEvent.check_by.
  destruct ((t <=? FoodEvent.startTimestep ev)%Z && (0 <? FoodEvent.amount ev)%Z) eqn:E.
  - exfalso. apply H. apply andb_true_iff in E. destruct E as [E1 E2].
    split; [apply Z.leb_le; exact E1 | apply Z.ltb_lt; exact E2].
  - destruct (FoodEvent.duration ev =? -1)%Z; eexists; split; try reflexivity;
      destruct ev; simpl; auto.
Qed.

Lemma check_exhausted (ev : FoodEvent.t) (s : Store) (n : nat) (t : Z)
    (positions : list (Q * Q)) (speeds hungerLevels : ndarray) :
  ~ (t <= FoodEvent.startTimestep ev /\ 0 < FoodEvent.amount ev)%Z ->
  exists ev',
    FoodEvent.check ev s n t positions speeds hungerLevels
      = Some (ev', s, (speeds, hungerLevels, full n false)) /\
    FoodEvent.amount ev' = FoodEvent.amount ev /\
    FoodEvent.startTimestep ev' = FoodEvent.startTimestep ev /\
    FoodEvent.areas ev' = FoodEvent.areas ev.
Proof.
  exact (check_by_exhausted argsort ev s n t positions speeds hungerLevels).
Qed.

Lemma check_by_firing (kernel : list Q -> list nat) (ev : FoodEvent.t) (s : Store)
    (n : nat) (t : Z) (positions : list (Q * Q)) (speeds hungerLevels : ndarray) :
  (t <= FoodEvent.startTimestep ev /\ 0 < FoodEvent.amount ev)%Z ->
  FoodEvent.check_by kernel ev s n t positions speeds hungerLevels
  = FoodEvent.executeEvent_by kernel (FoodEvent.set_timestep ev t) s n positions speeds
      hungerLevels.
Proof.
  intros [H1 H2]. unfold FoodEvent.check_by.
  apply Z.leb_le in H1. apply Z.ltb_lt in H2. rewrite H1, H2. reflexivity.
Qed.

Lemma check_firing (ev : FoodEvent.t) (s : Store) (n : nat) (t : Z)
    (positions : list (Q * Q)) (speeds hungerLevels : ndarray) :
  (t <= FoodEvent.startTimestep ev /\ 0 < FoodEvent.amount ev)%Z ->
  FoodEvent.check ev s n t positions speeds hungerLevels
  = FoodEvent.executeEvent (FoodEvent.set_timestep ev t) s n positions speeds hungerLevels.
Proof.
  exact (check_by_firing argsort ev s n t positions speeds hungerLevels).
Qed.


Lemma selection_count_all_false (n : nat) (masks : list (list bool)) (i : nat) :
  Forall (fun mask => mask = full n false) masks -> selection_count masks i = 0%nat.
Proof.
  unfold selection_count. induction 1 as [|m ms Hm _ IH]; simpl; [reflexivity|].
  subst m. rewrite nth_full_false. exact IH.
Qed.

(** ** The trigger of a food event *)



(** ** Nearest-first selection within the budget *)




(** ** The budget of a food event *)

(** What a firing takes off the budget: the smaller of the amount and the
    number of particles, whatever the number of agents within the radius. *)
Lemma firing_decrement (ev : FoodEvent.t) (s : Store) (n : nat)
    (positions : list (Q * Q)) (speeds hungerLevels : ndarray)
    (sp hl : list Q) (origin : Q * Q) :
  length positions = n ->
  FoodEvent.getOriginPoint ev = Some origin ->
  deref s speeds = Some sp -> length sp = n ->
  deref s hungerLevels = Some hl -> length hl = n ->
  speeds <> hungerLevels ->
  exists ev' s' affected,
    FoodEvent.executeEvent ev s n positions speeds hungerLevels
      = Some (ev', s', (speeds, hungerLevels, affected)) /\
    FoodEvent.amount ev'
      = (FoodEvent.amount ev - Z.min (FoodEvent.amount ev) (Z.of_nat n))%Z.
Proof.
  intros Hlen Horigin Hsp Hspn Hhl Hhln Hneq.
  destruct (executeEvent_shaped ev s n positions speeds hungerLevels sp hl origin
              Hlen Horigin Hsp Hspn Hhl Hhln Hneq)
    as [ev' [affected [Hsel [_ [Hn Hexec]]]]].
  match type of Hsel with FoodEvent.selectAffected _ ?c ?d = _ =>
    destruct (selectAffected_general ev c d) as [affected' [Hsel' _]];
      [unfold withinRadius; rewrite length_map; reflexivity|];
    rewrite Hsel' in Hsel; injection Hsel as <- <-;
    assert (Hc : length c = n)
      by (rewrite withinRadius_length, distancesTo_length; exact Hlen)
  end.
  rewrite Hexec. eexists; eexists; eexists. split; [reflexivity|].
  simpl. rewrite Hc.
  destruct (Z.ltb_spec (FoodEvent.amount ev) (Z.of_nat n)); lia.
Qed.

(** C3 at a concrete firing: two agents, both outside the radius of the
    source, amount 1.  No agent is selected, and the budget drops to 0. *)
Theorem firing_without_candidates_spends_budget :
  exists ev' s' affected,
    FoodEvent.check (Scenes.source 1) (Scenes.arrays 2) 2 0 Scenes.far_positions 0%nat 1%nat
      = Some (ev', s', (0%nat, 1%nat, affected)) /\
    withinRadius 5 (distancesTo (25, 25) (5, 5) Scenes.far_positions) = [false; false] /\
    affected = [false; false] /\
    FoodEvent.amount (Scenes.source 1) = 1%Z /\
    FoodEvent.amount ev' = 0%Z.
Proof.
  eexists; eexists; eexists. split; [vm_compute; reflexivity|].
  split; [vm_compute; reflexivity|]. split; [reflexivity|]. split; reflexivity.
Qed.

(** ** The events consulted in one timestep *)

Lemma inject_succ (c : nat) :
  inject_Z (Z.of_nat (S c)) == inject_Z (Z.of_nat c) + 1.
Proof.
  rewrite Nat2Z.inj_succ. unfold Qeq, Qplus, inject_Z. cbn [Qnum Qden]. lia.
Qed.

Lemma event_ok_origin (ev : FoodEvent.t) :
  event_ok ev -> exists origin, FoodEvent.getOriginPoint ev = Some origin.
Proof.
  unfold event_ok, FoodEvent.getOriginPoint.
  destruct (FoodEvent.areas ev) as [|[[x y] r] rest]; [congruence|].
  intros _. exists (x, y). reflexivity.
Qed.

Lemma selection_count_cons (mask : list bool) (masks : list (list bool)) (i : nat) :
  selection_count (mask :: masks) i
  = if nth i mask false then S (selection_count masks i) else selection_count masks i.
Proof.
  unfold selection_count. simpl. destruct (nth i mask false); reflexivity.
Qed.

(** Every event is consulted once; the hunger array ends up with one unit
    added per event that selected the agent, through the one array object. *)
Lemma checkEvents_shaped (n : nat) (t : Z) (positions : list (Q * Q))
    (speeds hungerLevels : ndarray) (events : list FoodEvent.t) :
  length positions = n ->
  speeds <> hungerLevels ->
  forall (s : Store) (sp hl : list Q),
    Forall event_ok events ->
    deref s speeds = Some sp -> length sp = n ->
    deref s hungerLevels = Some hl -> length hl = n ->
    exists events' s' masks hl',
      Food.checkEvents n t positions events s speeds hungerLevels
        = Some (events', s', (speeds, hungerLevels, masks)) /\
      Forall event_ok events' /\
      length masks = length events /\ length events' = length events /\
      deref s' hungerLevels = Some hl' /\ length hl' = n /\
      (forall i, (i < n)%nat ->
          nth i hl' 0 == nth i hl 0 + inject_Z (Z.of_nat (selection_count masks i))).
Proof.
  intros Hpos Hneq. induction events as [|ev rest IH]; intros s sp hl Hok Hsp Hspn Hhl Hhln.
  - exists [], s, [], hl. simpl. repeat split; auto.
    intros i _. unfold selection_count; simpl. unfold inject_Z. ring.
  - inversion Hok as [|? ? Hev Hrest]; subst. simpl.
    assert (Hdec : (t <= FoodEvent.startTimestep ev /\ 0 < FoodEvent.amount ev)%Z \/
                   ~ (t <= FoodEvent.startTimestep ev /\ 0 < FoodEvent.amount ev)%Z) by lia.
    destruct Hdec as [Hfire|Hidle].
    + rewrite check_firing by exact Hfire.
      destruct (event_ok_origin _ Hev) as [origin Horigin].
      destruct (executeEvent_shaped (FoodEvent.set_timestep ev t) s (length positions)
                  positions speeds hungerLevels sp hl origin eq_refl Horigin Hsp Hspn Hhl Hhln Hneq)
        as [ev' [affected [_ [Hareas [Hn Hexec]]]]].
      rewrite Hexec. simpl.
      set (sp1 := map2 (fun (m : bool) (x : Q) => if m then 0 else x) affected sp) in *.
      set (hl1 := map2 (fun (m : bool) (x : Q) => if m then x + 1 else x) affected hl) in *.
      set (s1 := update (update s speeds sp1) hungerLevels hl1) in *.
      assert (Hhl1 : deref s1 hungerLevels = Some hl1).
      { unfold s1. apply (deref_update_same _ _ _ hl).
        rewrite deref_update_other by exact Hneq. exact Hhl. }
      assert (Hsp1 : deref s1 speeds = Some sp1).
      { unfold s1. rewrite deref_update_other by congruence.
        apply (deref_update_same _ _ _ sp). exact Hsp. }
      assert (Hl1 : length hl1 = length positions)
        by (unfold hl1; rewrite map2_length; lia).
      assert (Hl2 : length sp1 = length positions)
        by (unfold sp1; rewrite map2_length; lia).
      destruct (IH s1 sp1 hl1 Hrest Hsp1 Hl2 Hhl1 Hl1)
        as [rest' [s' [masks [hl' [Hc [Hok' [Hm [He [Hd [Hl' Hsum]]]]]]]]]].
      rewrite Hc. simpl.
      exists (ev' :: rest'), s', (affected :: masks), hl'.
      split; [reflexivity|]. split.
      { constructor; [|exact Hok']. unfold event_ok in *. rewrite Hareas. exact Hev. }
      split; [simpl; lia|]. split; [simpl; lia|]. split; [exact Hd|]. split; [exact Hl'|].
      intros i Hi. rewrite (Hsum i Hi). unfold hl1.
      rewrite (nth_map2 _ affected hl i false 0 0) by lia.
      rewrite selection_count_cons.
      destruct (nth i affected false).
      * rewrite inject_succ. ring.
      * reflexivity.
    + destruct (check_exhausted ev s (length positions) t positions speeds hungerLevels Hidle)
        as [ev' [Hc [_ [_ Hareas]]]].
      rewrite Hc. simpl.
      destruct (IH s sp hl Hrest Hsp Hspn Hhl Hhln)
        as [rest' [s' [masks [hl' [Hc' [Hok' [Hm [He [Hd [Hl' Hsum]]]]]]]]]].
      rewrite Hc'. simpl.
      exists (ev' :: rest'), s', (full (length positions) false :: masks), hl'.
      split; [reflexivity|]. split.
      { constructor; [|exact Hok']. unfold event_ok in *. rewrite Hareas. exact Hev. }
      split; [simpl; lia|]. split; [simpl; lia|]. split; [exact Hd|]. split; [exact Hl'|].
      intros i Hi. rewrite (Hsum i Hi). rewrite selection_count_cons.
      rewrite nth_full_false. reflexivity.
Qed.

(** ** [handleFoodEvents] *)

Lemma nth_map_combine {A B D : Type} (f : A * B -> D) (xs : list A) (ys : list B)
    (i : nat) (da : A) (db : B) (dd : D) :
  length xs = length ys -> (i < length xs)%nat ->
  nth i (map f (combine xs ys)) dd = f (nth i xs da, nth i ys db).
Proof.
  revert ys i; induction xs as [|x xs IH]; intros [|y ys] i H Hi; simpl in *;
    try discriminate; try lia.
  destruct i; auto. apply IH; lia.
Qed.

Lemma nonzero_columns_In (n : nat) (masks : list (list bool)) (i : nat) :
  In i (Food.nonzero_columns n masks)
  <-> (i < n)%nat /\ existsb (fun mask : list bool => nth i mask false) masks = true.
Proof.
  unfold Food.nonzero_columns. rewrite filter_In, in_seq. split; intros [H1 H2]; split; auto; lia.
Qed.

(** The speeds after the halting of the selected agents, before satiation is
    looked at. *)
Lemma halted_speeds (n k : nat) (speed : Q) (masks : list (list bool)) :
  length masks = k ->
  exists speeds2,
    (if Nat.ltb 0 k then
       let flat := Food.nonzero_columns n masks in
       if Nat.ltb 0 (length flat) then Food.index_assign flat 0 (full n speed)
       else Some (full n speed)
     else Some (full n speed)) = Some speeds2 /\
    length speeds2 = n /\
    forall i, (i < n)%nat ->
      nth i speeds2 0
      = if existsb (fun mask : list bool => nth i mask false) masks then 0 else speed.
Proof.
  intro Hk. destruct (Nat.ltb_spec 0 k) as [Hpos|Hzero].
  - cbv zeta. destruct (Nat.ltb_spec 0 (length (Food.nonzero_columns n masks))) as [Hf|Hf].
    + unfold Food.index_assign. rewrite full_length.
      assert (Hb : forallb (fun i => Nat.ltb i n) (Food.nonzero_columns n masks) = true).
      { apply forallb_forall. intros i Hi. apply nonzero_columns_In in Hi.
        apply Nat.ltb_lt. tauto. }
      rewrite Hb. eexists; split; [reflexivity|]. split.
      * rewrite length_map, length_seq. reflexivity.
      * intros i Hi. rewrite nth_map_seq by exact Hi.
        rewrite nth_full by exact Hi.
        destruct (existsb (fun mask : list bool => nth i mask false) masks) eqn:E.
        -- assert (H : In i (Food.nonzero_columns n masks))
             by (apply nonzero_columns_In; split; assumption).
           apply existsb_eqb_In in H. rewrite H. reflexivity.
        -- destruct (existsb (Nat.eqb i) (Food.nonzero_columns n masks)) eqn:E'; [|reflexivity].
           apply existsb_eqb_In in E'. apply nonzero_columns_In in E'.
           destruct E' as [_ E']. congruence.
    + exists (full n speed). split; [reflexivity|]. split; [apply full_length|].
      intros i Hi. rewrite nth_full by exact Hi.
      destruct (existsb (fun mask : list bool => nth i mask false) masks) eqn:E; [|reflexivity].
      assert (H : In i (Food.nonzero_columns n masks))
        by (apply nonzero_columns_In; split; assumption).
      destruct (Food.nonzero_columns n masks); [contradiction | simpl in Hf; lia].
  - exists (full n speed). split; [reflexivity|]. split; [apply full_length|].
    intros i Hi. rewrite nth_full by exact Hi.
    destruct masks; [reflexivity | simpl in Hk; lia].
Qed.

(** [handleFoodEvents] on well-shaped arrays: it consults every event and
    then fixes the speed of every agent. *)
Lemma handleFoodEvents_shaped (cfg : Food.Config) (t : Z) (positions : list (Q * Q))
    (speeds hungerLevels : ndarray) (events : list FoodEvent.t)
    (s : Store) (sp hl : list Q) :
  let n := Food.numberOfParticles cfg in
  length positions = n ->
  speeds <> hungerLevels ->
  Forall event_ok events ->
  deref s speeds = Some sp -> length sp = n ->
  deref s hungerLevels = Some hl -> length hl = n ->
  exists events' s' masks hl' speeds',
    Food.checkEvents n t positions events s speeds hungerLevels
      = Some (events', s', (speeds, hungerLevels, masks)) /\
    Food.handleFoodEvents cfg events s t positions speeds hungerLevels
      = Some (events', s', (speeds', hungerLevels, masks)) /\
    Forall event_ok events' /\
    deref s' hungerLevels = Some hl' /\ length hl' = n /\
    (forall i, (i < n)%nat ->
        nth i hl' 0 == nth i hl 0 + inject_Z (Z.of_nat (selection_count masks i))) /\
    length speeds' = n /\
    (forall i, (i < n)%nat ->
        nth i speeds' 0
        = if Qle_bool (Food.maxFood cfg) (nth i hl' 0) then Food.speed cfg
          else if existsb (fun mask : list bool => nth i mask false) masks then 0
               else Food.speed cfg).
Proof.
  intros n Hpos Hneq Hok Hsp Hspn Hhl Hhln.
  destruct (checkEvents_shaped n t positions speeds hungerLevels events Hpos Hneq
              s sp hl Hok Hsp Hspn Hhl Hhln)
    as [events' [s' [masks [hl' [Hc [Hok' [Hm [He [Hd [Hl' Hsum]]]]]]]]]].
  destruct (halted_speeds n (length events') (Food.speed cfg) masks)
    as [speeds2 [Hs2 [Hl2 Hn2]]]; [lia|].
  exists events', s', masks, hl'.
  exists (map (fun hs : Q * Q =>
                 if Qle_bool (Food.maxFood cfg) (fst hs) then Food.speed cfg else snd hs)
              (combine hl' speeds2)).
  split; [exact Hc|]. split.
  - unfold Food.handleFoodEvents. fold n. rewrite Hc. cbn [bind].
    cbv zeta in Hs2. rewrite Hs2. cbn [bind]. rewrite Hd. cbn [bind].
    unfold Food.broadcast2. rewrite Hl', Hl2, Nat.eqb_refl. reflexivity.
  - split; [exact Hok'|]. split; [exact Hd|]. split; [exact Hl'|]. split; [exact Hsum|].
    split.
    + rewrite length_map, length_combine. lia.
    + intros i Hi.
      rewrite (nth_map_combine _ hl' speeds2 i 0 0 0) by lia.
      cbn [fst snd]. rewrite Hn2 by exact Hi. reflexivity.
Qed.

(** C7: after [handleFoodEvents] the speed of an agent is the nominal speed
    when its hunger level, as the events of this step left it, has reached
    [maxFood]; otherwise it is 0 when at least one food event selected the
    agent in this step, and the nominal speed when none did. *)
Theorem handleFoodEvents_speed (cfg : Food.Config) (t : Z) (positions : list (Q * Q))
    (speeds hungerLevels : ndarray) (events : list FoodEvent.t)
    (s : Store) (sp hl : list Q) :
  length positions = Food.numberOfParticles cfg ->
  speeds <> hungerLevels ->
  Forall event_ok events ->
  deref s speeds = Some sp -> length sp = Food.numberOfParticles cfg ->
  deref s hungerLevels = Some hl -> length hl = Food.numberOfParticles cfg ->
  exists events' s' masks hl' speeds',
    Food.checkEvents (Food.numberOfParticles cfg) t positions events s speeds hungerLevels
      = Some (events', s', (speeds, hungerLevels, masks)) /\
    Food.handleFoodEvents cfg events s t positions speeds hungerLevels
      = Some (events', s', (speeds', hungerLevels, masks)) /\
    deref s' hungerLevels = Some hl' /\
    forall i, (i < Food.numberOfParticles cfg)%nat ->
      (Food.maxFood cfg <= nth i hl' 0 -> nth i speeds' 0 = Food.speed cfg) /\
      (nth i hl' 0 < Food.maxFood cfg ->
         ((0 < selection_count masks i)%nat -> nth i speeds' 0 = 0) /\
         (selection_count masks i = 0%nat -> nth i speeds' 0 = Food.speed cfg)).
Proof.
  intros Hpos Hneq Hok Hsp Hspn Hhl Hhln.
  destruct (handleFoodEvents_shaped cfg t positions speeds hungerLevels events s sp hl
              Hpos Hneq Hok Hsp Hspn Hhl Hhln)
    as [events' [s' [masks [hl' [speeds' [Hc [Hh [_ [Hd [_ [_ [_ Hspeed]]]]]]]]]]]].
  exists events', s', masks, hl', speeds'.
  split; [exact Hc|]. split; [exact Hh|]. split; [exact Hd|].
  intros i Hi. rewrite (Hspeed i Hi).
  assert (Hsel : existsb (fun mask : list bool => nth i mask false) masks = true
                 <-> (0 < selection_count masks i)%nat).
  { unfold selection_count. clear. induction masks as [|m ms IH]; simpl.
    - split; [discriminate | lia].
    - destruct (nth i m false); simpl; [split; [lia | reflexivity] | exact IH]. }
  split.
  - intro Hle. apply Qle_bool_iff in Hle. rewrite Hle. reflexivity.
  - intro Hlt.
    destruct (Qle_bool (Food.maxFood cfg) (nth i hl' 0)) eqn:E.
    + apply Qle_bool_iff in E. exfalso. apply (Qlt_not_le _ _ Hlt E).
    + destruct (existsb (fun mask : list bool => nth i mask false) masks) eqn:E'; split; intro H.
      * reflexivity.
      * assert ((0 < selection_count masks i)%nat) by (apply Hsel; reflexivity). lia.
      * apply Hsel in H. discriminate.
      * reflexivity.
Qed.

(** ** One iteration of the loop *)

Lemma updateFoodEvents_ok (cfg : Food.Config) (rng : nat -> Q) (c : nat) (t : Z)
    (events : list FoodEvent.t) :
  Forall event_ok events ->
  exists c1 events1,
    Food.updateFoodEvents cfg rng c t events = Some (c1, events1) /\
    Forall event_ok events1 /\ (c <= c1 <= c + 3)%nat.
Proof.
  intro Hok. unfold Food.updateFoodEvents.
  destruct (Food.foodAppearanceProbability cfg) as [p|].
  - destruct (Qeq_bool p 0).
    + exists c, events. repeat split; auto; lia.
    + destruct (negb (Qle_bool p (rng c))).
      * simpl. eexists; eexists. split; [reflexivity|]. split; [|lia].
        apply Forall_app. split; [exact Hok|].
        constructor; [|constructor]. unfold event_ok. simpl. discriminate.
      * eexists; eexists. split; [reflexivity|]. split; [exact Hok | lia].
  - exists c, events. repeat split; auto; lia.
Qed.

Lemma move_shaped (cfg : Food.Config) (positions orientations : list (Q * Q))
    (speeds : list Q) :
  length orientations = length positions ->
  length speeds = length positions ->
  exists positions',
    Food.move cfg positions orientations speeds = Some positions' /\
    length positions' = length positions.
Proof.
  intros Ho Hs. unfold Food.move. rewrite Ho, Hs, Nat.eqb_refl. simpl.
  eexists; split; [reflexivity|].
  apply map2_length. rewrite length_combine. lia.
Qed.

(** Both names of the comparison [hungerLevels == previousHungerLevels] read
    one array, so the decrement applies to every entry. *)
Lemma where_all_unchanged (f : Q -> Q) (h : list Q) :
  where_ (map (fun hp : Q * Q => Qeq_bool (fst hp) (snd hp)) (combine h h)) (map f h) h
  = map f h.
Proof.
  unfold where_. induction h as [|x h IH]; simpl; [reflexivity|].
  rewrite Qeq_bool_refl. f_equal. exact IH.
Qed.

Lemma generateNoise_ok (cfg : Food.Config) (normal : nat -> Q) (c : nat) :
  0 <= Food.noise cfg ->
  exists nz, Food.generateNoise cfg normal c = Some nz.
Proof.
  intro H. unfold Food.generateNoise. apply Qle_bool_iff in H. rewrite H.
  eexists; reflexivity.
Qed.

Section LoopFacts.

Context {Aux : Type}.
Variable C : Food.Collaborators Aux.
Variable cfg : Food.Config.
Variable rng : Food.Generators.
Hypothesis Hshape : shape_preserving C.
Hypothesis Hnoise : 0 <= Food.noise cfg.

Lemma step_shaped (st : Food.State Aux) :
  shaped cfg st ->
  exists st',
    Food.step C cfg rng st = Some st' /\
    shaped cfg st' /\
    Food.t st' = S (Food.t st) /\
    (Food.cursor st <= Food.cursor st' <= Food.cursor st + 3)%nat /\
    length (Food.hunger st') = Food.numberOfParticles cfg /\
    (forall i, (i < Food.numberOfParticles cfg)%nat ->
        nth i (Food.hunger st') 0
        == nth i (Food.hunger st) 0
           + inject_Z (Z.of_nat (selection_count (Food.overallAffected st') i))
           - (1 # 10)) /\
    Food.alive st' = map (fun h => negb (Qle_bool h 0)) (Food.hunger st') /\
    Food.hungerLevelHistory st' = Food.hungerLevelHistory st ++ [Food.hunger st'] /\
    Food.alivenessHistory st' = Food.alivenessHistory st ++ [Food.alive st'].
Proof.
  intros [Hpos [Hspd [[hl [Hhl Hhln]] Hok]]].
  destruct Hshape as [HshE HshO].
  unfold Food.step.
  destruct (updateFoodEvents_ok cfg (Food.python rng) (Food.cursor st)
              (Z.of_nat (Food.t st)) (Food.foodEvents st) Hok)
    as [c1 [events1 [Hupd [Hok1 Hc1]]]].
  rewrite Hupd. cbn [bind].
  destruct (Food.handleEvents C (Food.aux st) (Z.of_nat (Food.t st)) (Food.positions st)
              (Food.alive st) (Food.speeds st)) as [aux1 speedsEv] eqn:EhE.
  assert (HlenEv : length speedsEv = Food.numberOfParticles cfg).
  { pose proof (HshE (Food.aux st) (Z.of_nat (Food.t st)) (Food.positions st)
                     (Food.alive st) (Food.speeds st)) as H.
    rewrite EhE in H. simpl in H. lia. }
  unfold alloc at 1.
  destruct (deref_alloc_old (Food.store st) speedsEv (Food.hungerLevels st) hl Hhl)
    as [Hhl1 Hneq].
  pose proof (deref_alloc_new (Food.store st) speedsEv) as Hsp1.
  unfold alloc in Hhl1, Hneq, Hsp1. simpl in Hhl1, Hneq, Hsp1.
  destruct (handleFoodEvents_shaped cfg (Z.of_nat (Food.t st)) (Food.positions st)
              (length (Food.store st)) (Food.hungerLevels st) events1
              (Food.store st ++ [speedsEv]) speedsEv hl Hpos (not_eq_sym Hneq) Hok1
              Hsp1 HlenEv Hhl1 Hhln)
    as [events2 [s2 [masks [hl' [speedsF [_ [Hh [Hok2 [Hd [Hl' [Hsum [HlF _]]]]]]]]]]]].
  rewrite Hh. cbn [bind].
  destruct (generateNoise_ok cfg (Food.numpy rng) (Food.npCursor st) Hnoise) as [nz Hnz].
  rewrite Hnz. cbn [bind].
  destruct (Food.decideAndOrient C aux1 (Z.of_nat (Food.t st)) (Food.positions st) speedsF nz)
    as [[aux2 orientations] speedsSw] eqn:EdO.
  assert (HlenO : length orientations = length (Food.positions st) /\
                  length speedsSw = length (Food.positions st)).
  { pose proof (HshO aux1 (Z.of_nat (Food.t st)) (Food.positions st) speedsF nz) as H.
    rewrite EdO in H. simpl in H. lia. }
  destruct (move_shaped cfg (Food.positions st) orientations speedsSw)
    as [positions' [Hmove Hlp]]; [tauto | tauto |].
  rewrite Hmove. cbn [bind]. rewrite Hd. cbn [bind].
  unfold Food.broadcast2. rewrite Nat.eqb_refl. cbn [bind].
  rewrite length_map, length_combine, Nat.min_id, Nat.eqb_refl.
  rewrite where_all_unchanged. unfold alloc.
  eexists. split; [reflexivity|].
  assert (Hnew : deref (s2 ++ [map (fun h : Q => h - (1 # 10)) hl']) (length s2)
                 = Some (map (fun h : Q => h - (1 # 10)) hl')).
  { unfold deref. rewrite nth_error_app2 by lia. rewrite Nat.sub_diag. reflexivity. }
  unfold Food.hunger. cbn [Food.store Food.hungerLevels Food.positions Food.speeds
                           Food.foodEvents Food.t Food.cursor Food.overallAffected
                           Food.alive Food.hungerLevelHistory Food.alivenessHistory].
  rewrite Hnew, Hhl.
  split.
  { unfold shaped. cbn [Food.store Food.hungerLevels Food.positions Food.speeds
                        Food.foodEvents].
    split; [lia|]. split; [lia|]. split; [|exact Hok2].
    eexists. split; [exact Hnew|]. rewrite length_map. exact Hl'. }
  split; [reflexivity|]. split; [exact Hc1|].
  split; [rewrite length_map; exact Hl'|].
  split; [|repeat split].
  intros i Hi.
  rewrite (nth_indep _ 0 (0 - (1 # 10))) by (rewrite length_map; lia).
  rewrite (map_nth (fun h : Q => h - (1 # 10))).
  rewrite (Hsum i Hi). reflexivity.
Qed.

End LoopFacts.

(** ** Runs of the loop *)

Lemma alive_nth {Aux : Type} (st : Food.State Aux) (i : nat) :
  alive_from_hunger st -> (i < length (Food.hunger st))%nat ->
  nth i (Food.alive st) false = negb (Qle_bool (nth i (Food.hunger st) 0) 0).
Proof.
  intros H Hi. rewrite H.
  rewrite (nth_indep _ false (negb (Qle_bool 0 0))) by (rewrite length_map; exact Hi).
  apply (map_nth (fun h => negb (Qle_bool h 0))).
Qed.

Lemma fed_total_unfed {Aux : Type} (l : list (Food.State Aux)) (i : nat) :
  (forall st', In st' l -> unfed i st') -> fed_total l i = 0%nat.
Proof.
  induction l as [|st l IH]; intro H; simpl; [reflexivity|].
  rewrite IH by (intros st' Hin; apply H; right; exact Hin).
  rewrite (H st) by (left; reflexivity). reflexivity.
Qed.

Lemma inject_plus (a b : nat) :
  inject_Z (Z.of_nat (a + b)) == inject_Z (Z.of_nat a) + inject_Z (Z.of_nat b).
Proof.
  rewrite Nat2Z.inj_add. unfold Qeq, Qplus, inject_Z. cbn [Qnum Qden]. lia.
Qed.

Lemma last_cons {A : Type} (x d : A) (l : list A) : last (x :: l) d = last l x.
Proof.
  revert x d; induction l as [|y l IH]; intros x d; [reflexivity|].
  change (last (x :: y :: l) d) with (last (y :: l) d). rewrite !IH. reflexivity.
Qed.

Section RunFacts.

Context {Aux : Type}.
Variable C : Food.Collaborators Aux.
Variable cfg : Food.Config.
Variable rng : Food.Generators.
Hypothesis Hshape : shape_preserving C.
Hypothesis Hnoise : 0 <= Food.noise cfg.

Lemma states_total (K : nat) :
  forall st, shaped cfg st ->
    exists l, states C cfg rng K st = Some l /\ length l = K.
Proof.
  induction K as [|K IH]; intros st Hst; simpl.
  - exists []. split; reflexivity.
  - destruct (step_shaped C cfg rng Hshape Hnoise st Hst) as [st1 [Hstep [Hst1 _]]].
    rewrite Hstep. cbn [bind].
    destruct (IH st1 Hst1) as [l [Hl Hlen]]. rewrite Hl. cbn [bind].
    exists (st1 :: l). split; [reflexivity | simpl; lia].
Qed.

Lemma states_succ_inv (K : nat) (st : Food.State Aux) (l : list (Food.State Aux)) :
  states C cfg rng (S K) st = Some l ->
  exists st1 rest,
    Food.step C cfg rng st = Some st1 /\ states C cfg rng K st1 = Some rest /\
    l = st1 :: rest.
Proof.
  simpl. destruct (Food.step C cfg rng st) as [st1|]; [|discriminate]. cbn [bind].
  destruct (states C cfg rng K st1) as [rest|] eqn:E; [|discriminate]. cbn [bind].
  intro H. injection H as <-. exists st1, rest. auto.
Qed.

Lemma run_states (K : nat) :
  forall st l, states C cfg rng K st = Some l ->
    Food.run C cfg rng K st = Some (last l st).
Proof.
  induction K as [|K IH]; intros st l H.
  - simpl in H. injection H as <-. reflexivity.
  - destruct (states_succ_inv K st l H) as [st1 [rest [Hstep [Hrest ->]]]].
    simpl Food.run. rewrite Hstep. cbn [bind]. rewrite (IH st1 rest Hrest).
    f_equal. symmetry. apply last_cons.
Qed.

(** The hunger level after [K] iterations: one unit per selection, a tenth
    off per iteration. *)
Lemma hunger_total (K : nat) (i : nat) :
  (i < Food.numberOfParticles cfg)%nat ->
  forall st l, shaped cfg st -> states C cfg rng K st = Some l ->
    nth i (Food.hunger (last l st)) 0
    == nth i (Food.hunger st) 0 + inject_Z (Z.of_nat (fed_total l i))
       - (1 # 10) * inject_Z (Z.of_nat K).
Proof.
  intro Hi. induction K as [|K IH]; intros st l Hst H.
  - simpl in H. injection H as <-. simpl. unfold inject_Z. ring.
  - destruct (states_succ_inv K st l H) as [st1 [rest [Hstep [Hrest ->]]]].
    destruct (step_shaped C cfg rng Hshape Hnoise st Hst)
      as [st1' [Hstep' [Hst1 [_ [_ [_ [Hsum _]]]]]]].
    rewrite Hstep in Hstep'. injection Hstep' as <-.
    rewrite last_cons. rewrite (IH st1 rest Hst1 Hrest). rewrite (Hsum i Hi).
    cbn [fed_total]. rewrite inject_plus, inject_succ. ring.
Qed.

(** After an iteration, an agent is flagged alive exactly when its hunger
    level is positive. *)
Lemma alive_iff_hungry (K : nat) (i : nat) :
  (i < Food.numberOfParticles cfg)%nat ->
  forall st l, shaped cfg st -> states C cfg rng K st = Some l ->
    forall st', In st' l ->
      (nth i (Food.alive st') false = true <-> 0 < nth i (Food.hunger st') 0).
Proof.
  intro Hi. induction K as [|K IH]; intros st l Hst H st' Hin.
  - simpl in H. injection H as <-. contradiction.
  - destruct (states_succ_inv K st l H) as [st1 [rest [Hstep [Hrest ->]]]].
    destruct (step_shaped C cfg rng Hshape Hnoise st Hst)
      as [st1' [Hstep' [Hst1 [_ [_ [Hlen [_ [Halive _]]]]]]]].
    rewrite Hstep in Hstep'. injection Hstep' as <-.
    destruct Hin as [<-|Hin]; [|apply (IH st1 rest Hst1 Hrest st' Hin)].
    rewrite (alive_nth st1 i Halive) by lia.
    destruct (Qle_bool (nth i (Food.hunger st1) 0) 0) eqn:E; simpl.
    + apply Qle_bool_iff in E. split; [discriminate|].
      intro Hlt. exfalso. apply (Qlt_not_le _ _ Hlt E).
    + split; [|reflexivity]. intros _. apply Qnot_le_lt. intro Hle.
      apply Qle_bool_iff in Hle. congruence.
Qed.

(** A starved agent that no food event selects stays flagged not alive. *)
Lemma starved_unfed_stays (K : nat) (i : nat) :
  (i < Food.numberOfParticles cfg)%nat ->
  forall st l, shaped cfg st -> states C cfg rng K st = Some l ->
    nth i (Food.hunger st) 0 <= 0 ->
    (forall st', In st' l -> unfed i st') ->
    forall st', In st' l -> nth i (Food.alive st') false = false.
Proof.
  intro Hi. induction K as [|K IH]; intros st l Hst H Hdead Hunfed st' Hin.
  - simpl in H. injection H as <-. contradiction.
  - destruct (states_succ_inv K st l H) as [st1 [rest [Hstep [Hrest ->]]]].
    destruct (step_shaped C cfg rng Hshape Hnoise st Hst)
      as [st1' [Hstep' [Hst1 [_ [_ [Hlen [Hsum [Halive _]]]]]]]].
    rewrite Hstep in Hstep'. injection Hstep' as <-.
    assert (Hdead1 : nth i (Food.hunger st1) 0 <= 0).
    { rewrite (Hsum i Hi). rewrite (Hunfed st1) by (left; reflexivity).
      change (inject_Z (Z.of_nat 0)) with 0. lra. }
    destruct Hin as [<-|Hin].
    + rewrite (alive_nth st1 i Halive) by lia.
      apply Qle_bool_iff in Hdead1. rewrite Hdead1. reflexivity.
    + apply (IH st1 rest Hst1 Hrest Hdead1); [|exact Hin].
      intros st'' Hin''. apply Hunfed. right; exact Hin''.
Qed.

End RunFacts.

Lemma still_shape_preserving : shape_preserving Scenes.still.
Proof.
  split; intros; simpl; [reflexivity|]. split; [apply length_map | reflexivity].
Qed.

Lemma initial_shaped {Aux : Type} (cfg : Food.Config) (aux0 : Aux)
    (positions0 : list (Q * Q)) (foodEvents0 : list FoodEvent.t) :
  length positions0 = Food.numberOfParticles cfg ->
  Forall event_ok foodEvents0 ->
  shaped cfg (Food.initial cfg aux0 positions0 foodEvents0) /\
  Food.hunger (Food.initial cfg aux0 positions0 foodEvents0)
  = full (Food.numberOfParticles cfg) (Food.maxFood cfg).
Proof.
  intros Hpos Hok. unfold Food.initial, shaped, Food.hunger. simpl.
  repeat split; auto; try apply full_length.
  exists (full (Food.numberOfParticles cfg) (Food.maxFood cfg)).
  split; [reflexivity | apply full_length].
Qed.

(** The rows that [K] iterations append to the hunger and aliveness
    histories are the rows of the states they produce. *)
Lemma histories_of_states {Aux : Type} (C : Food.Collaborators Aux)
    (cfg : Food.Config) (rng : Food.Generators) (K : nat) :
  shape_preserving C -> 0 <= Food.noise cfg ->
  forall st l, shaped cfg st -> states C cfg rng K st = Some l ->
    Food.hungerLevelHistory (last l st)
      = Food.hungerLevelHistory st ++ map Food.hunger l /\
    Food.alivenessHistory (last l st)
      = Food.alivenessHistory st ++ map Food.alive l.
Proof.
  intros Hshape Hnoise. induction K as [|K IH]; intros st l Hst H.
  - simpl in H. injection H as <-. simpl. rewrite !app_nil_r. split; reflexivity.
  - destruct (states_succ_inv C cfg rng K st l H) as [st1 [rest [Hstep [Hrest ->]]]].
    destruct (step_shaped C cfg rng Hshape Hnoise st Hst)
      as [st1' [Hstep' [Hst1 [_ [_ [_ [_ [_ [Hh Ha]]]]]]]]].
    rewrite Hstep in Hstep'. injection Hstep' as <-.
    rewrite last_cons. destruct (IH st1 rest Hst1 Hrest) as [IHh IHa].
    rewrite IHh, IHa, Hh, Ha. simpl. rewrite <- !app_assoc. split; reflexivity.
Qed.

(** ** Aliveness *)

(** C4, as the loop behaves: an agent flagged not alive at the end of an
    iteration stays flagged not alive for as long as no food event selects
    it. *)
Theorem dead_stays_dead_while_unfed {Aux : Type} (C : Food.Collaborators Aux)
    (cfg : Food.Config) (rng : Food.Generators) (st0 st : Food.State Aux) (K i : nat) :
  shape_preserving C ->
  0 <= Food.noise cfg ->
  shaped cfg st0 ->
  Food.step C cfg rng st0 = Some st ->
  (i < Food.numberOfParticles cfg)%nat ->
  nth i (Food.alive st) false = false ->
  exists l,
    states C cfg rng K st = Some l /\ length l = K /\
    Food.run C cfg rng K st = Some (last l st) /\
    ((forall st', In st' l -> unfed i st') ->
     forall st', In st' l -> nth i (Food.alive st') false = false).
Proof.
  intros Hshape Hnoise Hst0 Hstep Hi Hdead.
  destruct (step_shaped C cfg rng Hshape Hnoise st0 Hst0)
    as [st' [Hstep' [Hst [_ [_ [Hlen [_ [Halive _]]]]]]]].
  rewrite Hstep in Hstep'. injection Hstep' as <-.
  destruct (states_total C cfg rng Hshape Hnoise K st Hst) as [l [Hl HK]].
  exists l. split; [exact Hl|]. split; [exact HK|].
  split; [apply run_states; exact Hl|].
  apply (starved_unfed_stays C cfg rng Hshape Hnoise K i Hi st l Hst Hl).
  rewrite (alive_nth st i Halive) in Hdead by lia.
  apply Qle_bool_iff. destruct (Qle_bool (nth i (Food.hunger st) 0) 0); [reflexivity|discriminate].
Qed.

Lemma dead_stays_dead_while_unfed_witness :
  exists st l,
    Food.step Scenes.still Scenes.fragile Scenes.late
      (Food.initial Scenes.fragile tt Scenes.resting_positions []) = Some st /\
    nth 0 (Food.alive st) false = false /\
    states Scenes.still Scenes.fragile Scenes.late 3 st = Some l /\
    length l = 3%nat.
Proof.
  assert (E : exists st,
             Food.step Scenes.still Scenes.fragile Scenes.late
               (Food.initial Scenes.fragile tt Scenes.resting_positions []) = Some st /\
             nth 0 (Food.alive st) false = false).
  { eexists. split; [vm_compute; reflexivity | reflexivity]. }
  destruct E as [st [E Hdead]].
  destruct (dead_stays_dead_while_unfed Scenes.still Scenes.fragile Scenes.late
              (Food.initial Scenes.fragile tt Scenes.resting_positions []) st 3 0
              still_shape_preserving
              ltac:(unfold Qle; simpl; lia)
              (proj1 (initial_shaped Scenes.fragile tt Scenes.resting_positions []
                        eq_refl (Forall_nil _)))
              E ltac:(simpl; lia) Hdead)
    as [l [Hl [HK _]]].
  exists st, l. auto.
Defined.

(** The run of two resting agents in which food appears at timestep 11:
    agent 0, whose hunger level is a tenth below 0 after timestep 10, is
    flagged not alive at timestep 10 and alive again at timestep 11, with a
    hunger level of eight tenths. *)
Lemma dead_agent_revives :
  exists st,
    Food.simulate Scenes.still Scenes.resting Scenes.later tt
                  Scenes.resting_positions [] 12 = Some st /\
    nth 0 (nth 10 (Food.hungerLevelHistory st) []) 0 == - (1 # 10) /\
    nth 0 (nth 10 (Food.alivenessHistory st) []) true = false /\
    nth 0 (nth 11 (Food.hungerLevelHistory st) []) 0 == 8 # 10 /\
    nth 0 (nth 11 (Food.alivenessHistory st) []) false = true.
Proof.
  eexists. split; [vm_compute; reflexivity|]. repeat split; reflexivity.
Qed.

(** ** Hunger levels *)

(** C5, as the loop behaves: nothing clamps the hunger level.  After [K]
    iterations the level of an agent is at least [maxFood] less [K] tenths
    and at most [maxFood] plus one unit for every time a food event selected
    the agent. *)
Theorem hunger_after_run {Aux : Type} (C : Food.Collaborators Aux)
    (cfg : Food.Config) (rng : Food.Generators) (aux0 : Aux)
    (positions0 : list (Q * Q)) (foodEvents0 : list FoodEvent.t) (K i : nat) :
  shape_preserving C ->
  0 <= Food.noise cfg ->
  length positions0 = Food.numberOfParticles cfg ->
  Forall event_ok foodEvents0 ->
  (i < Food.numberOfParticles cfg)%nat ->
  exists l,
    states C cfg rng K (Food.initial cfg aux0 positions0 foodEvents0) = Some l /\
    Food.run C cfg rng K (Food.initial cfg aux0 positions0 foodEvents0)
      = Some (last l (Food.initial cfg aux0 positions0 foodEvents0)) /\
    Food.maxFood cfg - (1 # 10) * inject_Z (Z.of_nat K)
    <= nth i (Food.hunger (last l (Food.initial cfg aux0 positions0 foodEvents0))) 0 /\
    nth i (Food.hunger (last l (Food.initial cfg aux0 positions0 foodEvents0))) 0
    <= Food.maxFood cfg + inject_Z (Z.of_nat (fed_total l i)).
Proof.
  intros Hshape Hnoise Hpos Hok Hi.
  destruct (initial_shaped cfg aux0 positions0 foodEvents0 Hpos Hok) as [Hst Hh].
  destruct (states_total C cfg rng Hshape Hnoise K _ Hst) as [l [Hl HK]].
  exists l. split; [exact Hl|]. split; [apply run_states; exact Hl|].
  rewrite (hunger_total C cfg rng Hshape Hnoise K i Hi _ l Hst Hl).
  rewrite Hh, nth_full by exact Hi.
  assert (Hfed : 0 <= inject_Z (Z.of_nat (fed_total l i)))
    by (change 0 with (inject_Z 0); rewrite <- Zle_Qle; lia).
  assert (HK0 : 0 <= inject_Z (Z.of_nat K))
    by (change 0 with (inject_Z 0); rewrite <- Zle_Qle; lia).
  split; lra.
Qed.

Lemma hunger_after_run_witness :
  exists l,
    states Scenes.still Scenes.resting Scenes.early 3
           (Food.initial Scenes.resting tt Scenes.resting_positions []) = Some l /\
    Food.maxFood Scenes.resting - (1 # 10) * inject_Z (Z.of_nat 3)
    <= nth 0 (Food.hunger (last l (Food.initial Scenes.resting tt Scenes.resting_positions []))) 0 /\
    nth 0 (Food.hunger (last l (Food.initial Scenes.resting tt Scenes.resting_positions []))) 0
    <= Food.maxFood Scenes.resting + inject_Z (Z.of_nat (fed_total l 0)).
Proof.
  destruct (hunger_after_run Scenes.still Scenes.resting Scenes.early tt
              Scenes.resting_positions [] 3 0 still_shape_preserving
              ltac:(unfold Qle; simpl; lia) eq_refl
              (Forall_nil _) ltac:(simpl; lia))
    as [l [Hl [_ Hh]]].
  exists l. split; assumption.
Defined.

(** The run of two resting agents in which food appears at timestep 0:
    agent 0 is above [maxFood] after timestep 0, agent 1 is below 0 after
    timestep 10. *)
Lemma hunger_leaves_bounds :
  exists st,
    Food.simulate Scenes.still Scenes.resting Scenes.early tt
                  Scenes.resting_positions [] 11 = Some st /\
    Food.maxFood Scenes.resting < nth 0 (nth 0 (Food.hungerLevelHistory st) []) 0 /\
    nth 1 (nth 10 (Food.hungerLevelHistory st) []) 0 < 0.
Proof.
  eexists. split; [vm_compute; reflexivity|]. split; reflexivity.
Qed.

(** C6: over [K] iterations in which no food event selects the agent its
    hunger level drops by [K] tenths, and at the end of every iteration the
    agent is flagged alive exactly when its hunger level is still positive,
    so the flag clears at the first iteration that ends with a level of 0 or
    less. *)
Theorem unfed_hunger_decay {Aux : Type} (C : Food.Collaborators Aux)
    (cfg : Food.Config) (rng : Food.Generators) (st : Food.State Aux) (K i : nat) :
  shape_preserving C ->
  0 <= Food.noise cfg ->
  shaped cfg st ->
  (i < Food.numberOfParticles cfg)%nat ->
  exists l,
    states C cfg rng K st = Some l /\ length l = K /\
    Food.run C cfg rng K st = Some (last l st) /\
    ((forall st', In st' l -> unfed i st') ->
     nth i (Food.hunger (last l st)) 0
     == nth i (Food.hunger st) 0 - (1 # 10) * inject_Z (Z.of_nat K)) /\
    (forall st', In st' l ->
       (nth i (Food.alive st') false = true <-> 0 < nth i (Food.hunger st') 0)).
Proof.
  intros Hshape Hnoise Hst Hi.
  destruct (states_total C cfg rng Hshape Hnoise K st Hst) as [l [Hl HK]].
  exists l. split; [exact Hl|]. split; [exact HK|].
  split; [apply run_states; exact Hl|]. split.
  - intro Hunfed.
    rewrite (hunger_total C cfg rng Hshape Hnoise K i Hi st l Hst Hl).
    rewrite (fed_total_unfed l i Hunfed). change (inject_Z (Z.of_nat 0)) with 0. ring.
  - apply (alive_iff_hungry C cfg rng Hshape Hnoise K i Hi st l Hst Hl).
Qed.

Lemma unfed_hunger_decay_witness :
  exists l,
    states Scenes.still Scenes.resting Scenes.late 5
           (Food.initial Scenes.resting tt Scenes.resting_positions []) = Some l /\
    length l = 5%nat.
Proof.
  destruct (unfed_hunger_decay Scenes.still Scenes.resting Scenes.late
              (Food.initial Scenes.resting tt Scenes.resting_positions []) 5 1
              still_shape_preserving
              ltac:(unfold Qle; simpl; lia)
              (proj1 (initial_shaped Scenes.resting tt Scenes.resting_positions []
                        eq_refl (Forall_nil _)))
              ltac:(simpl; lia))
    as [l [Hl [HK _]]].
  exists l. split; assumption.
Defined.

Lemma handleFoodEvents_speed_witness :
  exists events' s' masks speeds',
    Food.handleFoodEvents Scenes.roaming [Scenes.source 2] (Scenes.arrays 4) 0
      Scenes.near_positions 0%nat 1%nat
    = Some (events', s', (speeds', 1%nat, masks)).
Proof.
  destruct (handleFoodEvents_speed Scenes.roaming 0 Scenes.near_positions 0%nat 1%nat
              [Scenes.source 2] (Scenes.arrays 4) (full 4 1) (full 4 50))
    as [events' [s' [masks [hl' [speeds' [_ [Hh _]]]]]]];
    try reflexivity; try discriminate.
  - constructor; [|constructor]. unfold event_ok. simpl. discriminate.
  - exists events', s', masks, speeds'. exact Hh.
Defined.

(** ** The random sources *)

Lemma updateFoodEvents_agree (cfg : Food.Config) (rng1 rng2 : nat -> Q) (c : nat) (t : Z)
    (events : list FoodEvent.t) :
  (forall j, (c <= j < c + 3)%nat -> rng1 j = rng2 j) ->
  Food.updateFoodEvents cfg rng1 c t events = Food.updateFoodEvents cfg rng2 c t events.
Proof.
  intro H. unfold Food.updateFoodEvents.
  rewrite (H c), (H (c + 1)%nat), (H (c + 2)%nat) by lia. reflexivity.
Qed.

Lemma updateFoodEvents_cursor (cfg : Food.Config) (rng : nat -> Q) (c c1 : nat) (t : Z)
    (events events1 : list FoodEvent.t) :
  Food.updateFoodEvents cfg rng c t events = Some (c1, events1) ->
  (c <= c1 <= c + 3)%nat.
Proof.
  unfold Food.updateFoodEvents.
  destruct (Food.foodAppearanceProbability cfg) as [p|].
  - destruct (Qeq_bool p 0); [intro H; injection H as <- _; lia|].
    destruct (negb (Qle_bool p (rng c))); simpl; intro H; injection H as <- _; lia.
  - intro H; injection H as <- _; lia.
Qed.

Lemma generateNoise_agree (cfg : Food.Config) (normal1 normal2 : nat -> Q) (c : nat) :
  (forall j, (c <= j < c + 2 * Food.numberOfParticles cfg)%nat -> normal1 j = normal2 j) ->
  Food.generateNoise cfg normal1 c = Food.generateNoise cfg normal2 c.
Proof.
  intro H. unfold Food.generateNoise.
  destruct (Qle_bool 0 (Food.noise cfg)); [|reflexivity].
  f_equal. apply map_ext_in. intros i Hi. apply in_seq in Hi.
  rewrite (H (c + 2 * i)%nat), (H (c + 2 * i + 1)%nat) by lia. reflexivity.
Qed.

Section Draws.

Context {Aux : Type}.
Variable C : Food.Collaborators Aux.
Variable cfg : Food.Config.

Lemma step_agree (rng1 rng2 : Food.Generators) (st : Food.State Aux) :
  agree_from cfg rng1 rng2 (Food.cursor st) (Food.npCursor st) 1 ->
  Food.step C cfg rng1 st = Food.step C cfg rng2 st.
Proof.
  intros [Hpy Hnp]. unfold Food.step.
  rewrite (updateFoodEvents_agree cfg (Food.python rng1) (Food.python rng2))
    by (intros j Hj; apply Hpy; lia).
  rewrite (generateNoise_agree cfg (Food.numpy rng1) (Food.numpy rng2))
    by (intros j Hj; apply Hnp; lia).
  reflexivity.
Qed.

Lemma step_cursor (rng : Food.Generators) (st st' : Food.State Aux) :
  Food.step C cfg rng st = Some st' ->
  (Food.cursor st <= Food.cursor st' <= Food.cursor st + 3)%nat /\
  Food.npCursor st' = (Food.npCursor st + 2 * Food.numberOfParticles cfg)%nat.
Proof.
  unfold Food.step.
  destruct (Food.updateFoodEvents cfg (Food.python rng) (Food.cursor st)
              (Z.of_nat (Food.t st)) (Food.foodEvents st))
    as [[c1 events1]|] eqn:E; [|discriminate].
  apply updateFoodEvents_cursor in E. cbn [bind].
  destruct (Food.handleEvents C _ _ _ _ _) as [aux1 speedsEv].
  destruct (alloc _ _) as [s1 speedsObj].
  destruct (Food.handleFoodEvents _ _ _ _ _ _ _) as [[[events2 s2] [[speedsF hl2] affected]]|];
    [|discriminate].
  cbn [bind].
  destruct (Food.generateNoise _ _ _) as [nz|]; [|discriminate]. cbn [bind].
  destruct (Food.decideAndOrient C _ _ _ _ _) as [[aux2 orientations] speedsSw].
  destruct (Food.move _ _ _ _) as [positions'|]; [|discriminate]. cbn [bind].
  destruct (deref s2 hl2) as [hl|]; [|discriminate]. cbn [bind].
  destruct (deref s2 (Food.hungerLevels st)) as [prev|]; [|discriminate]. cbn [bind].
  destruct (Food.broadcast2 hl prev) as [same|]; [|discriminate]. cbn [bind].
  destruct (Nat.eqb _ _); [|discriminate].
  destruct (alloc _ _) as [s3 hl3].
  intro H. injection H as <-. simpl. split; [exact E | reflexivity].
Qed.

Lemma run_agree (rng1 rng2 : Food.Generators) (K : nat) :
  forall st,
    agree_from cfg rng1 rng2 (Food.cursor st) (Food.npCursor st) K ->
    Food.run C cfg rng1 K st = Food.run C cfg rng2 K st.
Proof.
  induction K as [|K IH]; intros st [Hpy Hnp]; [reflexivity|].
  simpl. rewrite <- (step_agree rng1 rng2 st)
    by (split; intros j Hj; [apply Hpy | apply Hnp]; nia).
  destruct (Food.step C cfg rng1 st) as [st'|] eqn:E; [|reflexivity]. cbn [bind].
  apply step_cursor in E. destruct E as [Ec En]. apply IH.
  split; intros j Hj; [apply Hpy | apply Hnp]; nia.
Qed.

End Draws.

(** C10, as the loop is written: food spawning reads the generator of
    Python's [random] module and the noise reads the generator of
    [np.random].  Two runs from one initial state and one configuration whose
    Python draws agree on the first [3 * numIntervals] values and whose NumPy
    draws agree on the first [2 * n * numIntervals] values end in the same
    state, histories included. *)
Theorem runs_agree_on_both_sources {Aux : Type} (C : Food.Collaborators Aux)
    (cfg : Food.Config) (rng1 rng2 : Food.Generators) (aux0 : Aux)
    (positions0 : list (Q * Q)) (foodEvents0 : list FoodEvent.t) (numIntervals : nat) :
  (forall j, (j < 3 * numIntervals)%nat -> Food.python rng1 j = Food.python rng2 j) ->
  (forall j, (j < 2 * Food.numberOfParticles cfg * numIntervals)%nat ->
     Food.numpy rng1 j = Food.numpy rng2 j) ->
  Food.simulate C cfg rng1 aux0 positions0 foodEvents0 numIntervals
  = Food.simulate C cfg rng2 aux0 positions0 foodEvents0 numIntervals.
Proof.
  intros Hpy Hnp. unfold Food.simulate. destruct numIntervals as [|k]; [reflexivity|].
  apply run_agree. unfold Food.initial. simpl.
  split; intros j Hj; [apply Hpy | apply Hnp]; lia.
Qed.

Lemma runs_agree_on_both_sources_witness :
  Food.simulate Scenes.still Scenes.resting Scenes.late tt Scenes.resting_positions [] 3
  = Food.simulate Scenes.still Scenes.resting
      (Food.mkGenerators (fun k => if Nat.ltb k 9 then 9 # 10 else 0)
                         (fun k => if Nat.ltb k 12 then Scenes.normal_draws k else 0))
      tt Scenes.resting_positions [] 3.
Proof.
  apply (runs_agree_on_both_sources Scenes.still Scenes.resting Scenes.late
           (Food.mkGenerators (fun k => if Nat.ltb k 9 then 9 # 10 else 0)
                              (fun k => if Nat.ltb k 12 then Scenes.normal_draws k else 0))
           tt Scenes.resting_positions [] 3).
  - intros j Hj. do 9 (destruct j as [|j]; [reflexivity|]). simpl in Hj. lia.
  - intros j Hj. do 12 (destruct j as [|j]; [reflexivity|]). simpl in Hj. lia.
Defined.

(** Two runs that share the initial state, the configuration and the draws
    of NumPy's generator and differ in the draws of Python's generator:
    their hunger histories differ. *)
Lemma runs_differ_on_python_draws :
  Food.numpy Scenes.early = Food.numpy Scenes.late /\
  option_map Food.hungerLevelHistory
    (Food.simulate Scenes.still Scenes.resting Scenes.early tt
                   Scenes.resting_positions [] 1)
  <> option_map Food.hungerLevelHistory
    (Food.simulate Scenes.still Scenes.resting Scenes.late tt
                   Scenes.resting_positions [] 1).
Proof.
  split; [reflexivity|]. vm_compute. intro H. discriminate H.
Qed.

(** ** The vision service *)

Section VisionFacts.

Import Reals Lra ServiceVision.
Local Open Scope R_scope.

Lemma Int_part_small (x : R) : 0 <= x < 1 -> Int_part x = 0%Z.
Proof.
  intro H. symmetry. apply Int_part_spec. simpl. lra.
Qed.

Lemma py_mod_zero (m : R) : py_mod 0 m = 0.
Proof.
  unfold py_mod. replace (0 / m) with 0 by (unfold Rdiv; ring).
  rewrite Int_part_small by lra. simpl. ring.
Qed.

Lemma normaliseAngles_inside (a : R) : 0 <= a <= 2 * PI -> normaliseAngles a = a.
Proof.
  intro H. unfold normaliseAngles.
  destruct (Rlt_dec a 0); [lra|]. destruct (Rgt_dec a (2 * PI)); [lra | reflexivity].
Qed.

Lemma normaliseAngles_negative (a : R) :
  - (2 * PI) <= a < 0 -> normaliseAngles a = 2 * PI + a.
Proof.
  intro H. unfold normaliseAngles.
  destruct (Rlt_dec a 0); [|lra]. rewrite Rabs_left by lra.
  destruct (Rgt_dec (2 * PI - - a) (2 * PI)); [lra | ring].
Qed.

Lemma vision_bounds_east :
  determineMinMaxAngleOfVision 0 (PI / 2) = (2 * PI - PI / 4, PI / 4).
Proof.
  pose proof PI_RGT_0 as Hpi. unfold determineMinMaxAngleOfVision.
  rewrite (normaliseAngles_inside 0) by lra.
  rewrite normaliseAngles_negative by lra.
  rewrite normaliseAngles_inside by lra.
  f_equal; lra.
Qed.

Lemma norm_west : norm (4 - 5, 5 - 5) = 1.
Proof.
  unfold norm. simpl.
  replace ((4 - 5) * (4 - 5) + (5 - 5) * (5 - 5)) with 1 by ring. apply sqrt_1.
Qed.

(** C8 at a concrete pair: agent 0 at (5,5) heads east with a quarter-turn
    field of view, agent 1 at (4,5) is straight behind it.  The test of
    [isInFieldOfVision] accepts agent 1 although its bearing is not within
    the field of view; the test of [get_visible_agents] rejects it. *)
Theorem isInFieldOfVision_accepts_agent_behind :
  isInFieldOfVision [(5, 5); (4, 5)]
    [fst (determineMinMaxAngleOfVision 0 (PI / 2));
     fst (determineMinMaxAngleOfVision 0 (PI / 2))]
    [snd (determineMinMaxAngleOfVision 0 (PI / 2));
     snd (determineMinMaxAngleOfVision 0 (PI / 2))] 0 1 /\
  ~ bearing_within_fov (5, 5) (4, 5) 0 (PI / 2) /\
  ~ in_fov [(5, 5); (4, 5)] [0; 0] (PI / 2) 10 0 1.
Proof.
  pose proof PI_RGT_0 as Hpi. split; [|split].
  - rewrite vision_bounds_east. unfold isInFieldOfVision. simpl.
    replace (5 - 5) with 0 by ring. rewrite atan_0, py_mod_zero.
    right. lra.
  - intros [delta [[Hlo Hhi] [Hx _]]]. simpl in Hx.
    assert (Hcos : 0 < cos (0 + delta)) by (apply cos_gt_0; lra).
    pose proof (sqrt_pos ((4 - 5) * (4 - 5) + (5 - 5) * (5 - 5))) as Hn.
    unfold norm in Hx. simpl in Hx.
    assert (0 <= sqrt ((4 - 5) * (4 - 5) + (5 - 5) * (5 - 5)) * cos (0 + delta))
      by (apply Rmult_le_pos; lra).
    lra.
  - unfold in_fov. simpl. rewrite norm_west. intros [Hangle _].
    rewrite Rmax_left in Hangle by lra.
    rewrite cos_0, sin_0 in Hangle.
    replace ((4 - 5) / 1 * 1 + (5 - 5) / 1 * 0) with (- (1)) in Hangle by field.
    unfold clip in Hangle. rewrite Rmax_left in Hangle by lra.
    rewrite Rmin_left in Hangle by lra.
    rewrite acos_opp, acos_1 in Hangle. lra.
Qed.

(** C9, as [get_visible_agents] is written: the distance it holds against
    [view_distance] is the Euclidean norm of the plain coordinate
    difference; with a field of view of the full circle this test alone
    decides the mask. *)
Theorem in_fov_uses_plain_distance (positions : list (R * R)) (orientations : list R)
    (fov view_distance : R) (i j : nat) :
  (in_fov positions orientations fov view_distance i j ->
     0 < norm (fst (nth j positions (0, 0)) - fst (nth i positions (0, 0)),
               snd (nth j positions (0, 0)) - snd (nth i positions (0, 0)))
       <= view_distance) /\
  (PI <= fov / 2 ->
     (in_fov positions orientations fov view_distance i j <->
      0 < norm (fst (nth j positions (0, 0)) - fst (nth i positions (0, 0)),
                snd (nth j positions (0, 0)) - snd (nth i positions (0, 0)))
        <= view_distance)).
Proof.
  unfold in_fov. cbv zeta. split.
  - intros [_ [H1 H2]]. split; [apply Rgt_lt; exact H1 | exact H2].
  - intro Hfov. split.
    + intros [_ [H1 H2]]. split; [apply Rgt_lt; exact H1 | exact H2].
    + intros [H1 H2]. split; [|split; [apply Rlt_gt; exact H1 | exact H2]].
      match goal with |- acos ?x <= _ => pose proof (acos_bound x) as Hb end. lra.
Qed.

Lemma in_fov_uses_plain_distance_witness :
  in_fov [(1, 1); (2, 1)] [0; 0] (2 * PI) 3 0 1 <->
  0 < norm (2 - 1, 1 - 1) <= 3.
Proof.
  apply (proj2 (in_fov_uses_plain_distance [(1, 1); (2, 1)] [0; 0] (2 * PI) 3 0 1)).
  lra.
Defined.

(** Two agents next to opposite edges of a 10 x 10 domain, one unit apart
    across the boundary, with a view distance of 2: within range by the
    minimum-image distance, out of the mask of [get_visible_agents]. *)
Lemma visibility_ignores_wraparound :
  min_image_sqdist (10, 10) (1 / 2, 5) (19 / 2, 5) <= 2 * 2 /\
  ~ in_fov [(1 / 2, 5); (19 / 2, 5)] [0; 0] (2 * PI) 2 0 1.
Proof.
  split.
  - unfold min_image_sqdist, min_image, round_nearest. simpl.
    replace (Int_part ((19 / 2 - 1 / 2) / 10 + 1 / 2)) with 1%Z
      by (apply Int_part_spec; simpl; lra).
    replace (Int_part ((5 - 5) / 10 + 1 / 2)) with 0%Z
      by (apply Int_part_spec; simpl; lra).
    simpl. lra.
  - unfold in_fov. simpl. intros [_ [_ H]]. unfold norm in H. simpl in H.
    replace ((19 / 2 - 1 / 2) * (19 / 2 - 1 / 2) + (5 - 5) * (5 - 5)) with (9 * 9) in H
      by field.
    rewrite sqrt_square in H by lra. lra.
Qed.

End VisionFacts.

(** * Further properties of the food events *)

Lemma selectAffected_inv (ev ev' : FoodEvent.t) (candidates affected : list bool)
    (rij2 : list Q) :
  FoodEvent.selectAffected ev candidates rij2 = Some (ev', affected) ->
  let len := Z.of_nat (length candidates) in
  let k := if (FoodEvent.amount ev <? len)%Z then FoodEvent.amount ev else len in
  ev' = FoodEvent.set_amount ev (FoodEvent.amount ev - k) /\
  length affected = length candidates /\
  forall i, (i < length candidates)%nat ->
    nth i affected false
    = nth i candidates false && existsb (Nat.eqb i) (slice_to k (argsort rij2)).
Proof.
  intros H len k. unfold FoodEvent.selectAffected, FoodEvent.selectAffected_by in H.
  fold len in H. fold k in H.
  unfold mask_of_indices in H.
  destruct (forallb _ _); [|discriminate]. cbn [bind] in H.
  unfold mask_and in H. rewrite length_map, length_seq, Nat.eqb_refl in H.
  cbn [bind] in H. injection H as <- <-. split; [reflexivity|]. split.
  - rewrite map2_length; [reflexivity | rewrite length_map, length_seq; reflexivity].
  - intros i Hi.
    rewrite (nth_map2 andb _ _ i false false false);
      [| rewrite length_map, length_seq; reflexivity | exact Hi].
    rewrite nth_map_seq by exact Hi. reflexivity.
Qed.

Lemma executeEvent_inv (ev ev' : FoodEvent.t) (s s' : Store) (n : nat)
    (positions : list (Q * Q)) (speeds hungerLevels a b : ndarray) (affected : list bool) :
  FoodEvent.executeEvent ev s n positions speeds hungerLevels
    = Some (ev', s', (a, b, affected)) ->
  a = speeds /\ b = hungerLevels /\
  exists rows origin,
    FoodEvent.assign_rows n positions = Some rows /\
    FoodEvent.getOriginPoint ev = Some origin /\
    FoodEvent.selectAffected ev
      (withinRadius (FoodEvent.radius ev) (distancesTo (FoodEvent.domainSize ev) origin rows))
      (distancesTo (FoodEvent.domainSize ev) origin rows) = Some (ev', affected).
Proof.
  unfold FoodEvent.executeEvent, FoodEvent.executeEvent_by. intro H.
  change (FoodEvent.selectAffected_by argsort) with FoodEvent.selectAffected in H.
  destruct (FoodEvent.assign_rows n positions) as [rows|]; [|discriminate]. cbn [bind] in H.
  destruct (FoodEvent.getOriginPoint ev) as [origin|]; [|discriminate]. cbn [bind] in H.
  rewrite relevantDistances_origin in H.
  fold (withinRadius (FoodEvent.radius ev)
          (distancesTo (FoodEvent.domainSize ev) origin rows)) in H.
  destruct (FoodEvent.selectAffected ev _ _) as [[ev1 aff]|] eqn:Hsel; [|discriminate].
  cbn [bind] in H.
  destruct (deref s speeds) as [sp|]; [|discriminate]. cbn [bind] in H.
  destruct (mask_assign aff 0 sp) as [sp'|]; [|discriminate]. cbn [bind] in H.
  destruct (deref _ hungerLevels) as [hl|]; [|discriminate]. cbn [bind] in H.
  destruct (mask_add aff 1 hl) as [hl'|]; [|discriminate]. cbn [bind] in H.
  injection H as <- _ <- <- <-. split; [reflexivity|]. split; [reflexivity|].
  exists rows, origin. auto.
Qed.

Lemma check_idle (ev : FoodEvent.t) (s : Store) (n : nat) (t : Z)
    (positions : list (Q * Q)) (speeds hungerLevels : ndarray) :
  ~ (t <= FoodEvent.startTimestep ev /\ 0 < FoodEvent.amount ev)%Z ->
  FoodEvent.check ev s n t positions speeds hungerLevels
  = Some (idle t ev, s, (speeds, hungerLevels, full n false)).
Proof.
  intro H. unfold FoodEvent.check, FoodEvent.check_by, idle.
  destruct ((t <=? FoodEvent.startTimestep ev)%Z && (0 <? FoodEvent.amount ev)%Z) eqn:E.
  - exfalso. apply H. apply andb_true_iff in E. destruct E as [E1 E2].
    split; [apply Z.leb_le; exact E1 | apply Z.ltb_lt; exact E2].
  - destruct (FoodEvent.duration ev =? -1)%Z; reflexivity.
Qed.

Lemma idle_same_source (t : Z) (ev : FoodEvent.t) :
  same_source ev (idle t ev) /\ FoodEvent.amount (idle t ev) = FoodEvent.amount ev.
Proof.
  unfold idle, same_source. destruct (FoodEvent.duration ev =? -1)%Z; simpl; repeat split.
Qed.

(** What one call of [check] can make of an event. *)
Lemma check_event_inv (ev ev' : FoodEvent.t) (s s' : Store) (n : nat) (t : Z)
    (positions : list (Q * Q)) (speeds hungerLevels a b : ndarray) (affected : list bool) :
  FoodEvent.check ev s n t positions speeds hungerLevels = Some (ev', s', (a, b, affected)) ->
  a = speeds /\ b = hungerLevels /\ same_source ev ev' /\
  ((t <= FoodEvent.startTimestep ev /\ 0 < FoodEvent.amount ev)%Z /\
   FoodEvent.amount ev'
     = (FoodEvent.amount ev - Z.min (FoodEvent.amount ev) (Z.of_nat (length affected)))%Z
   \/
   ~ (t <= FoodEvent.startTimestep ev /\ 0 < FoodEvent.amount ev)%Z /\
   ev' = idle t ev /\ s' = s /\ affected = full n false).
Proof.
  intro H.
  assert (Hdec : (t <= FoodEvent.startTimestep ev /\ 0 < FoodEvent.amount ev)%Z \/
                 ~ (t <= FoodEvent.startTimestep ev /\ 0 < FoodEvent.amount ev)%Z) by lia.
  destruct Hdec as [Hfire|Hidle].
  - rewrite check_firing in H by exact Hfire.
    destruct (executeEvent_inv _ _ _ _ _ _ _ _ _ _ _ H)
      as [-> [-> [rows [origin [_ [_ Hsel]]]]]].
    destruct (selectAffected_inv _ _ _ _ _ Hsel) as [-> [Hlen _]].
    split; [reflexivity|]. split; [reflexivity|]. split.
    + unfold same_source. simpl. repeat split.
    + left. split; [exact Hfire|]. rewrite <- Hlen. simpl.
      match goal with |- context [(?x <? ?y)%Z] => destruct (Z.ltb_spec x y) end; lia.
  - rewrite check_idle in H by exact Hidle. injection H as <- <- <- <- <-.
    split; [reflexivity|]. split; [reflexivity|].
    split; [apply idle_same_source|]. right. auto.
Qed.

Lemma check_amount_bounds (ev ev' : FoodEvent.t) (s s' : Store) (n : nat) (t : Z)
    (positions : list (Q * Q)) (speeds hungerLevels a b : ndarray) (affected : list bool) :
  FoodEvent.check ev s n t positions speeds hungerLevels = Some (ev', s', (a, b, affected)) ->
  ((0 <= FoodEvent.amount ev)%Z ->
     (0 <= FoodEvent.amount ev' <= FoodEvent.amount ev)%Z) /\
  ((FoodEvent.amount ev <= 0)%Z -> FoodEvent.amount ev' = FoodEvent.amount ev).
Proof.
  intro H. destruct (check_event_inv _ _ _ _ _ _ _ _ _ _ _ _ H)
    as [_ [_ [_ [[Hfire Ham]|[Hidle [-> _]]]]]].
  - split; intro; lia.
  - destruct (idle_same_source t ev) as [_ Ha]. rewrite Ha. split; intro; lia.
Qed.

(** X1: a call of [check] never raises the remaining amount and never takes
    a non-negative amount below 0; an amount that is not positive stays as
    it is. *)
Theorem check_budget_bounds (ev ev' : FoodEvent.t) (s s' : Store) (n : nat) (t : Z)
    (positions : list (Q * Q)) (speeds hungerLevels a b : ndarray) (affected : list bool) :
  FoodEvent.check ev s n t positions speeds hungerLevels = Some (ev', s', (a, b, affected)) ->
  ((0 <= FoodEvent.amount ev)%Z ->
     (0 <= FoodEvent.amount ev' <= FoodEvent.amount ev)%Z) /\
  ((FoodEvent.amount ev <= 0)%Z -> FoodEvent.amount ev' = FoodEvent.amount ev).
Proof.
  apply check_amount_bounds.
Qed.

Lemma check_budget_bounds_witness :
  exists ev' s' affected,
    FoodEvent.check (Scenes.source 2) (Scenes.arrays 4) 4 0 Scenes.near_positions 0%nat 1%nat
      = Some (ev', s', (0%nat, 1%nat, affected)) /\
    (0 <= FoodEvent.amount ev' <= 2)%Z.
Proof.
  eexists; eexists; eexists. split; [vm_compute; reflexivity|].
  apply (proj1 (check_budget_bounds (Scenes.source 2) _ (Scenes.arrays 4) _ 4 0
                  Scenes.near_positions 0%nat 1%nat 0%nat 1%nat _ eq_refl)).
  simpl. lia.
Defined.

Lemma count_nonzero_bound (mask : list bool) (indices : list nat) :
  (forall i, nth i mask false = true -> In i indices) ->
  (count_nonzero mask <= length indices)%nat.
Proof.
  intro H. rewrite count_nonzero_indices.
  apply NoDup_incl_length; [apply NoDup_filter, seq_NoDup|].
  intros i Hi. apply filter_In in Hi. apply H, Hi.
Qed.

Lemma slice_to_length {A : Type} (k : Z) (l : list A) :
  (0 <= k)%Z -> (length (slice_to k l) <= Z.to_nat k)%nat.
Proof.
  intro H. unfold slice_to. destruct (Z.leb_spec 0 k); [|lia].
  rewrite length_firstn. lia.
Qed.

Lemma distancesTo_nth (domainSize origin : Q * Q) (positions : list (Q * Q)) (i : nat) :
  (i < length positions)%nat ->
  nth i (distancesTo domainSize origin positions) 0
  = ServiceVicsekHelper.sqdist domainSize origin (nth i positions (0, 0)).
Proof.
  intro H. unfold distancesTo.
  rewrite (nth_indep _ 0 (ServiceVicsekHelper.sqdist domainSize origin (0, 0)))
    by (rewrite length_map; exact H).
  apply (map_nth (fun p => ServiceVicsekHelper.sqdist domainSize origin p)).
Qed.

(** X2: whatever a call of [check] returns, the agents it selected number at
    most what the call took off the budget, and each of them is within the
    event radius of the origin. *)
Theorem check_feeds_within_budget (ev ev' : FoodEvent.t) (s s' : Store) (n : nat) (t : Z)
    (positions : list (Q * Q)) (speeds hungerLevels a b : ndarray) (affected : list bool) :
  FoodEvent.check ev s n t positions speeds hungerLevels = Some (ev', s', (a, b, affected)) ->
  length positions = n ->
  (Z.of_nat (count_nonzero affected) <= FoodEvent.amount ev - FoodEvent.amount ev')%Z /\
  forall i origin,
    FoodEvent.getOriginPoint ev = Some origin ->
    nth i affected false = true ->
    (i < n)%nat /\
    ServiceVicsekHelper.sqdist (FoodEvent.domainSize ev) origin (nth i positions (0, 0))
    <= FoodEvent.radius ev * FoodEvent.radius ev.
Proof.
  intros H Hpos.
  assert (Hdec : (t <= FoodEvent.startTimestep ev /\ 0 < FoodEvent.amount ev)%Z \/
                 ~ (t <= FoodEvent.startTimestep ev /\ 0 < FoodEvent.amount ev)%Z) by lia.
  destruct Hdec as [Hfire|Hidle].
  - rewrite check_firing in H by exact Hfire.
    destruct (executeEvent_inv _ _ _ _ _ _ _ _ _ _ _ H)
      as [_ [_ [rows [origin [Hrows [Horigin Hsel]]]]]].
    rewrite (assign_rows_same _ _ Hpos) in Hrows. injection Hrows as <-.
    change (FoodEvent.getOriginPoint ev = Some origin) in Horigin. simpl in Hsel.
    destruct (selectAffected_inv _ _ _ _ _ Hsel) as [-> [Hlen Hnth]].
    rewrite withinRadius_length, distancesTo_length in Hlen, Hnth. simpl in Hnth.
    set (k := if (FoodEvent.amount ev <? Z.of_nat (length positions))%Z
              then FoodEvent.amount ev else Z.of_nat (length positions)) in *.
    assert (Hk : (0 <= k)%Z) by (unfold k; destruct (Z.ltb_spec (FoodEvent.amount ev)
                                   (Z.of_nat (length positions))); lia).
    split.
    + simpl. rewrite withinRadius_length, distancesTo_length. fold k.
      assert (Hc : (count_nonzero affected
                    <= length (slice_to k (argsort (distancesTo (FoodEvent.domainSize ev)
                                                      origin positions))))%nat).
      { apply count_nonzero_bound. intros i Hi.
        destruct (Nat.lt_ge_cases i (length positions)) as [Hlt|Hge].
        - rewrite Hnth in Hi by exact Hlt. apply andb_true_iff in Hi.
          apply existsb_eqb_In, Hi.
        - rewrite nth_overflow in Hi by lia. discriminate. }
      pose proof (slice_to_length k (argsort (distancesTo (FoodEvent.domainSize ev)
                                               origin positions)) Hk).
      lia.
    + intros i origin' Ho Hi. rewrite Horigin in Ho. injection Ho as <-.
      destruct (Nat.lt_ge_cases i (length positions)) as [Hlt|Hge].
      * split; [lia|]. rewrite Hnth in Hi by exact Hlt. apply andb_true_iff in Hi.
        destruct Hi as [Hc _].
        rewrite withinRadius_nth in Hc by (rewrite distancesTo_length; exact Hlt).
        rewrite distancesTo_nth in Hc by exact Hlt. apply Qle_bool_iff. exact Hc.
      * rewrite nth_overflow in Hi by lia. discriminate.
  - rewrite check_idle in H by exact Hidle. injection H as <- _ _ _ <-.
    destruct (idle_same_source t ev) as [_ Ha]. rewrite Ha.
    split.
    + unfold count_nonzero, full.
      replace (length (filter (fun b0 : bool => b0) (repeat false n))) with 0%nat; [lia|].
      clear. induction n; simpl; auto.
    + intros i origin _ Hi. rewrite nth_full_false in Hi. discriminate.
Qed.

Lemma check_feeds_within_budget_witness :
  exists ev' s' affected,
    FoodEvent.check (Scenes.source 3) (Scenes.arrays 2) 2 0 Scenes.far_positions 0%nat 1%nat
      = Some (ev', s', (0%nat, 1%nat, affected)) /\
    (Z.of_nat (count_nonzero affected) <= 3 - FoodEvent.amount ev')%Z.
Proof.
  eexists; eexists; eexists. split; [vm_compute; reflexivity|].
  apply (proj1 (check_feeds_within_budget (Scenes.source 3) _ (Scenes.arrays 2) _ 2 0
                  Scenes.far_positions 0%nat 1%nat 0%nat 1%nat _ eq_refl eq_refl)).
Defined.

(** X3: a firing writes the two arrays it is given and nothing else in the
    store; a selected agent gets speed 0 and one more unit of hunger level,
    an agent that is not selected keeps both entries. *)
Theorem executeEvent_touches_selected_only (ev : FoodEvent.t) (s : Store) (n : nat)
    (positions : list (Q * Q)) (speeds hungerLevels : ndarray)
    (sp hl : list Q) (origin : Q * Q) :
  length positions = n ->
  FoodEvent.getOriginPoint ev = Some origin ->
  deref s speeds = Some sp -> length sp = n ->
  deref s hungerLevels = Some hl -> length hl = n ->
  speeds <> hungerLevels ->
  exists ev' s' affected sp' hl',
    FoodEvent.executeEvent ev s n positions speeds hungerLevels
      = Some (ev', s', (speeds, hungerLevels, affected)) /\
    deref s' speeds = Some sp' /\ deref s' hungerLevels = Some hl' /\
    length s' = length s /\
    (forall i, (i < n)%nat ->
       (nth i affected false = true ->
          nth i sp' 0 = 0 /\ nth i hl' 0 = nth i hl 0 + 1) /\
       (nth i affected false = false ->
          nth i sp' 0 = nth i sp 0 /\ nth i hl' 0 = nth i hl 0)) /\
    (forall other, other <> speeds -> other <> hungerLevels ->
       deref s' other = deref s other).
Proof.
  intros Hlen Horigin Hsp Hspn Hhl Hhln Hneq.
  destruct (executeEvent_shaped ev s n positions speeds hungerLevels sp hl origin
              Hlen Horigin Hsp Hspn Hhl Hhln Hneq)
    as [ev' [affected [_ [_ [Hn Hexec]]]]].
  rewrite Hexec. do 5 eexists. split; [reflexivity|].
  split.
  { rewrite deref_update_other by congruence.
    apply (deref_update_same _ _ _ sp). exact Hsp. }
  split.
  { apply (deref_update_same _ _ _ hl).
    rewrite deref_update_other by exact Hneq. exact Hhl. }
  split.
  { clear. generalize (map2 (fun (m : bool) (x : Q) => if m then 0 else x) affected sp).
    generalize (map2 (fun (m : bool) (x : Q) => if m then x + 1 else x) affected hl).
    intros v w.
    assert (Hu : forall (st : Store) (a : ndarray) (u : list Q),
               length (update st a u) = length st).
    { intros st. induction st as [|x st IH]; intros [|a] u; simpl; auto. }
    rewrite !Hu. reflexivity. }
  split.
  - intros i Hi.
    rewrite (nth_map2 _ affected sp i false 0 0) by lia.
    rewrite (nth_map2 _ affected hl i false 0 0) by lia.
    split; intros ->; split; reflexivity.
  - intros other H1 H2. rewrite !deref_update_other by congruence. reflexivity.
Qed.

Lemma executeEvent_touches_selected_only_witness :
  exists ev' s' affected,
    FoodEvent.executeEvent (Scenes.source 2) (Scenes.arrays 4) 4 Scenes.near_positions
      0%nat 1%nat = Some (ev', s', (0%nat, 1%nat, affected)) /\
    length s' = 2%nat.
Proof.
  destruct (executeEvent_touches_selected_only (Scenes.source 2) (Scenes.arrays 4) 4
              Scenes.near_positions 0%nat 1%nat (full 4 1) (full 4 50) (5, 5))
    as [ev' [s' [affected [sp' [hl' [He [_ [_ [Hl _]]]]]]]]];
    try reflexivity; try discriminate.
  exists ev', s', affected. split; assumption.
Defined.

(** * Further properties of the food loop *)

Lemma same_source_refl (ev : FoodEvent.t) : same_source ev ev.
Proof. unfold same_source. repeat split. Qed.

(** What the loop over the events can make of them. *)
Lemma checkEvents_inv (n : nat) (t : Z) (positions : list (Q * Q)) (events : list FoodEvent.t) :
  forall (s s' : Store) (speeds hungerLevels a b : ndarray)
         (events' : list FoodEvent.t) (masks : list (list bool)),
    Food.checkEvents n t positions events s speeds hungerLevels
      = Some (events', s', (a, b, masks)) ->
    a = speeds /\ b = hungerLevels /\ length masks = length events /\
    Forall2 (fun ev ev' =>
               same_source ev ev' /\
               ((0 <= FoodEvent.amount ev)%Z ->
                  (0 <= FoodEvent.amount ev' <= FoodEvent.amount ev)%Z) /\
               ((FoodEvent.amount ev <= 0)%Z ->
                  FoodEvent.amount ev' = FoodEvent.amount ev))
            events events'.
Proof.
  induction events as [|ev rest IH]; intros s s' speeds hungerLevels a b events' masks H.
  - simpl in H. injection H as <- _ <- <- <-. repeat split. constructor.
  - simpl in H.
    destruct (FoodEvent.check ev s n t positions speeds hungerLevels)
      as [[[ev1 s1] [[a1 b1] m1]]|] eqn:Hc; [|discriminate].
    cbn [bind] in H.
    destruct (Food.checkEvents n t positions rest s1 a1 b1)
      as [[[rest1 s2] [[a2 b2] m2]]|] eqn:Hr; [|discriminate].
    cbn [bind] in H. injection H as <- _ <- <- <-.
    destruct (check_event_inv _ _ _ _ _ _ _ _ _ _ _ _ Hc) as [-> [-> [Hsrc _]]].
    destruct (IH _ _ _ _ _ _ _ _ Hr) as [-> [-> [Hlen Hall]]].
    split; [reflexivity|]. split; [reflexivity|]. split; [simpl; lia|].
    constructor; [|exact Hall]. split; [exact Hsrc|].
    apply (check_amount_bounds _ _ _ _ _ _ _ _ _ _ _ _ Hc).
Qed.

Lemma checkEvents_app (n : nat) (t : Z) (positions : list (Q * Q))
    (l1 l2 : list FoodEvent.t) :
  forall (s : Store) (speeds hungerLevels : ndarray),
    Food.checkEvents n t positions (l1 ++ l2) s speeds hungerLevels
    = match Food.checkEvents n t positions l1 s speeds hungerLevels with
      | Some (l1', s1, (sp1, hl1, m1)) =>
          match Food.checkEvents n t positions l2 s1 sp1 hl1 with
          | Some (l2', s2, (sp2, hl2, m2)) => Some (l1' ++ l2', s2, (sp2, hl2, m1 ++ m2))
          | None => None
          end
      | None => None
      end.
Proof.
  induction l1 as [|ev l1 IH]; intros s speeds hungerLevels; simpl.
  - destruct (Food.checkEvents n t positions l2 s speeds hungerLevels)
      as [[[? ?] [[? ?] ?]]|]; reflexivity.
  - destruct (FoodEvent.check ev s n t positions speeds hungerLevels)
      as [[[ev1 s1] [[a1 b1] m1]]|]; cbn [bind]; [|reflexivity].
    rewrite IH.
    destruct (Food.checkEvents n t positions l1 s1 a1 b1)
      as [[[? ?] [[? ?] ?]]|]; cbn [bind]; [|reflexivity].
    destruct (Food.checkEvents n t positions l2 _ _ _)
      as [[[? ?] [[? ?] ?]]|]; reflexivity.
Qed.

(** Events created before the current timestep are only looked at. *)
Lemma checkEvents_past (n : nat) (t : Z) (positions : list (Q * Q))
    (events : list FoodEvent.t) (s : Store) (speeds hungerLevels : ndarray) :
  Forall (fun ev => (FoodEvent.startTimestep ev < t)%Z) events ->
  Food.checkEvents n t positions events s speeds hungerLevels
  = Some (map (idle t) events, s,
          (speeds, hungerLevels, repeat (full n false) (length events))).
Proof.
  induction 1 as [|ev rest Hev _ IH]; simpl; [reflexivity|].
  rewrite check_idle by lia. cbn [bind]. rewrite IH. reflexivity.
Qed.

Lemma selection_count_repeat_false (n k i : nat) :
  selection_count (repeat (full n false) k) i = 0%nat.
Proof.
  apply (selection_count_all_false n). apply Forall_forall.
  intros m Hm. apply repeat_spec in Hm. exact Hm.
Qed.

Lemma selection_count_app (m1 m2 : list (list bool)) (i : nat) :
  selection_count (m1 ++ m2) i = (selection_count m1 i + selection_count m2 i)%nat.
Proof.
  unfold selection_count. rewrite filter_app, length_app. reflexivity.
Qed.

Lemma handleFoodEvents_inv (cfg : Food.Config) (events events' : list FoodEvent.t)
    (s s' : Store) (t : Z) (positions : list (Q * Q)) (speeds hungerLevels hl' : ndarray)
    (speeds' : list Q) (masks : list (list bool)) :
  Food.handleFoodEvents cfg events s t positions speeds hungerLevels
    = Some (events', s', (speeds', hl', masks)) ->
  Food.checkEvents (Food.numberOfParticles cfg) t positions events s speeds hungerLevels
    = Some (events', s', (speeds, hl', masks)).
Proof.
  unfold Food.handleFoodEvents. intro H.
  destruct (Food.checkEvents _ _ _ _ _ _ _) as [[[ev1 s1] [[a1 b1] m1]]|] eqn:Hc;
    [|discriminate].
  cbn [bind] in H.
  destruct (checkEvents_inv _ _ _ _ _ _ _ _ _ _ _ _ Hc) as [-> _].
  match type of H with bind ?x _ = _ => destruct x as [sp2|]; [|discriminate] end.
  cbn [bind] in H.
  destruct (deref s1 b1) as [hl|]; [|discriminate]. cbn [bind] in H.
  destruct (Food.broadcast2 hl sp2) as [pairs|]; [|discriminate]. cbn [bind] in H.
  injection H as <- <- _ <- <-. reflexivity.
Qed.

(** What an iteration is made of. *)
Lemma step_inv {Aux : Type} (C : Food.Collaborators Aux) (cfg : Food.Config)
    (rng : Food.Generators) (st st' : Food.State Aux) :
  Food.step C cfg rng st = Some st' ->
  exists c1 events1 s2 speedsF hl2 orientations,
    Food.updateFoodEvents cfg (Food.python rng) (Food.cursor st) (Z.of_nat (Food.t st))
      (Food.foodEvents st) = Some (c1, events1) /\
    Food.handleFoodEvents cfg events1
      (Food.store st ++ [snd (Food.handleEvents C (Food.aux st) (Z.of_nat (Food.t st))
                                (Food.positions st) (Food.alive st) (Food.speeds st))])
      (Z.of_nat (Food.t st)) (Food.positions st) (length (Food.store st))
      (Food.hungerLevels st)
      = Some (Food.foodEvents st', s2, (speedsF, hl2, Food.overallAffected st')) /\
    Food.move cfg (Food.positions st) orientations (Food.speeds st')
      = Some (Food.positions st') /\
    Food.t st' = S (Food.t st) /\ Food.cursor st' = c1.
Proof.
  unfold Food.step. intro H.
  destruct (Food.updateFoodEvents cfg (Food.python rng) (Food.cursor st)
              (Z.of_nat (Food.t st)) (Food.foodEvents st))
    as [[c1 events1]|] eqn:E; [|discriminate].
  cbn [bind] in H.
  destruct (Food.handleEvents C _ _ _ _ _) as [aux1 speedsEv] eqn:EhE.
  unfold alloc at 1 in H.
  destruct (Food.handleFoodEvents _ _ _ _ _ _ _)
    as [[[events2 s2] [[speedsF hl2] affected]]|] eqn:Eh; [|discriminate].
  cbn [bind] in H.
  destruct (Food.generateNoise _ _ _) as [nz|]; [|discriminate]. cbn [bind] in H.
  destruct (Food.decideAndOrient C _ _ _ _ _) as [[aux2 orientations] speedsSw].
  destruct (Food.move _ _ _ _) as [positions'|] eqn:Em; [|discriminate]. cbn [bind] in H.
  destruct (deref s2 hl2) as [hl|]; [|discriminate]. cbn [bind] in H.
  destruct (deref s2 (Food.hungerLevels st)) as [prev|]; [|discriminate]. cbn [bind] in H.
  destruct (Food.broadcast2 hl prev) as [same|]; [|discriminate]. cbn [bind] in H.
  destruct (Nat.eqb _ _); [|discriminate].
  unfold alloc in H. injection H as <-. simpl.
  exists c1, events1, s2, speedsF, hl2, orientations. repeat split; assumption.
Qed.

(** X4: [handleFoodEvents] returns the events it was given, in their order;
    each is the same source (start, first area, radius, maximal amount), and
    its remaining amount has not grown and has not dropped below 0. *)
Theorem handleFoodEvents_keeps_sources (cfg : Food.Config) (events events' : list FoodEvent.t)
    (s s' : Store) (t : Z) (positions : list (Q * Q)) (speeds hungerLevels hl' : ndarray)
    (speeds' : list Q) (masks : list (list bool)) :
  Food.handleFoodEvents cfg events s t positions speeds hungerLevels
    = Some (events', s', (speeds', hl', masks)) ->
  hl' = hungerLevels /\ length masks = length events /\
  Forall2 (fun ev ev' =>
             same_source ev ev' /\
             ((0 <= FoodEvent.amount ev)%Z ->
                (0 <= FoodEvent.amount ev' <= FoodEvent.amount ev)%Z) /\
             ((FoodEvent.amount ev <= 0)%Z ->
                FoodEvent.amount ev' = FoodEvent.amount ev))
          events events'.
Proof.
  intro H. apply handleFoodEvents_inv in H.
  destruct (checkEvents_inv _ _ _ _ _ _ _ _ _ _ _ _ H) as [_ [-> [Hlen Hall]]].
  split; [reflexivity|]. split; assumption.
Qed.

Lemma handleFoodEvents_keeps_sources_witness :
  exists events' s' speeds' masks,
    Food.handleFoodEvents Scenes.roaming [Scenes.source 2; Scenes.source 0] (Scenes.arrays 4) 0
      Scenes.near_positions 0%nat 1%nat = Some (events', s', (speeds', 1%nat, masks)) /\
    length masks = 2%nat.
Proof.
  eexists; eexists; eexists; eexists. split; [vm_compute; reflexivity|].
  apply (handleFoodEvents_keeps_sources Scenes.roaming [Scenes.source 2; Scenes.source 0]
           _ (Scenes.arrays 4) _ 0 Scenes.near_positions 0%nat 1%nat 1%nat _ _ eq_refl).
Defined.

Lemma updateFoodEvents_inv (cfg : Food.Config) (rng : nat -> Q) (c c1 : nat) (t : Z)
    (events events1 : list FoodEvent.t) :
  Food.updateFoodEvents cfg rng c t events = Some (c1, events1) ->
  (events1 = events /\ (c1 = c \/ c1 = c + 1)%nat) \/
  (c1 = (c + 3)%nat /\
   events1 = events ++
     [FoodEvent.mk t (Food.foodSourceAmount cfg) (Food.foodSourceAmount cfg)
        (Food.domainSize cfg)
        [(rng (c + 1)%nat * fst (Food.domainSize cfg),
          rng (c + 2)%nat * snd (Food.domainSize cfg), Food.radius cfg)]
        (Food.radius cfg) true (-1) None]).
Proof.
  unfold Food.updateFoodEvents.
  destruct (Food.foodAppearanceProbability cfg) as [p|].
  - destruct (Qeq_bool p 0); [intro H; injection H as <- <-; left; auto|].
    destruct (negb (Qle_bool p (rng c))).
    + unfold FoodEvent.init. cbn [bind].
      destruct (Qeq_bool (Food.radius cfg) 0); intro H; injection H as <- <-;
        right; split; reflexivity.
    + intro H; injection H as <- <-; left; auto.
  - intro H; injection H as <- <-; left; auto.
Qed.

(** X5: [updateFoodEvents] raises nothing, keeps the events it finds and
    appends at most one; the appended event starts at the current timestep
    with the configured amount, the model radius and no duration yet, and its
    origin lies in the domain when the two draws are in [0, 1) and the domain
    sizes are positive.  Without an appearance probability nothing is drawn
    and nothing appended. *)
Theorem updateFoodEvents_appends_one_source (cfg : Food.Config) (rng : nat -> Q)
    (c : nat) (t : Z) (events : list FoodEvent.t) :
  exists c1 events1,
    Food.updateFoodEvents cfg rng c t events = Some (c1, events1) /\
    (Food.foodAppearanceProbability cfg = None -> c1 = c /\ events1 = events) /\
    ((events1 = events /\ (c1 = c \/ c1 = c + 1)%nat) \/
     exists ev,
       events1 = events ++ [ev] /\ c1 = (c + 3)%nat /\
       FoodEvent.startTimestep ev = t /\
       FoodEvent.amount ev = Food.foodSourceAmount cfg /\
       FoodEvent.maxAmount ev = Food.foodSourceAmount cfg /\
       FoodEvent.radius ev = Food.radius cfg /\
       FoodEvent.duration ev = (-1)%Z /\
       (0 < fst (Food.domainSize cfg) -> 0 < snd (Food.domainSize cfg) ->
        (0 <= rng (c + 1)%nat /\ rng (c + 1)%nat < 1) ->
        (0 <= rng (c + 2)%nat /\ rng (c + 2)%nat < 1) ->
        exists origin,
          FoodEvent.getOriginPoint ev = Some origin /\
          in_domain (Food.domainSize cfg) origin)).
Proof.
  destruct (Food.updateFoodEvents cfg rng c t events) as [[c1 events1]|] eqn:E.
  - exists c1, events1. split; [reflexivity|]. split.
    + intro Hp. unfold Food.updateFoodEvents in E. rewrite Hp in E.
      injection E as <- <-. auto.
    + destruct (updateFoodEvents_inv _ _ _ _ _ _ _ E) as [Hsame|[-> ->]];
        [left; exact Hsame|].
      right. eexists. split; [reflexivity|]. simpl. repeat split.
      intros Hx Hy [Hx0 Hx1] [Hy0 Hy1]. eexists. split; [reflexivity|].
      unfold in_domain. simpl. repeat split; nra.
  - exfalso. unfold Food.updateFoodEvents in E.
    destruct (Food.foodAppearanceProbability cfg) as [p|]; [|discriminate].
    destruct (Qeq_bool p 0); [discriminate|].
    destruct (negb (Qle_bool p (rng c))); [|discriminate].
    unfold FoodEvent.init in E. cbn [bind] in E. discriminate.
Qed.

Lemma updateFoodEvents_appends_one_source_witness :
  exists c1 ev origin,
    Food.updateFoodEvents Scenes.resting Scenes.early_draws 0 0 [] = Some (c1, [ev]) /\
    FoodEvent.getOriginPoint ev = Some origin /\
    in_domain (25, 25) origin.
Proof.
  destruct (updateFoodEvents_appends_one_source Scenes.resting Scenes.early_draws 0 0 [])
    as [c1 [events1 [E [_ [[He _]|[ev [He [_ [_ [_ [_ [_ [_ Ho]]]]]]]]]]]]].
  - exfalso. subst events1. vm_compute in E. discriminate E.
  - destruct Ho as [origin [Ho Hd]];
      try (unfold Qlt, Qle; simpl; lia); try (split; unfold Qlt, Qle; simpl; lia).
    exists c1, ev, origin. subst events1. auto.
Defined.

(** The events a state holds were all created earlier, so in an iteration
    only the event created in it can fire. *)
Lemma step_past_events {Aux : Type} (C : Food.Collaborators Aux) (cfg : Food.Config)
    (rng : Food.Generators) (st st' : Food.State Aux) :
  past_events st ->
  Food.step C cfg rng st = Some st' ->
  past_events st' /\
  (length (Food.foodEvents st) <= length (Food.foodEvents st')
   <= length (Food.foodEvents st) + 1)%nat /\
  forall i, (selection_count (Food.overallAffected st') i <= 1)%nat.
Proof.
  intros Hpast Hstep.
  destruct (step_inv C cfg rng st st' Hstep)
    as [c1 [events1 [s2 [speedsF [hl2 [orientations [Hupd [Hh [_ [Ht _]]]]]]]]]].
  apply handleFoodEvents_inv in Hh. unfold past_events in *. rewrite Ht.
  assert (Hidle : forall l, Forall (fun ev => (FoodEvent.startTimestep ev
                                               < Z.of_nat (Food.t st))%Z) l ->
            Forall (fun ev => (FoodEvent.startTimestep ev < Z.of_nat (S (Food.t st)))%Z)
                   (map (idle (Z.of_nat (Food.t st))) l)).
  { intros l Hl. apply Forall_forall. intros ev' Hin. apply in_map_iff in Hin.
    destruct Hin as [ev [<- Hin]]. rewrite Forall_forall in Hl. specialize (Hl ev Hin).
    destruct (idle_same_source (Z.of_nat (Food.t st)) ev) as [[Hs _] _].
    rewrite Hs. lia. }
  destruct (updateFoodEvents_inv _ _ _ _ _ _ _ Hupd) as [[-> _]|[_ ->]].
  - rewrite checkEvents_past in Hh by exact Hpast.
    injection Hh as <- _ _ <-. split; [apply Hidle, Hpast|].
    split; [rewrite length_map; lia|].
    intro i. rewrite selection_count_repeat_false. lia.
  - rewrite checkEvents_app, checkEvents_past in Hh by exact Hpast.
    cbn [Food.checkEvents] in Hh.
    match type of Hh with context [FoodEvent.check ?e ?a ?b ?c ?d ?f ?g] =>
      destruct (FoodEvent.check e a b c d f g) as [[[ev1 s1] [[a1 b1] m1]]|] eqn:Hc;
        [|discriminate] end.
    cbn [bind] in Hh. injection Hh as <- _ _ _ <-.
    destruct (check_event_inv _ _ _ _ _ _ _ _ _ _ _ _ Hc) as [_ [_ [[Hs _] _]]].
    simpl in Hs. split.
    + apply Forall_app. split; [apply Hidle, Hpast|].
      constructor; [rewrite Hs; lia | constructor].
    + split; [rewrite length_app, length_map; simpl; lia|].
      intro i. rewrite selection_count_app, selection_count_repeat_false.
      rewrite selection_count_cons. unfold selection_count. simpl.
      destruct (nth i m1 false); lia.
Qed.

(** X6: a food event fires only in the timestep that creates it.  When every
    event of a state was created earlier, an iteration leaves all events
    created before the next timestep, removes none and adds at most one, and
    selects every agent at most once. *)
Theorem events_fire_only_when_created {Aux : Type} (C : Food.Collaborators Aux)
    (cfg : Food.Config) (rng : Food.Generators) (st st' : Food.State Aux) :
  past_events st ->
  Food.step C cfg rng st = Some st' ->
  past_events st' /\
  (length (Food.foodEvents st) <= length (Food.foodEvents st')
   <= length (Food.foodEvents st) + 1)%nat /\
  forall i, (selection_count (Food.overallAffected st') i <= 1)%nat.
Proof.
  apply step_past_events.
Qed.

Lemma events_fire_only_when_created_witness :
  exists st',
    Food.step Scenes.still Scenes.resting Scenes.early
      (Food.initial Scenes.resting tt Scenes.resting_positions []) = Some st' /\
    length (Food.foodEvents st') = 1%nat /\
    past_events st'.
Proof.
  eexists. split; [vm_compute; reflexivity|]. split; [reflexivity|].
  refine (proj1 (events_fire_only_when_created Scenes.still Scenes.resting Scenes.early
                   (Food.initial Scenes.resting tt Scenes.resting_positions []) _ _ _)).
  - constructor.
  - vm_compute. reflexivity.
Defined.

(** * The position update *)

Lemma Qfloor_unit (y : Q) : 0 <= y -> y < 1 -> Qfloor y = 0%Z.
Proof.
  intros H0 H1.
  pose proof (Qfloor_le y) as Hl. pose proof (Qlt_floor y) as Hu.
  assert (Ha : (Qfloor y < 1)%Z).
  { rewrite Zlt_Qlt. eapply Qle_lt_trans; [exact Hl | exact H1]. }
  assert (Hb : (0 < Qfloor y + 1)%Z).
  { rewrite Zlt_Qlt. eapply Qle_lt_trans; [exact H0 | exact Hu]. }
  lia.
Qed.

Lemma wrap_fixed (x L : Q) : 0 <= x -> x < L -> Food.wrap x L == x.
Proof.
  intros H0 H1. unfold Food.wrap.
  assert (HL : 0 < L) by lra.
  rewrite (Qfloor_unit (x / L)).
  - unfold inject_Z. ring.
  - apply Qle_shift_div_l; [exact HL | lra].
  - apply Qlt_shift_div_r; [exact HL | lra].
Qed.

(** X8: the position update leaves an agent with speed 0 where it is, when
    it is inside the domain. *)
Theorem halted_agent_stays (cfg : Food.Config) (positions orientations positions' : list (Q * Q))
    (speeds : list Q) (i : nat) :
  Food.move cfg positions orientations speeds = Some positions' ->
  (i < length positions)%nat ->
  nth i speeds 0 == 0 ->
  in_domain (Food.domainSize cfg) (nth i positions (0, 0)) ->
  fst (nth i positions' (0, 0)) == fst (nth i positions (0, 0)) /\
  snd (nth i positions' (0, 0)) == snd (nth i positions (0, 0)).
Proof.
  unfold Food.move.
  destruct (Nat.eqb (length orientations) (length positions)
            && Nat.eqb (length speeds) (length positions)) eqn:E; [|discriminate].
  apply andb_true_iff in E. destruct E as [E1 E2].
  apply Nat.eqb_eq in E1. apply Nat.eqb_eq in E2.
  intros H Hi Hs [[Hx0 Hx1] [Hy0 Hy1]]. injection H as <-.
  rewrite (nth_map2 _ positions (combine orientations speeds) i (0, 0) ((0, 0), 0) (0, 0))
    by (try rewrite length_combine; lia).
  rewrite combine_nth by lia. cbv beta iota zeta. cbn [fst snd].
  split.
  - rewrite wrap_fixed.
    + rewrite Hs. ring.
    + rewrite Hs. ring_simplify. exact Hx0.
    + rewrite Hs. ring_simplify. exact Hx1.
  - rewrite wrap_fixed.
    + rewrite Hs. ring.
    + rewrite Hs. ring_simplify. exact Hy0.
    + rewrite Hs. ring_simplify. exact Hy1.
Qed.

Lemma halted_agent_stays_witness :
  exists positions',
    Food.move Scenes.roaming Scenes.near_positions
      [(1, 0); (1, 0); (1, 0); (1, 0)] [1; 0; 1; 0] = Some positions' /\
    fst (nth 1 positions' (0, 0)) == 5 /\ snd (nth 1 positions' (0, 0)) == 8.
Proof.
  eexists. split; [vm_compute; reflexivity|].
  apply (halted_agent_stays Scenes.roaming Scenes.near_positions
           [(1, 0); (1, 0); (1, 0); (1, 0)] _ [1; 0; 1; 0] 1 eq_refl).
  - simpl. lia.
  - reflexivity.
  - unfold in_domain, Qlt, Qle. simpl. lia.
Defined.

(** * Whole runs *)

Section WholeRuns.

Context {Aux : Type}.
Variable C : Food.Collaborators Aux.
Variable cfg : Food.Config.
Variable rng : Food.Generators.
Hypothesis Hshape : shape_preserving C.
Hypothesis Hnoise : 0 <= Food.noise cfg.

Lemma states_facts (K : nat) :
  forall st l, shaped cfg st -> states C cfg rng K st = Some l ->
    Forall (fun st' => shaped cfg st' /\
                       length (Food.hunger st') = Food.numberOfParticles cfg /\
                       alive_from_hunger st') l /\
    Food.t (last l st) = (Food.t st + K)%nat.
Proof.
  induction K as [|K IH]; intros st l Hst H.
  - simpl in H. injection H as <-. split; [constructor | simpl; lia].
  - destruct (states_succ_inv C cfg rng K st l H) as [st1 [rest [Hstep [Hrest ->]]]].
    destruct (step_shaped C cfg rng Hshape Hnoise st Hst)
      as [st1' [Hstep' [Hst1 [Ht [_ [Hlen [_ [Halive _]]]]]]]].
    rewrite Hstep in Hstep'. injection Hstep' as <-.
    destruct (IH st1 rest Hst1 Hrest) as [Hall Hlast].
    split; [constructor; [split; [exact Hst1 | split; [exact Hlen | exact Halive]]
                         | exact Hall]|].
    rewrite last_cons, Hlast, Ht. lia.
Qed.

Lemma fed_total_past (K : nat) (i : nat) :
  forall st l, past_events st -> states C cfg rng K st = Some l ->
    (fed_total l i <= K)%nat.
Proof.
  induction K as [|K IH]; intros st l Hpast H.
  - simpl in H. injection H as <-. simpl. lia.
  - destruct (states_succ_inv C cfg rng K st l H) as [st1 [rest [Hstep [Hrest ->]]]].
    destruct (step_past_events C cfg rng st st1 Hpast Hstep) as [Hpast1 [_ Hone]].
    specialize (IH st1 rest Hpast1 Hrest). specialize (Hone i). simpl. lia.
Qed.

Lemma step_without_food (st st' : Food.State Aux) :
  Food.foodAppearanceProbability cfg = None ->
  Food.foodEvents st = [] ->
  Food.step C cfg rng st = Some st' ->
  Food.foodEvents st' = [] /\ Food.overallAffected st' = [].
Proof.
  intros Hp He Hstep.
  destruct (step_inv C cfg rng st st' Hstep)
    as [c1 [events1 [s2 [speedsF [hl2 [orientations [Hupd [Hh _]]]]]]]].
  unfold Food.updateFoodEvents in Hupd. rewrite Hp, He in Hupd. injection Hupd as _ <-.
  apply handleFoodEvents_inv in Hh. simpl in Hh. injection Hh as <- _ _ <-.
  split; reflexivity.
Qed.

Lemma states_without_food (K : nat) :
  Food.foodAppearanceProbability cfg = None ->
  forall st l, Food.foodEvents st = [] -> states C cfg rng K st = Some l ->
    Food.foodEvents (last l st) = [] /\
    forall i st', In st' l -> unfed i st'.
Proof.
  intro Hp. induction K as [|K IH]; intros st l He H.
  - simpl in H. injection H as <-. split; [exact He | contradiction].
  - destruct (states_succ_inv C cfg rng K st l H) as [st1 [rest [Hstep [Hrest ->]]]].
    destruct (step_without_food st st1 Hp He Hstep) as [He1 Hm1].
    destruct (IH st1 rest He1 Hrest) as [Hlast Hun].
    split; [rewrite last_cons; exact Hlast|].
    intros i st' [<-|Hin]; [|apply Hun; exact Hin].
    unfold unfed. rewrite Hm1. reflexivity.
Qed.

End WholeRuns.

(** X9: [simulate] raises nothing when the initial positions number one per
    particle, the initial events have an area, the noise amplitude is not
    negative and the collaborators keep the array shapes.  It runs
    [numIntervals] iterations and leaves hunger and aliveness histories of
    [numIntervals] rows with one entry per particle. *)
Theorem simulate_completes {Aux : Type} (C : Food.Collaborators Aux)
    (cfg : Food.Config) (rng : Food.Generators) (aux0 : Aux)
    (positions0 : list (Q * Q)) (foodEvents0 : list FoodEvent.t) (k : nat) :
  shape_preserving C ->
  0 <= Food.noise cfg ->
  length positions0 = Food.numberOfParticles cfg ->
  Forall event_ok foodEvents0 ->
  exists st,
    Food.simulate C cfg rng aux0 positions0 foodEvents0 (S k) = Some st /\
    Food.t st = S k /\
    length (Food.hungerLevelHistory st) = S k /\
    length (Food.alivenessHistory st) = S k /\
    Forall (fun row => length row = Food.numberOfParticles cfg)
           (Food.hungerLevelHistory st) /\
    Forall (fun row => length row = Food.numberOfParticles cfg)
           (Food.alivenessHistory st).
Proof.
  intros Hshape Hnoise Hpos Hok.
  destruct (initial_shaped cfg aux0 positions0 foodEvents0 Hpos Hok) as [Hst _].
  destruct (states_total C cfg rng Hshape Hnoise (S k) _ Hst) as [l [Hl HK]].
  destruct (states_facts C cfg rng Hshape Hnoise (S k) _ l Hst Hl) as [Hall Ht].
  destruct (histories_of_states C cfg rng (S k) Hshape Hnoise _ l Hst Hl) as [Hh Ha].
  exists (last l (Food.initial cfg aux0 positions0 foodEvents0)).
  split; [unfold Food.simulate; apply run_states; exact Hl|].
  split; [rewrite Ht; reflexivity|].
  rewrite Hh, Ha. simpl. rewrite !length_map.
  split; [exact HK|]. split; [exact HK|].
  rewrite Forall_forall in Hall. split; apply Forall_forall; intros row Hin;
    apply in_map_iff in Hin; destruct Hin as [st' [<- Hin]];
    destruct (Hall st' Hin) as [_ [Hlen Halive]]; [exact Hlen|].
  rewrite Halive, length_map. exact Hlen.
Qed.

Lemma simulate_completes_witness :
  exists st,
    Food.simulate Scenes.still Scenes.roaming Scenes.early tt Scenes.near_positions
      [Scenes.source 2] 4 = Some st /\
    length (Food.hungerLevelHistory st) = 4%nat.
Proof.
  destruct (simulate_completes Scenes.still Scenes.roaming Scenes.early tt
              Scenes.near_positions [Scenes.source 2] 3 still_shape_preserving
              ltac:(unfold Qle; simpl; lia) eq_refl)
    as [st [Hs [_ [Hl _]]]].
  - constructor; [|constructor]. unfold event_ok. simpl. discriminate.
  - exists st. split; assumption.
Defined.

(** X10: without an appearance probability and without initial events no
    food ever appears: after [K] timesteps the event list is still empty,
    every hunger level is [maxFood] less [K] tenths, and an agent is flagged
    alive exactly when the hunger level it has reached is positive. *)
Theorem starvation_without_food {Aux : Type} (C : Food.Collaborators Aux)
    (cfg : Food.Config) (rng : Food.Generators) (aux0 : Aux)
    (positions0 : list (Q * Q)) (k i : nat) :
  shape_preserving C ->
  0 <= Food.noise cfg ->
  Food.foodAppearanceProbability cfg = None ->
  length positions0 = Food.numberOfParticles cfg ->
  (i < Food.numberOfParticles cfg)%nat ->
  exists st,
    Food.simulate C cfg rng aux0 positions0 [] (S k) = Some st /\
    Food.foodEvents st = [] /\
    nth i (Food.hunger st) 0
    == Food.maxFood cfg - (1 # 10) * inject_Z (Z.of_nat (S k)) /\
    (nth i (Food.alive st) false = true <-> 0 < nth i (Food.hunger st) 0).
Proof.
  intros Hshape Hnoise Hp Hpos Hi.
  destruct (initial_shaped cfg aux0 positions0 [] Hpos (Forall_nil _)) as [Hst Hh0].
  destruct (states_total C cfg rng Hshape Hnoise (S k) _ Hst) as [l [Hl HK]].
  destruct (states_without_food C cfg rng (S k) Hp (Food.initial cfg aux0 positions0 []) l
              eq_refl Hl) as [He Hun].
  pose proof (hunger_total C cfg rng Hshape Hnoise (S k) i Hi _ l Hst Hl) as Hh.
  rewrite (fed_total_unfed l i (Hun i)), Hh0, nth_full in Hh by exact Hi.
  change (inject_Z (Z.of_nat 0)) with 0 in Hh.
  set (st := last l (Food.initial cfg aux0 positions0 [])) in *.
  assert (Hin : In st l).
  { unfold st. destruct l as [|x l]; [simpl in HK; lia|].
    rewrite last_cons. clear. revert x; induction l as [|y l IH]; intro x.
    - left; reflexivity.
    - rewrite last_cons. right. apply IH. }
  exists st. split; [unfold Food.simulate; apply run_states; exact Hl|].
  split; [exact He|]. split; [rewrite Hh; ring|].
  apply (alive_iff_hungry C cfg rng Hshape Hnoise (S k) i Hi _ l Hst Hl st Hin).
Qed.

Lemma starvation_without_food_witness :
  exists st,
    Food.simulate Scenes.still Scenes.fragile Scenes.late tt Scenes.resting_positions [] 3
      = Some st /\
    Food.foodEvents st = [] /\
    nth 0 (Food.hunger st) 0 == (1 # 10) - (1 # 10) * inject_Z (Z.of_nat 3).
Proof.
  destruct (starvation_without_food Scenes.still Scenes.fragile Scenes.late tt
              Scenes.resting_positions 2 0 still_shape_preserving
              ltac:(unfold Qle; simpl; lia) eq_refl eq_refl ltac:(simpl; lia))
    as [st [Hs [He [Hh _]]]].
  exists st. repeat split; assumption.
Defined.

(** X11: when every event of a state was created before its timestep, as in
    a run that starts without events, [K] further iterations raise the hunger
    level of an agent by at most nine tenths each. *)
Theorem hunger_rises_at_most_once_per_step {Aux : Type} (C : Food.Collaborators Aux)
    (cfg : Food.Config) (rng : Food.Generators) (st : Food.State Aux) (K i : nat) :
  shape_preserving C ->
  0 <= Food.noise cfg ->
  shaped cfg st ->
  past_events st ->
  (i < Food.numberOfParticles cfg)%nat ->
  exists l,
    states C cfg rng K st = Some l /\
    Food.run C cfg rng K st = Some (last l st) /\
    nth i (Food.hunger (last l st)) 0
    <= nth i (Food.hunger st) 0 + (9 # 10) * inject_Z (Z.of_nat K).
Proof.
  intros Hshape Hnoise Hst Hpast Hi.
  destruct (states_total C cfg rng Hshape Hnoise K st Hst) as [l [Hl HK]].
  exists l. split; [exact Hl|]. split; [apply run_states; exact Hl|].
  rewrite (hunger_total C cfg rng Hshape Hnoise K i Hi st l Hst Hl).
  pose proof (fed_total_past C cfg rng K i st l Hpast Hl) as Hfed.
  assert (Hq : inject_Z (Z.of_nat (fed_total l i)) <= inject_Z (Z.of_nat K)).
  { rewrite <- Zle_Qle. lia. }
  lra.
Qed.

Lemma hunger_rises_at_most_once_per_step_witness :
  exists l,
    states Scenes.still Scenes.resting Scenes.early 3
      (Food.initial Scenes.resting tt Scenes.resting_positions []) = Some l /\
    nth 0 (Food.hunger (last l (Food.initial Scenes.resting tt Scenes.resting_positions []))) 0
    <= nth 0 (Food.hunger (Food.initial Scenes.resting tt Scenes.resting_positions [])) 0
       + (9 # 10) * inject_Z (Z.of_nat 3).
Proof.
  destruct (hunger_rises_at_most_once_per_step Scenes.still Scenes.resting Scenes.early
              (Food.initial Scenes.resting tt Scenes.resting_positions []) 3 0
              still_shape_preserving ltac:(unfold Qle; simpl; lia)
              (proj1 (initial_shaped Scenes.resting tt Scenes.resting_positions []
                        eq_refl (Forall_nil _)))
              (Forall_nil _) ltac:(simpl; lia))
    as [l [Hl [_ Hh]]].
  exists l. split; assumption.
Defined.

(** * Further properties of the vision service *)

Section VisionMore.

Import Reals Lra ServiceVision.
Local Open Scope R_scope.

Lemma py_mod_range (x m : R) : 0 < m -> 0 <= py_mod x m < m.
Proof.
  intro Hm. unfold py_mod.
  destruct (base_Int_part (x / m)) as [H1 H2].
  assert (Hx : x = x / m * m) by (field; lra).
  set (r := x / m) in *. set (f := IZR (Int_part r)) in *.
  rewrite Hx. split; nra.
Qed.

Lemma py_mod_second_turn (x m : R) : 0 < m -> m <= x < 2 * m -> py_mod x m = x - m.
Proof.
  intros Hm [H1 H2]. unfold py_mod.
  replace (Int_part (x / m)) with 1%Z; [simpl; ring|].
  apply Int_part_spec. simpl.
  assert (Hx : x = x / m * m) by (field; lra).
  set (r := x / m) in *. split; nra.
Qed.

Lemma normaliseAngles_cases (a : R) :
  (a < 0 /\ normaliseAngles a = 2 * PI + a) \/
  (0 <= a <= 2 * PI /\ normaliseAngles a = a) \/
  (2 * PI < a /\ normaliseAngles a = py_mod a (2 * PI)).
Proof.
  pose proof PI_RGT_0 as Hpi. unfold normaliseAngles.
  destruct (Rlt_dec a 0) as [Hneg|Hpos].
  - left. split; [exact Hneg|]. rewrite Rabs_left by exact Hneg.
    destruct (Rgt_dec (2 * PI - - a) (2 * PI)); [lra | ring].
  - right. destruct (Rgt_dec a (2 * PI)) as [Hbig|Hsmall].
    + right. split; [lra | reflexivity].
    + left. split; [lra | reflexivity].
Qed.

(** X12: [normaliseAngles] returns an angle in [0, 2 pi] for every input from
    -2 pi on; an input below -2 pi comes back as 2 pi plus the input, which
    is still negative. *)
Theorem normaliseAngles_range (a : R) :
  (- (2 * PI) <= a -> 0 <= normaliseAngles a <= 2 * PI) /\
  (a < - (2 * PI) -> normaliseAngles a = 2 * PI + a /\ normaliseAngles a < 0).
Proof.
  pose proof PI_RGT_0 as Hpi.
  destruct (normaliseAngles_cases a) as [[H ->]|[[H ->]|[H ->]]].
  - split; intro; lra.
  - split; intro; lra.
  - pose proof (py_mod_range a (2 * PI)) as Hr. split; intro; lra.
Qed.

Lemma normaliseAngles_range_witness :
  0 <= normaliseAngles (- PI) <= 2 * PI /\
  (normaliseAngles (- (3 * PI)) = 2 * PI + - (3 * PI) /\ normaliseAngles (- (3 * PI)) < 0).
Proof.
  split.
  - apply (proj1 (normaliseAngles_range (- PI))). pose proof PI_RGT_0. lra.
  - apply (proj2 (normaliseAngles_range (- (3 * PI)))). pose proof PI_RGT_0. lra.
Defined.

(** X13: [normaliseAngles] changes an angle by a whole number of turns. *)
Theorem normaliseAngles_same_direction (a : R) :
  exists k : Z, normaliseAngles a = a + 2 * PI * IZR k.
Proof.
  destruct (normaliseAngles_cases a) as [[H ->]|[[H ->]|[H ->]]].
  - exists 1%Z. simpl. ring.
  - exists 0%Z. simpl. ring.
  - exists (- Int_part (a / (2 * PI)))%Z. unfold py_mod. rewrite opp_IZR. ring.
Qed.

End VisionMore.

Section VisionGeometry.

Import Reals Lra ServiceVision.
Local Open Scope R_scope.

Lemma norm_nonneg (v : R * R) : 0 <= norm v.
Proof. unfold norm. apply sqrt_pos. Qed.

Lemma norm_sqr (v : R * R) : norm v * norm v = fst v * fst v + snd v * snd v.
Proof.
  unfold norm. apply sqrt_sqrt. nra.
Qed.

Lemma norm_opp (a b c d : R) : norm (a - b, c - d) = norm (b - a, d - c).
Proof.
  unfold norm. simpl. f_equal. ring.
Qed.

Lemma in_fov_full_circle (positions : list (R * R)) (orientations : list R)
    (fov view_distance : R) (i j : nat) :
  PI <= fov / 2 ->
  (in_fov positions orientations fov view_distance i j <->
   0 < norm (fst (nth j positions (0, 0)) - fst (nth i positions (0, 0)),
             snd (nth j positions (0, 0)) - snd (nth i positions (0, 0)))
     <= view_distance).
Proof.
  intro Hfov. unfold in_fov. cbv zeta. split.
  - intros [_ [H1 H2]]. split; [apply Rgt_lt; exact H1 | exact H2].
  - intros [H1 H2]. split; [|split; [apply Rlt_gt; exact H1 | exact H2]].
    match goal with |- acos ?x <= _ => pose proof (acos_bound x) as Hb end. lra.
Qed.

(** X15: [get_visible_agents] never lists an agent that stands exactly where
    the observer stands, whatever the field of view and the view distance; in
    particular no agent is listed for itself. *)
Theorem coincident_agents_are_not_seen (positions : list (R * R)) (orientations : list R)
    (fov view_distance : R) (i j : nat) :
  nth j positions (0, 0) = nth i positions (0, 0) ->
  ~ in_fov positions orientations fov view_distance i j.
Proof.
  intros Heq [_ [Hd _]]. rewrite Heq in Hd. unfold norm in Hd. simpl in Hd.
  match type of Hd with sqrt ?x > 0 => replace x with 0 in Hd by ring end.
  rewrite sqrt_0 in Hd. lra.
Qed.

Lemma coincident_agents_are_not_seen_witness :
  ~ in_fov [(1, 1); (2, 1); (1, 1)] [0; 0; 0] (2 * PI) 3 0 2.
Proof.
  apply (coincident_agents_are_not_seen [(1, 1); (2, 1); (1, 1)] [0; 0; 0] (2 * PI) 3 0 2).
  reflexivity.
Defined.

(** X16: with a field of view of the full circle the mask of
    [get_visible_agents] is symmetric: agent [j] is in the mask of [i]
    exactly when [i] is in the mask of [j], whatever the headings. *)
Theorem full_circle_visibility_is_symmetric (positions : list (R * R))
    (orientations : list R) (fov view_distance : R) (i j : nat) :
  PI <= fov / 2 ->
  (in_fov positions orientations fov view_distance i j <->
   in_fov positions orientations fov view_distance j i).
Proof.
  intro Hfov.
  rewrite (in_fov_full_circle positions orientations fov view_distance i j Hfov).
  rewrite (in_fov_full_circle positions orientations fov view_distance j i Hfov).
  rewrite norm_opp. reflexivity.
Qed.

Lemma full_circle_visibility_is_symmetric_witness :
  in_fov [(1, 1); (2, 1)] [0; PI / 3] (2 * PI) 3 0 1 <->
  in_fov [(1, 1); (2, 1)] [0; PI / 3] (2 * PI) 3 1 0.
Proof.
  apply (full_circle_visibility_is_symmetric [(1, 1); (2, 1)] [0; PI / 3] (2 * PI) 3 0 1).
  lra.
Defined.

End VisionGeometry.

Section VisionBearing.

Import Reals Lra ServiceVision.
Local Open Scope R_scope.

Lemma acos_cos_abs (delta : R) : acos (cos delta) <= Rabs delta.
Proof.
  destruct (Rle_lt_dec (Rabs delta) PI) as [Hle|Hgt].
  - assert (Hc : cos delta = cos (Rabs delta)).
    { destruct (Rlt_le_dec delta 0) as [Hn|Hp].
      - rewrite Rabs_left by exact Hn. symmetry. apply cos_neg.
      - rewrite Rabs_right by lra. reflexivity. }
    rewrite Hc, acos_cos by (split; [apply Rabs_pos | exact Hle]). lra.
  - pose proof (acos_bound (cos delta)). lra.
Qed.

Lemma cos_sin_sqr (theta : R) : cos theta * cos theta + sin theta * sin theta = 1.
Proof.
  pose proof (sin2_cos2 theta) as H. unfold Rsqr in H. lra.
Qed.

(** The component of a unit vector along any heading lies in [-1, 1]. *)
Lemma unit_dot_bounds (a b theta : R) :
  a * a + b * b = 1 -> -1 <= a * cos theta + b * sin theta <= 1.
Proof.
  intro Hu. pose proof (cos_sin_sqr theta) as Ht.
  set (c := a * cos theta + b * sin theta).
  set (s := b * cos theta - a * sin theta).
  assert (Hcs : c * c + s * s = 1).
  { replace (c * c + s * s)
      with ((a * a + b * b) * (cos theta * cos theta + sin theta * sin theta))
      by (unfold c, s; ring).
    rewrite Hu, Ht. ring. }
  split; nra.
Qed.

(** A unit vector [(a, b)] seen from the heading [theta]: its components
    along and across the heading, and the angle between the two. *)
Lemma unit_vector_bearing (a b theta : R) :
  a * a + b * b = 1 ->
  exists delta,
    Rabs delta = acos (a * cos theta + b * sin theta) /\
    a = cos (theta + delta) /\ b = sin (theta + delta).
Proof.
  intro Hu. pose proof (cos_sin_sqr theta) as Ht.
  set (c := a * cos theta + b * sin theta).
  set (s := b * cos theta - a * sin theta).
  assert (Hcs : c * c + s * s = 1).
  { replace (c * c + s * s)
      with ((a * a + b * b) * (cos theta * cos theta + sin theta * sin theta))
      by (unfold c, s; ring).
    rewrite Hu, Ht. ring. }
  assert (Hc : -1 <= c <= 1) by (split; nra).
  pose proof (acos_bound c) as Hphi.
  assert (Hcos : cos (acos c) = c) by (apply cos_acos; exact Hc).
  assert (Hsin : sin (acos c) = Rabs s).
  { rewrite sin_acos by exact Hc. rewrite <- sqrt_Rsqr_abs. f_equal. unfold Rsqr. lra. }
  assert (Ha : a = cos theta * c - sin theta * s).
  { replace (cos theta * c - sin theta * s)
      with (a * (cos theta * cos theta + sin theta * sin theta)) by (unfold c, s; ring).
    rewrite Ht. ring. }
  assert (Hb : b = sin theta * c + cos theta * s).
  { replace (sin theta * c + cos theta * s)
      with (b * (cos theta * cos theta + sin theta * sin theta)) by (unfold c, s; ring).
    rewrite Ht. ring. }
  destruct (Rlt_le_dec s 0) as [Hneg|Hpos].
  - exists (- acos c). rewrite Rabs_left in Hsin by exact Hneg.
    split; [rewrite Rabs_left1 by lra; ring|].
    rewrite cos_plus, sin_plus, cos_neg, sin_neg, Hcos, Hsin. split; lra.
  - exists (acos c). rewrite Rabs_right in Hsin by lra.
    split; [apply Rabs_right; lra|].
    rewrite cos_plus, sin_plus, Hcos, Hsin. split; lra.
Qed.

(** X17: for an agent at least 1e-8 away, the mask of [get_visible_agents]
    is the bearing test: the agent is in it exactly when its bearing from
    the observer lies within [fov/2] on either side of the observer's
    heading and its Euclidean distance is at most [view_distance]. *)
Theorem in_fov_is_the_bearing_test (positions : list (R * R)) (orientations : list R)
    (fov view_distance : R) (i j : nat) :
  1 / 100000000
  <= norm (fst (nth j positions (0, 0)) - fst (nth i positions (0, 0)),
           snd (nth j positions (0, 0)) - snd (nth i positions (0, 0))) ->
  (in_fov positions orientations fov view_distance i j <->
   bearing_within_fov (nth i positions (0, 0)) (nth j positions (0, 0))
     (nth i orientations 0) fov /\
   norm (fst (nth j positions (0, 0)) - fst (nth i positions (0, 0)),
         snd (nth j positions (0, 0)) - snd (nth i positions (0, 0)))
   <= view_distance).
Proof.
  unfold in_fov, bearing_within_fov. cbv zeta. cbn [fst snd].
  set (dx := fst (nth j positions (0, 0)) - fst (nth i positions (0, 0))).
  set (dy := snd (nth j positions (0, 0)) - snd (nth i positions (0, 0))).
  set (theta := nth i orientations 0).
  set (d := norm (dx, dy)).
  intro Hd.
  assert (Hdpos : 0 < d) by lra.
  rewrite (Rmax_left d (1 / 100000000)) by exact Hd.
  assert (Hsq : d * d = dx * dx + dy * dy) by (unfold d; apply (norm_sqr (dx, dy))).
  assert (Hu : dx / d * (dx / d) + dy / d * (dy / d) = 1).
  { replace (dx / d * (dx / d) + dy / d * (dy / d))
      with ((dx * dx + dy * dy) / (d * d)) by (field; lra).
    rewrite <- Hsq. field. lra. }
  assert (Hclip : forall c, -1 <= c <= 1 -> clip (-1) 1 c = c).
  { intros c Hc. unfold clip. rewrite Rmax_left by lra. apply Rmin_left. lra. }
  split.
  - intros [Hangle [_ Hvd]]. split; [|exact Hvd].
    destruct (unit_vector_bearing (dx / d) (dy / d) theta Hu) as [delta [Habs [Ha Hb]]].
    pose proof (unit_dot_bounds (dx / d) (dy / d) theta Hu) as Hc.
    rewrite (Hclip _ Hc) in Hangle. rewrite <- Habs in Hangle.
    exists delta. split.
    + destruct (Rlt_le_dec delta 0) as [Hn|Hp].
      * rewrite Rabs_left in Hangle by exact Hn. lra.
      * rewrite Rabs_right in Hangle by lra. lra.
    + rewrite <- Ha, <- Hb. split; field; lra.
  - intros [[delta [[Hlo Hhi] [Hx Hy]]] Hvd].
    split; [|split; [lra | exact Hvd]].
    assert (Ha : dx / d = cos (theta + delta)) by (rewrite Hx; field; lra).
    assert (Hb : dy / d = sin (theta + delta)) by (rewrite Hy; field; lra).
    rewrite Ha, Hb.
    replace (cos (theta + delta) * cos theta + sin (theta + delta) * sin theta)
      with (cos delta).
    + rewrite (Hclip _ (COS_bound delta)).
      pose proof (acos_cos_abs delta) as Hacos.
      assert (Rabs delta <= fov / 2) by (apply Rabs_le; lra).
      lra.
    + rewrite <- cos_minus. f_equal. ring.
Qed.

Lemma in_fov_is_the_bearing_test_witness :
  in_fov [(1, 1); (2, 1)] [0; 0] PI 3 0 1 <->
  bearing_within_fov (1, 1) (2, 1) 0 PI /\ norm (2 - 1, 1 - 1) <= 3.
Proof.
  apply (in_fov_is_the_bearing_test [(1, 1); (2, 1)] [0; 0] PI 3 0 1).
  simpl. unfold norm. simpl.
  replace ((2 - 1) * (2 - 1) + (1 - 1) * (1 - 1)) with 1 by ring.
  rewrite sqrt_1. lra.
Defined.

End VisionBearing.

(** ** [get_visible_agents]: the sorted candidates and the occlusion sweep *)

Lemma StronglySorted_map_in {A B : Type} (rel1 : A -> A -> Prop) (rel2 : B -> B -> Prop)
    (f : A -> B) (l : list A) :
  (forall x y, In x l -> In y l -> rel1 x y -> rel2 (f x) (f y)) ->
  StronglySorted rel1 l -> StronglySorted rel2 (map f l).
Proof.
  intros Hf Hs. induction Hs as [|a l Hs IH Ha]; simpl; constructor.
  - apply IH. intros x y Hx Hy. apply Hf; right; assumption.
  - rewrite Forall_forall in *. intros y Hy. apply in_map_iff in Hy.
    destruct Hy as [x [<- Hx]].
    apply Hf; [left; reflexivity | right; exact Hx | apply Ha, Hx].
Qed.

Lemma StronglySorted_filter {A : Type} (rel : A -> A -> Prop) (f : A -> bool)
    (l : list A) :
  StronglySorted rel l -> StronglySorted rel (filter f l).
Proof.
  induction 1 as [|a l Hs IH Ha]; simpl; [constructor|].
  destruct (f a); [|exact IH]. constructor; [exact IH|].
  rewrite Forall_forall in *. intros x Hx. apply filter_In in Hx. apply Ha, Hx.
Qed.

Lemma nth_map_lt {A B : Type} (f : A -> B) (l : list A) (i : nat) (d : B) (d' : A) :
  (i < length l)%nat -> nth i (map f l) d = f (nth i l d').
Proof.
  intro H. rewrite (nth_indep _ d (f d')) by (rewrite length_map; exact H).
  apply map_nth.
Qed.

Lemma map2_orb_false (m : list bool) {A : Type} (l : list A) :
  length m = length l -> map2 orb m (map (fun _ => false) l) = m.
Proof.
  revert l; induction m as [|b m IH]; intros [|x l] H; simpl in *; try discriminate;
    [reflexivity|].
  rewrite orb_false_r. f_equal. apply IH. lia.
Qed.

Section VisionOcclusion.

Import Reals Lra ServiceVision.
Local Open Scope R_scope.

Lemma in_fovb_true (positions : list (R * R)) (orientations : list R)
    (fov view_distance : R) (i j : nat) :
  in_fovb positions orientations fov view_distance i j = true <->
  in_fov positions orientations fov view_distance i j.
Proof.
  unfold in_fovb, in_fov. cbv zeta.
  destruct (Rle_dec _ _) as [H1|H1], (Rgt_dec _ _) as [H2|H2],
    (Rle_dec _ _) as [H3|H3]; simpl; split; try discriminate; try tauto;
    intros [? [? ?]]; contradiction.
Qed.

Lemma insert_by_distance_perm (key : nat -> R) (i : nat) (l : list nat) :
  Permutation (insert_by_distance key i l) (i :: l).
Proof.
  induction l as [|j l IH]; simpl; [apply Permutation_refl|].
  destruct (Rle_dec (key i) (key j)); [apply Permutation_refl|].
  eapply Permutation_trans; [apply perm_skip, IH | apply perm_swap].
Qed.

Lemma insert_by_distance_sorted (key : nat -> R) (i : nat) (l : list nat) :
  StronglySorted (fun x y => key x <= key y) l ->
  StronglySorted (fun x y => key x <= key y) (insert_by_distance key i l).
Proof.
  induction l as [|j l IH]; intros Hs; simpl.
  - constructor; constructor.
  - inversion Hs as [|? ? Hs' Hj]; subst.
    destruct (Rle_dec (key i) (key j)) as [E|E].
    + constructor; [exact Hs|]. constructor; [exact E|].
      rewrite Forall_forall in *. intros x Hx. specialize (Hj x Hx). simpl in Hj. lra.
    + constructor; [apply IH; assumption|].
      apply (Permutation_Forall (Permutation_sym (insert_by_distance_perm _ i l))).
      constructor; [lra | exact Hj].
Qed.

Lemma argsort_distances_from (a : list R) (n s : nat) :
  Permutation (fold_right (insert_by_distance (fun k => nth k a 0)) [] (seq s n)) (seq s n) /\
  StronglySorted (fun x y => nth x a 0 <= nth y a 0)
    (fold_right (insert_by_distance (fun k => nth k a 0)) [] (seq s n)).
Proof.
  revert s; induction n as [|n IH]; intros s; simpl.
  - split; [apply Permutation_refl | constructor].
  - destruct (IH (S s)) as [Hp Hs]. split.
    + eapply Permutation_trans; [apply insert_by_distance_perm | apply perm_skip, Hp].
    + apply (insert_by_distance_sorted (fun k => nth k a 0)). exact Hs.
Qed.

Lemma argsort_distances_perm (a : list R) :
  Permutation (argsort_distances a) (seq 0 (length a)).
Proof. apply (argsort_distances_from a (length a) 0). Qed.

Lemma argsort_distances_sorted (a : list R) :
  StronglySorted (fun x y => nth x a 0 <= nth y a 0) (argsort_distances a).
Proof. apply (argsort_distances_from a (length a) 0). Qed.

(** The candidates in the order of their distances: the same agents,
    nearest first. *)
Lemma sorted_candidates (distances : list R) (candidates : list nat) :
  Permutation
    (map (fun k => nth k candidates 0%nat)
       (argsort_distances (map (fun j => nth j distances 0) candidates)))
    candidates /\
  StronglySorted (fun x y => nth x distances 0 <= nth y distances 0)
    (map (fun k => nth k candidates 0%nat)
       (argsort_distances (map (fun j => nth j distances 0) candidates))).
Proof.
  set (cd := map (fun j => nth j distances 0) candidates).
  assert (Hlen : length cd = length candidates) by apply length_map.
  split.
  - assert (H : Permutation
                  (map (fun k => nth k candidates 0%nat) (argsort_distances cd))
                  (map (fun k => nth k candidates 0%nat) (seq 0 (length candidates))))
      by (apply Permutation_map; rewrite <- Hlen; apply argsort_distances_perm).
    rewrite map_nth_seq in H. exact H.
  - apply StronglySorted_map_in with (rel1 := fun x y => nth x cd 0 <= nth y cd 0);
      [|apply argsort_distances_sorted].
    intros x y Hx Hy Hxy.
    apply (Permutation_in _ (argsort_distances_perm cd)) in Hx, Hy.
    apply in_seq in Hx, Hy. unfold cd in Hxy.
    rewrite (nth_map_lt _ candidates x 0 0%nat), (nth_map_lt _ candidates y 0 0%nat) in Hxy
      by lia.
    exact Hxy.
Qed.

Lemma StronglySorted_impl_in {A : Type} (rel1 rel2 : A -> A -> Prop) (l : list A) :
  (forall x y, In x l -> In y l -> rel1 x y -> rel2 x y) ->
  StronglySorted rel1 l -> StronglySorted rel2 l.
Proof.
  intros H Hs. rewrite <- (map_id l).
  apply (StronglySorted_map_in rel1 rel2 (fun x => x) l H Hs).
Qed.

Lemma distance_nth (positions : list (R * R)) (i j : nat) :
  (j < length positions)%nat ->
  nth j (map (fun p : R * R =>
                norm (fst p - fst (nth i positions (0, 0)),
                      snd p - snd (nth i positions (0, 0)))) positions) 0
  = distance positions i j.
Proof.
  intro Hj. rewrite (nth_map_lt _ positions j 0 (0, 0)) by exact Hj. reflexivity.
Qed.

Lemma in_fov_distance (positions : list (R * R)) (orientations : list R)
    (fov view_distance : R) (i j : nat) :
  in_fov positions orientations fov view_distance i j ->
  0 < distance positions i j <= view_distance.
Proof.
  unfold in_fov, distance. cbv zeta. intros [_ [H1 H2]]. split; [lra | exact H2].
Qed.

(** Entry [k] of the array [occluded] computed for agent [j]. *)
Lemma occluded_spec (positions : list (R * R)) (agent_radius : R) (i j k : nat) :
  (j < length positions)%nat ->
  (nth k (occluded positions (nth i positions (0, 0))
            (map (fun p : R * R =>
                    norm (fst p - fst (nth i positions (0, 0)),
                          snd p - snd (nth i positions (0, 0)))) positions)
            agent_radius j) false = true <->
   (k < length positions)%nat /\ occludes positions agent_radius i j k).
Proof.
  intro Hj. unfold occluded. cbv zeta.
  destruct (Nat.lt_ge_cases k (length positions)) as [Hk|Hk].
  - rewrite (nth_map_lt _ positions k false (0, 0)) by exact Hk.
    rewrite distance_nth by exact Hj.
    unfold occludes, distance. cbv zeta. cbn [fst snd].
    destruct (Rgt_dec _ _) as [H1|H1], (Rlt_dec _ _) as [H2|H2]; simpl; split;
      try discriminate; try tauto; intros [_ [? ?]]; contradiction.
  - rewrite nth_overflow by (rewrite length_map; exact Hk).
    split; [discriminate | intros [H _]; lia].
Qed.

(** An agent hidden behind [j] is strictly farther away than [j]. *)
Lemma occludes_farther (positions : list (R * R)) (agent_radius : R) (i j k : nat) :
  0 < distance positions i j ->
  occludes positions agent_radius i j k ->
  distance positions i j < distance positions i k.
Proof.
  unfold occludes, distance. cbv zeta. cbn [fst snd].
  set (rx := fst (nth j positions (0, 0)) - fst (nth i positions (0, 0))).
  set (ry := snd (nth j positions (0, 0)) - snd (nth i positions (0, 0))).
  set (vx := fst (nth k positions (0, 0)) - fst (nth i positions (0, 0))).
  set (vy := snd (nth k positions (0, 0)) - snd (nth i positions (0, 0))).
  intros HN [Hdot _].
  pose proof (norm_sqr (rx, ry)) as HNN. pose proof (norm_sqr (vx, vy)) as HDD.
  pose proof (norm_nonneg (vx, vy)) as HD.
  cbn [fst snd] in HNN, HDD.
  set (N := norm (rx, ry)) in *. set (D := norm (vx, vy)) in *.
  set (s := vx * rx + vy * ry).
  assert (Hs : vx * (rx / N) + vy * (ry / N) = s / N) by (unfold s; field; lra).
  rewrite Hs in Hdot.
  assert (HsN : s > N * N).
  { replace s with (s / N * N) by (field; lra). nra. }
  assert (Hcs : s * s <= D * D * (N * N)).
  { rewrite HNN, HDD. unfold s.
    pose proof (Rle_0_sqr (vx * ry - vy * rx)) as Hsq. unfold Rsqr in Hsq.
    replace ((vx * vx + vy * vy) * (rx * rx + ry * ry))
      with ((vx * rx + vy * ry) * (vx * rx + vy * ry)
            + (vx * ry - vy * rx) * (vx * ry - vy * rx)) by ring.
    lra. }
  destruct (Rlt_le_dec N D) as [H|H]; [exact H|exfalso].
  assert (D * D <= N * N) by nra.
  assert (0 < N * N) by nra.
  assert (N * N * (N * N) < s * s) by nra.
  assert (D * D * (N * N) <= N * N * (N * N)) by nra.
  lra.
Qed.

Lemma sweep_incl (positions : list (R * R)) (pos_i : R * R) (distances : list R)
    (agent_radius : R) (js : list nat) (m : list bool) (k : nat) :
  In k (sweep positions pos_i distances agent_radius js m) -> In k js.
Proof.
  revert m; induction js as [|j rest IH]; intros m H; simpl in H; [exact H|].
  destruct (nth j m false).
  - right. exact (IH _ H).
  - destruct H as [H|H]; [left; exact H | right; exact (IH _ H)].
Qed.

(** The sweep keeps exactly the candidates that the mask it starts from and
    the agents it keeps leave unoccluded. *)
Lemma sweep_filter (positions : list (R * R)) (pos_i : R * R) (distances : list R)
    (agent_radius : R) (js : list nat) :
  forall m : list bool,
  length m = length positions ->
  Forall (fun k => (k < length positions)%nat) js ->
  StronglySorted (fun x y => nth x distances 0 <= nth y distances 0) js ->
  (forall j k, In j js ->
     nth k (occluded positions pos_i distances agent_radius j) false = true ->
     nth j distances 0 < nth k distances 0) ->
  sweep positions pos_i distances agent_radius js m
  = filter (fun k =>
              negb (nth k m false)
              && negb (existsb
                         (fun j => nth k (occluded positions pos_i distances
                                            agent_radius j) false)
                         (sweep positions pos_i distances agent_radius js m))) js.
Proof.
  induction js as [|j rest IH]; intros m Hm Hlt Hs Hocc; [reflexivity|].
  inversion Hlt as [|? ? Hj Hlt']; subst. inversion Hs as [|? ? Hs' Hle]; subst.
  cbn [sweep]. destruct (nth j m false) eqn:Ej.
  - cbn [filter]. rewrite Ej. cbn [negb andb].
    apply IH; try assumption. intros x k Hx. apply Hocc. right. exact Hx.
  - set (m' := map2 orb m (occluded positions pos_i distances agent_radius j)).
    set (V := sweep positions pos_i distances agent_radius rest m').
    cbn [filter]. rewrite Ej. cbn [negb andb existsb].
    assert (H1 : nth j (occluded positions pos_i distances agent_radius j) false = false).
    { destruct (nth j (occluded positions pos_i distances agent_radius j) false) eqn:E;
        [|reflexivity].
      apply Hocc in E; [lra | left; reflexivity]. }
    assert (H2 : existsb
                   (fun j0 => nth j (occluded positions pos_i distances agent_radius j0)
                                false) V = false).
    { destruct (existsb _ V) eqn:E; [|reflexivity].
      apply existsb_exists in E. destruct E as [x [Hx Ex]].
      apply sweep_incl in Hx. apply Hocc in Ex; [|right; exact Hx].
      rewrite Forall_forall in Hle. specialize (Hle x Hx). simpl in Hle. lra. }
    rewrite H1, H2. cbn [negb orb]. f_equal.
    etransitivity.
    + apply (IH m').
      * unfold m'. rewrite map2_length; [exact Hm|].
        unfold occluded. rewrite length_map. exact Hm.
      * exact Hlt'.
      * exact Hs'.
      * intros x k Hx. apply Hocc. right. exact Hx.
    + apply filter_ext_in. intros k Hk. fold V.
      rewrite Forall_forall in Hlt'. specialize (Hlt' k Hk). simpl in Hlt'.
      unfold m'.
      rewrite (nth_map2 orb m _ k false false false)
        by (try (unfold occluded; rewrite length_map); lia).
      destruct (nth k m false), (nth k (occluded positions pos_i distances agent_radius j) false),
        (existsb _ V); reflexivity.
Qed.

(** With no radius to hide behind, the sweep keeps every candidate. *)
Lemma sweep_without_radius (positions : list (R * R)) (pos_i : R * R)
    (distances : list R) (agent_radius : R) (js : list nat) :
  agent_radius <= 0 ->
  forall m : list bool,
  length m = length positions ->
  (forall j, In j js -> nth j m false = false) ->
  sweep positions pos_i distances agent_radius js m = js.
Proof.
  intros Hr. induction js as [|j rest IH]; intros m Hm Hfalse; [reflexivity|].
  cbn [sweep]. rewrite (Hfalse j) by (left; reflexivity). f_equal.
  assert (Hocc : occluded positions pos_i distances agent_radius j
                 = map (fun _ => false) positions).
  { unfold occluded. cbv zeta. apply map_ext. intro p.
    destruct (Rlt_dec _ agent_radius) as [H|H]; [|apply andb_false_r].
    match type of H with Rabs ?x < _ => pose proof (Rabs_pos x) end. lra. }
  rewrite Hocc, map2_orb_false by exact Hm.
  apply IH; [exact Hm|]. intros x Hx. apply Hfalse. right. exact Hx.
Qed.

Lemma get_visible_agents_row (positions : list (R * R)) (orientations : list R)
    (fov view_distance agent_radius : R) (occlusion_active : bool)
    (visibility : list (list nat)) (i : nat) :
  get_visible_agents positions orientations fov view_distance agent_radius
    occlusion_active = Some visibility ->
  (i < length positions)%nat ->
  nth i visibility []
  = visible_from positions orientations fov view_distance agent_radius
      occlusion_active i.
Proof.
  unfold get_visible_agents. cbv zeta.
  destruct (length orientations <? length positions)%nat; [discriminate|].
  intros H Hi. injection H as <-. apply nth_map_seq. exact Hi.
Qed.

Lemma candidates_In (positions : list (R * R)) (orientations : list R)
    (fov view_distance : R) (i j : nat) :
  In j (filter (in_fovb positions orientations fov view_distance i)
          (seq 0 (length positions))) <->
  (j < length positions)%nat /\ in_fov positions orientations fov view_distance i j.
Proof.
  rewrite filter_In, in_seq, in_fovb_true. split; intros [? ?]; split; auto; lia.
Qed.

(** Without occlusion the list of agent [i] holds the agents of its mask,
    each once, nearest first. *)
Lemma visible_from_plain (positions : list (R * R)) (orientations : list R)
    (fov view_distance agent_radius : R) (i : nat) :
  (forall j,
     In j (visible_from positions orientations fov view_distance agent_radius false i) <->
     (j < length positions)%nat /\ in_fov positions orientations fov view_distance i j) /\
  NoDup (visible_from positions orientations fov view_distance agent_radius false i) /\
  StronglySorted (fun a b => distance positions i a <= distance positions i b)
    (visible_from positions orientations fov view_distance agent_radius false i).
Proof.
  unfold visible_from. cbv zeta.
  match goal with
  | |- context [argsort_distances (map _ ?c)] =>
      match goal with
      | |- context [map (fun j => nth j ?d 0) c] =>
          destruct (sorted_candidates d c) as [Hp Hs]
      end
  end.
  assert (Hin : forall j,
             In j (map (fun k =>
                          nth k (filter (in_fovb positions orientations fov view_distance i)
                                   (seq 0 (length positions))) 0%nat)
                     (argsort_distances
                        (map (fun j0 =>
                                nth j0 (map (fun p : R * R =>
                                               norm (fst p - fst (nth i positions (0, 0)),
                                                     snd p - snd (nth i positions (0, 0))))
                                          positions) 0)
                           (filter (in_fovb positions orientations fov view_distance i)
                              (seq 0 (length positions)))))) <->
             (j < length positions)%nat /\
             in_fov positions orientations fov view_distance i j).
  { intro j. rewrite <- candidates_In.
    split; apply Permutation_in; [exact Hp | apply Permutation_sym; exact Hp]. }
  split; [exact Hin|]. split.
  - apply (Permutation_NoDup (Permutation_sym Hp)). apply NoDup_filter, seq_NoDup.
  - revert Hs. apply StronglySorted_impl_in. intros x y Hx Hy.
    apply Hin in Hx, Hy. destruct Hx as [Hx _], Hy as [Hy _].
    rewrite !distance_nth by assumption. intro H; exact H.
Qed.

(** With occlusion the list of agent [i] is the list without occlusion, less
    the agents some listed agent occludes. *)
Lemma visible_from_occluded_filter (positions : list (R * R)) (orientations : list R)
    (fov view_distance agent_radius : R) (i : nat) :
  visible_from positions orientations fov view_distance agent_radius true i
  = filter (fun k =>
              negb (existsb
                      (fun j =>
                         nth k (occluded positions (nth i positions (0, 0))
                                  (map (fun p : R * R =>
                                          norm (fst p - fst (nth i positions (0, 0)),
                                                snd p - snd (nth i positions (0, 0))))
                                     positions)
                                  agent_radius j) false)
                      (visible_from positions orientations fov view_distance
                         agent_radius true i)))
      (visible_from positions orientations fov view_distance agent_radius false i).
Proof.
  destruct (visible_from_plain positions orientations fov view_distance agent_radius i)
    as [Hin _].
  assert (Hs : StronglySorted
                 (fun x y =>
                    nth x (map (fun p : R * R =>
                                  norm (fst p - fst (nth i positions (0, 0)),
                                        snd p - snd (nth i positions (0, 0))))
                             positions) 0
                    <= nth y (map (fun p : R * R =>
                                     norm (fst p - fst (nth i positions (0, 0)),
                                           snd p - snd (nth i positions (0, 0))))
                                positions) 0)
                 (visible_from positions orientations fov view_distance agent_radius
                    false i)).
  { unfold visible_from. cbv zeta. apply sorted_candidates. }
  revert Hin Hs. unfold visible_from. cbv zeta.
  set (js := map _ (argsort_distances _)). intros Hin Hs.
  etransitivity.
  - apply sweep_filter.
    + apply full_length.
    + rewrite Forall_forall. intros k Hk. apply Hin in Hk. apply Hk.
    + exact Hs.
    + intros j k Hj Hocc. apply Hin in Hj. destruct Hj as [Hj Hfov].
      apply occluded_spec in Hocc; [|exact Hj]. destruct Hocc as [Hk Hocc].
      rewrite !distance_nth by assumption.
      apply (occludes_farther positions agent_radius i j k); [|exact Hocc].
      apply (in_fov_distance _ _ _ _ _ _ Hfov).
  - apply filter_ext. intro k. rewrite nth_full_false. reflexivity.
Qed.

Lemma visible_from_occluded_In (positions : list (R * R)) (orientations : list R)
    (fov view_distance agent_radius : R) (i k : nat) :
  In k (visible_from positions orientations fov view_distance agent_radius true i) <->
  In k (visible_from positions orientations fov view_distance agent_radius false i) /\
  (forall j,
     In j (visible_from positions orientations fov view_distance agent_radius true i) ->
     ~ occludes positions agent_radius i j k).
Proof.
  pose proof (visible_from_occluded_filter positions orientations fov view_distance
                agent_radius i) as Hfix.
  destruct (visible_from_plain positions orientations fov view_distance agent_radius i)
    as [Hin _].
  set (V := visible_from positions orientations fov view_distance agent_radius true i) in *.
  assert (Hlt : forall j, In j V -> (j < length positions)%nat).
  { intros j Hj. rewrite Hfix in Hj. apply filter_In in Hj. apply Hin. apply Hj. }
  split.
  - intro Hk. pose proof (Hlt k Hk) as Hkn. rewrite Hfix in Hk.
    apply filter_In in Hk. destruct Hk as [Hall Hf]. split; [exact Hall|].
    intros j Hj Hocc. apply negb_true_iff in Hf.
    apply not_true_iff_false in Hf. apply Hf. apply existsb_exists.
    exists j. split; [exact Hj|].
    apply occluded_spec; [apply Hlt; exact Hj | split; assumption].
  - intros [Hall Hno]. rewrite Hfix. apply filter_In. split; [exact Hall|].
    apply negb_true_iff.
    destruct (existsb _ V) eqn:E; [exfalso | reflexivity].
    apply existsb_exists in E. destruct E as [j [Hj Ej]].
    apply occluded_spec in Ej; [|apply Hlt; exact Hj].
    exact (Hno j Hj (proj2 Ej)).
Qed.

(** Occlusion never hides an agent that no candidate is nearer than. *)
Lemma nearest_candidate_visible (positions : list (R * R)) (orientations : list R)
    (fov view_distance agent_radius : R) (i j : nat) :
  In j (visible_from positions orientations fov view_distance agent_radius false i) ->
  (forall k,
     In k (visible_from positions orientations fov view_distance agent_radius false i) ->
     distance positions i j <= distance positions i k) ->
  In j (visible_from positions orientations fov view_distance agent_radius true i).
Proof.
  intros Hj Hmin. apply visible_from_occluded_In. split; [exact Hj|].
  intros k Hk Hocc.
  apply visible_from_occluded_In in Hk. destruct Hk as [Hk _].
  specialize (Hmin k Hk).
  destruct (visible_from_plain positions orientations fov view_distance agent_radius i)
    as [Hin _].
  apply Hin in Hk. destruct Hk as [_ Hfov].
  pose proof (in_fov_distance _ _ _ _ _ _ Hfov) as [Hpos _].
  pose proof (occludes_farther positions agent_radius i k j Hpos Hocc). lra.
Qed.

(** An agent straight behind [j], on the ray from [i] through [j], is
    occluded by [j] for any positive radius. *)
Lemma occludes_behind (positions : list (R * R)) (agent_radius t : R) (i j k : nat) :
  0 < distance positions i j ->
  0 < agent_radius ->
  1 < t ->
  fst (nth k positions (0, 0)) - fst (nth i positions (0, 0))
  = t * (fst (nth j positions (0, 0)) - fst (nth i positions (0, 0))) ->
  snd (nth k positions (0, 0)) - snd (nth i positions (0, 0))
  = t * (snd (nth j positions (0, 0)) - snd (nth i positions (0, 0))) ->
  occludes positions agent_radius i j k.
Proof.
  unfold occludes, distance. cbv zeta. cbn [fst snd].
  set (rx := fst (nth j positions (0, 0)) - fst (nth i positions (0, 0))).
  set (ry := snd (nth j positions (0, 0)) - snd (nth i positions (0, 0))).
  intros HN Hr Ht -> ->.
  pose proof (norm_sqr (rx, ry)) as HNN. cbn [fst snd] in HNN.
  set (N := norm (rx, ry)) in *.
  split.
  - replace (t * rx * (rx / N) + t * ry * (ry / N))
      with (t * (rx * rx + ry * ry) / N) by (field; lra).
    rewrite <- HNN. replace (t * (N * N) / N) with (t * N) by (field; lra). nra.
  - replace (t * rx * (ry / N) - t * ry * (rx / N)) with 0 by (field; lra).
    rewrite Rabs_R0. exact Hr.
Qed.

(** *** The row of three agents *)

Lemma norm_x_axis (a b : R) : b <= a -> norm (a - b, 0 - 0) = a - b.
Proof.
  intro H. unfold norm. cbn [fst snd].
  replace ((a - b) * (a - b) + (0 - 0) * (0 - 0)) with ((a - b) * (a - b)) by ring.
  apply sqrt_square. lra.
Qed.

Lemma row_unoccluded (agent_radius : R) :
  forall k,
    In k (visible_from VisionScenes.row VisionScenes.east (2 * PI) 5 agent_radius false 0) <->
    k = 1%nat \/ k = 2%nat.
Proof.
  intro k.
  destruct (visible_from_plain VisionScenes.row VisionScenes.east (2 * PI) 5
              agent_radius 0) as [Hin _].
  rewrite Hin. rewrite in_fov_full_circle by lra.
  unfold VisionScenes.row. cbn [length].
  destruct k as [|[|[|k]]]; cbn [nth fst snd]; try rewrite norm_x_axis by lra.
  - split; [intros [_ H]; lra | intros [H|H]; discriminate].
  - split; [intros _; left; reflexivity | intros _; split; [lia | lra]].
  - split; [intros _; right; reflexivity | intros _; split; [lia | lra]].
  - split; [intros [H _]; lia | intros [H|H]; discriminate].
Qed.

Lemma row_middle_visible (agent_radius : R) :
  In 1%nat (visible_from VisionScenes.row VisionScenes.east (2 * PI) 5 agent_radius true 0).
Proof.
  apply nearest_candidate_visible.
  - apply (row_unoccluded agent_radius). left. reflexivity.
  - intros k Hk. apply (row_unoccluded agent_radius) in Hk.
    unfold distance, VisionScenes.row.
    destruct Hk as [-> | ->]; cbn [nth fst snd]; rewrite !norm_x_axis by lra; lra.
Qed.

(** X18: without occlusion [get_visible_agents] lists for agent [i] exactly
    the agents that pass its field-of-view mask: agent [j] is in the list
    of [i] if and only if [j] is an agent and [in_fov] holds of it. *)
Theorem plain_visibility_is_the_fov_mask (positions : list (R * R))
    (orientations : list R) (fov view_distance agent_radius : R)
    (visibility : list (list nat)) (i j : nat) :
  get_visible_agents positions orientations fov view_distance agent_radius false
  = Some visibility ->
  (i < length positions)%nat ->
  (In j (nth i visibility []) <->
   (j < length positions)%nat /\ in_fov positions orientations fov view_distance i j).
Proof.
  intros Hvis Hi. rewrite (get_visible_agents_row _ _ _ _ _ _ _ _ Hvis Hi).
  apply visible_from_plain.
Qed.

Lemma plain_visibility_is_the_fov_mask_witness :
  In 1%nat (visible_from VisionScenes.row VisionScenes.east (2 * PI) 5 1 false 0) <->
  (1 < 3)%nat /\ in_fov VisionScenes.row VisionScenes.east (2 * PI) 5 0 1.
Proof.
  apply (plain_visibility_is_the_fov_mask VisionScenes.row VisionScenes.east (2 * PI) 5 1
           [visible_from VisionScenes.row VisionScenes.east (2 * PI) 5 1 false 0;
            visible_from VisionScenes.row VisionScenes.east (2 * PI) 5 1 false 1;
            visible_from VisionScenes.row VisionScenes.east (2 * PI) 5 1 false 2]
           0 1).
  - reflexivity.
  - simpl. lia.
Defined.

(** X19: every list that [get_visible_agents] returns, with or without
    occlusion, names each agent at most once and in order of distance from
    the observer, nearest first. *)
Theorem visible_agents_are_listed_nearest_first (positions : list (R * R))
    (orientations : list R) (fov view_distance agent_radius : R)
    (occlusion_active : bool) (visibility : list (list nat)) (i : nat) :
  get_visible_agents positions orientations fov view_distance agent_radius
    occlusion_active = Some visibility ->
  (i < length positions)%nat ->
  NoDup (nth i visibility []) /\
  StronglySorted (fun a b => distance positions i a <= distance positions i b)
    (nth i visibility []).
Proof.
  intros Hvis Hi. rewrite (get_visible_agents_row _ _ _ _ _ _ _ _ Hvis Hi).
  destruct (visible_from_plain positions orientations fov view_distance agent_radius i)
    as [_ [Hnd Hs]].
  destruct occlusion_active; [|split; assumption].
  rewrite visible_from_occluded_filter.
  split; [apply NoDup_filter; exact Hnd | apply StronglySorted_filter; exact Hs].
Qed.

Lemma visible_agents_are_listed_nearest_first_witness :
  NoDup (visible_from VisionScenes.row VisionScenes.east (2 * PI) 5 1 true 0) /\
  StronglySorted (fun a b => distance VisionScenes.row 0 a <= distance VisionScenes.row 0 b)
    (visible_from VisionScenes.row VisionScenes.east (2 * PI) 5 1 true 0).
Proof.
  apply (visible_agents_are_listed_nearest_first VisionScenes.row VisionScenes.east
           (2 * PI) 5 1 true
           [visible_from VisionScenes.row VisionScenes.east (2 * PI) 5 1 true 0;
            visible_from VisionScenes.row VisionScenes.east (2 * PI) 5 1 true 1;
            visible_from VisionScenes.row VisionScenes.east (2 * PI) 5 1 true 2]
           0).
  - reflexivity.
  - simpl. lia.
Defined.

(** X20: with occlusion [get_visible_agents] lists for agent [i] exactly the
    agents it lists without occlusion that no listed agent occludes: an
    agent is dropped only behind an agent that is itself listed, never
    behind one that was dropped. *)
Theorem occlusion_hides_exactly_the_occluded (positions : list (R * R))
    (orientations : list R) (fov view_distance agent_radius : R)
    (visibility unoccluded : list (list nat)) (i k : nat) :
  get_visible_agents positions orientations fov view_distance agent_radius true
  = Some visibility ->
  get_visible_agents positions orientations fov view_distance agent_radius false
  = Some unoccluded ->
  (i < length positions)%nat ->
  (In k (nth i visibility []) <->
   In k (nth i unoccluded []) /\
   (forall j, In j (nth i visibility []) -> ~ occludes positions agent_radius i j k)).
Proof.
  intros Hvis Hall Hi.
  rewrite (get_visible_agents_row _ _ _ _ _ _ _ _ Hvis Hi).
  rewrite (get_visible_agents_row _ _ _ _ _ _ _ _ Hall Hi).
  apply visible_from_occluded_In.
Qed.

Lemma occlusion_hides_exactly_the_occluded_witness :
  In 2%nat (visible_from VisionScenes.row VisionScenes.east (2 * PI) 5 1 true 0) <->
  In 2%nat (visible_from VisionScenes.row VisionScenes.east (2 * PI) 5 1 false 0) /\
  (forall j,
     In j (visible_from VisionScenes.row VisionScenes.east (2 * PI) 5 1 true 0) ->
     ~ occludes VisionScenes.row 1 0 j 2).
Proof.
  apply (occlusion_hides_exactly_the_occluded VisionScenes.row VisionScenes.east
           (2 * PI) 5 1
           [visible_from VisionScenes.row VisionScenes.east (2 * PI) 5 1 true 0;
            visible_from VisionScenes.row VisionScenes.east (2 * PI) 5 1 true 1;
            visible_from VisionScenes.row VisionScenes.east (2 * PI) 5 1 true 2]
           [visible_from VisionScenes.row VisionScenes.east (2 * PI) 5 1 false 0;
            visible_from VisionScenes.row VisionScenes.east (2 * PI) 5 1 false 1;
            visible_from VisionScenes.row VisionScenes.east (2 * PI) 5 1 false 2]
           0 2).
  - reflexivity.
  - reflexivity.
  - simpl. lia.
Defined.

(** X21: with an [agent_radius] of zero or less the occlusion sweep hides
    no one: [get_visible_agents] returns the same lists with and without
    [occlusion_active]. *)
Theorem occlusion_needs_a_positive_radius (positions : list (R * R))
    (orientations : list R) (fov view_distance agent_radius : R) :
  agent_radius <= 0 ->
  get_visible_agents positions orientations fov view_distance agent_radius true
  = get_visible_agents positions orientations fov view_distance agent_radius false.
Proof.
  intro Hr. unfold get_visible_agents. cbv zeta.
  destruct (length orientations <? length positions)%nat; [reflexivity|].
  f_equal. apply map_ext. intro i. unfold visible_from. cbv zeta.
  apply sweep_without_radius; [exact Hr | apply full_length |].
  intros j _. apply nth_full_false.
Qed.

Lemma occlusion_needs_a_positive_radius_witness :
  get_visible_agents VisionScenes.row VisionScenes.east (2 * PI) 5 0 true
  = get_visible_agents VisionScenes.row VisionScenes.east (2 * PI) 5 0 false.
Proof.
  apply (occlusion_needs_a_positive_radius VisionScenes.row VisionScenes.east (2 * PI) 5 0).
  lra.
Defined.

(** X22: with occlusion and a positive [agent_radius], an agent that stands
    straight behind a listed agent [j], farther along the ray from the
    observer [i] through [j], is not listed for [i]. *)
Theorem agent_behind_a_visible_one_is_hidden (positions : list (R * R))
    (orientations : list R) (fov view_distance agent_radius t : R)
    (visibility : list (list nat)) (i j k : nat) :
  get_visible_agents positions orientations fov view_distance agent_radius true
  = Some visibility ->
  (i < length positions)%nat ->
  In j (nth i visibility []) ->
  0 < agent_radius ->
  1 < t ->
  fst (nth k positions (0, 0)) - fst (nth i positions (0, 0))
  = t * (fst (nth j positions (0, 0)) - fst (nth i positions (0, 0))) ->
  snd (nth k positions (0, 0)) - snd (nth i positions (0, 0))
  = t * (snd (nth j positions (0, 0)) - snd (nth i positions (0, 0))) ->
  ~ In k (nth i visibility []).
Proof.
  intros Hvis Hi. rewrite (get_visible_agents_row _ _ _ _ _ _ _ _ Hvis Hi).
  intros Hj Hr Ht Hx Hy Hk.
  apply visible_from_occluded_In in Hk. destruct Hk as [_ Hno].
  apply (Hno j Hj). apply (occludes_behind positions agent_radius t i j k); try assumption.
  apply visible_from_occluded_In in Hj. destruct Hj as [Hj _].
  apply visible_from_plain in Hj. destruct Hj as [_ Hfov].
  apply (in_fov_distance _ _ _ _ _ _ Hfov).
Qed.

Lemma agent_behind_a_visible_one_is_hidden_witness :
  ~ In 2%nat (visible_from VisionScenes.row VisionScenes.east (2 * PI) 5 1 true 0).
Proof.
  apply (agent_behind_a_visible_one_is_hidden VisionScenes.row VisionScenes.east
           (2 * PI) 5 1 2
           [visible_from VisionScenes.row VisionScenes.east (2 * PI) 5 1 true 0;
            visible_from VisionScenes.row VisionScenes.east (2 * PI) 5 1 true 1;
            visible_from VisionScenes.row VisionScenes.east (2 * PI) 5 1 true 2]
           0 1 2).
  - reflexivity.
  - simpl. lia.
  - apply row_middle_visible.
  - lra.
  - lra.
  - simpl. lra.
  - simpl. lra.
Defined.

(** X23: occlusion never hides an agent in view that no other agent in view
    is nearer than: whoever is listed without occlusion at the least
    distance is listed with occlusion too. *)
Theorem occlusion_keeps_the_nearest (positions : list (R * R))
    (orientations : list R) (fov view_distance agent_radius : R)
    (visibility unoccluded : list (list nat)) (i j : nat) :
  get_visible_agents positions orientations fov view_distance agent_radius true
  = Some visibility ->
  get_visible_agents positions orientations fov view_distance agent_radius false
  = Some unoccluded ->
  (i < length positions)%nat ->
  In j (nth i unoccluded []) ->
  (forall k, In k (nth i unoccluded []) ->
             distance positions i j <= distance positions i k) ->
  In j (nth i visibility []).
Proof.
  intros Hvis Hall Hi.
  rewrite (get_visible_agents_row _ _ _ _ _ _ _ _ Hvis Hi).
  rewrite (get_visible_agents_row _ _ _ _ _ _ _ _ Hall Hi).
  apply nearest_candidate_visible.
Qed.

Lemma occlusion_keeps_the_nearest_witness :
  In 1%nat (visible_from VisionScenes.row VisionScenes.east (2 * PI) 5 1 true 0).
Proof.
  apply (occlusion_keeps_the_nearest VisionScenes.row VisionScenes.east (2 * PI) 5 1
           [visible_from VisionScenes.row VisionScenes.east (2 * PI) 5 1 true 0;
            visible_from VisionScenes.row VisionScenes.east (2 * PI) 5 1 true 1;
            visible_from VisionScenes.row VisionScenes.east (2 * PI) 5 1 true 2]
           [visible_from VisionScenes.row VisionScenes.east (2 * PI) 5 1 false 0;
            visible_from VisionScenes.row VisionScenes.east (2 * PI) 5 1 false 1;
            visible_from VisionScenes.row VisionScenes.east (2 * PI) 5 1 false 2]
           0 1).
  - reflexivity.
  - reflexivity.
  - simpl. lia.
  - apply (row_unoccluded 1). left. reflexivity.
  - intros k Hk. apply (row_unoccluded 1) in Hk.
    unfold distance, VisionScenes.row.
    destruct Hk as [-> | ->]; cbn [nth fst snd]; rewrite !norm_x_axis by lra; lra.
Defined.

(** *** [compute_visibility_mask] *)

Lemma mark_visible_ok (n : nat) (indices : list (list nat)) (rows : list nat) :
  (forall i, In i rows ->
     (i < length indices)%nat /\ Forall (fun j => (j < n)%nat) (nth i indices [])) ->
  mark_visible n indices rows
  = Some (map (fun i => map (fun j => existsb (Nat.eqb j) (nth i indices [])) (seq 0 n))
            rows).
Proof.
  induction rows as [|i rest IH]; intro H; [reflexivity|].
  cbn [mark_visible map].
  destruct (H i (or_introl eq_refl)) as [Hi Hall].
  rewrite (nth_error_nth' indices [] Hi). cbn [bind].
  unfold mask_of_indices.
  assert (Hf : forallb (fun j => (j <? n)%nat) (nth i indices []) = true).
  { apply forallb_forall. intros j Hj. apply Nat.ltb_lt.
    rewrite Forall_forall in Hall. apply Hall. exact Hj. }
  rewrite Hf. cbn [bind].
  rewrite IH by (intros x Hx; apply H; right; exact Hx).
  reflexivity.
Qed.

Lemma visible_from_lt (positions : list (R * R)) (orientations : list R)
    (fov view_distance agent_radius : R) (occlusion_active : bool) (i j : nat) :
  In j (visible_from positions orientations fov view_distance agent_radius
          occlusion_active i) ->
  (j < length positions)%nat.
Proof.
  intro H. destruct occlusion_active.
  - apply visible_from_occluded_In in H. destruct H as [H _].
    apply visible_from_plain in H. apply H.
  - apply visible_from_plain in H. apply H.
Qed.

(** The mask that [compute_visibility_mask] builds from the lists of
    [get_visible_agents]. *)
Lemma compute_visibility_mask_entries (positions : list (R * R)) (angles : list R)
    (fov view_distance agent_radius : R) (occlusion_active : bool)
    (visibility : list (list nat)) :
  get_visible_agents positions angles fov view_distance agent_radius occlusion_active
  = Some visibility ->
  exists mask,
    compute_visibility_mask positions angles fov view_distance agent_radius
      occlusion_active = Some mask /\
    length mask = length positions /\
    forall i j, (i < length positions)%nat -> (j < length positions)%nat ->
      nth j (nth i mask []) false
      = (j =? i)%nat
        || existsb (Nat.eqb j)
             (visible_from positions angles fov view_distance agent_radius
                occlusion_active i).
Proof.
  intro Hvis. unfold compute_visibility_mask. rewrite Hvis. cbn [bind].
  assert (Hlen : length visibility = length positions).
  { revert Hvis. unfold get_visible_agents. cbv zeta.
    destruct (length angles <? length positions)%nat; [discriminate|].
    intro H. injection H as <-. rewrite length_map, length_seq. reflexivity. }
  rewrite mark_visible_ok.
  - cbn [bind]. eexists. split; [reflexivity|].
    unfold fill_diagonal. rewrite !length_map, !length_seq. split; [reflexivity|].
    intros i j Hi Hj.
    rewrite (nth_map_seq _ (length positions) i []) by exact Hi.
    rewrite (nth_map_seq _ (length positions) i []) by exact Hi.
    rewrite length_map, length_seq.
    rewrite (nth_map_seq _ (length positions) j false) by exact Hj.
    rewrite (nth_map_seq _ (length positions) j false) by exact Hj.
    rewrite (get_visible_agents_row _ _ _ _ _ _ _ _ Hvis Hi).
    destruct (j =? i)%nat; reflexivity.
  - intros i Hi. apply in_seq in Hi. split; [lia|].
    rewrite (get_visible_agents_row _ _ _ _ _ _ _ _ Hvis) by lia.
    rewrite Forall_forall. intros j Hj. apply (visible_from_lt _ _ _ _ _ _ _ _ Hj).
Qed.

(** X24: whenever [get_visible_agents] returns, [compute_visibility_mask]
    returns as well, no listed index falling outside the mask, and its
    n-by-n mask marks [j] for [i] exactly when [j] is [i] itself or is
    listed for [i]: every agent is marked as seeing itself, which
    [get_visible_agents] never lists. *)
Theorem visibility_mask_marks_self_and_listed (positions : list (R * R))
    (angles : list R) (fov view_distance agent_radius : R) (occlusion_active : bool)
    (visibility : list (list nat)) :
  get_visible_agents positions angles fov view_distance agent_radius occlusion_active
  = Some visibility ->
  exists mask,
    compute_visibility_mask positions angles fov view_distance agent_radius
      occlusion_active = Some mask /\
    length mask = length positions /\
    forall i j, (i < length positions)%nat -> (j < length positions)%nat ->
      (nth j (nth i mask []) false = true <-> j = i \/ In j (nth i visibility [])) /\
      ~ In i (nth i visibility []).
Proof.
  intro Hvis.
  destruct (compute_visibility_mask_entries _ _ _ _ _ _ _ Hvis) as [mask [Hm [Hlen He]]].
  exists mask. split; [exact Hm|]. split; [exact Hlen|].
  intros i j Hi Hj. rewrite (He i j Hi Hj).
  rewrite (get_visible_agents_row _ _ _ _ _ _ _ _ Hvis Hi). split.
  - rewrite orb_true_iff, Nat.eqb_eq, existsb_eqb_In. reflexivity.
  - intro Hself.
    assert (Hplain : In i (visible_from positions angles fov view_distance agent_radius
                             false i)).
    { destruct occlusion_active; [|exact Hself].
      apply visible_from_occluded_In in Hself. apply Hself. }
    apply visible_from_plain in Hplain. destruct Hplain as [_ Hfov].
    apply in_fov_distance in Hfov. unfold distance, norm in Hfov. cbn [fst snd] in Hfov.
    match type of Hfov with 0 < sqrt ?x <= _ => replace x with 0 in Hfov by ring end.
    rewrite sqrt_0 in Hfov. lra.
Qed.

Lemma visibility_mask_marks_self_and_listed_witness :
  exists mask,
    compute_visibility_mask VisionScenes.row VisionScenes.east (2 * PI) 5 1 true
    = Some mask /\
    length mask = 3%nat /\
    forall i j, (i < 3)%nat -> (j < 3)%nat ->
      (nth j (nth i mask []) false = true <->
       j = i \/
       In j (nth i [visible_from VisionScenes.row VisionScenes.east (2 * PI) 5 1 true 0;
                    visible_from VisionScenes.row VisionScenes.east (2 * PI) 5 1 true 1;
                    visible_from VisionScenes.row VisionScenes.east (2 * PI) 5 1 true 2]
               [])) /\
      ~ In i (nth i [visible_from VisionScenes.row VisionScenes.east (2 * PI) 5 1 true 0;
                     visible_from VisionScenes.row VisionScenes.east (2 * PI) 5 1 true 1;
                     visible_from VisionScenes.row VisionScenes.east (2 * PI) 5 1 true 2]
                []).
Proof.
  apply (visibility_mask_marks_self_and_listed VisionScenes.row VisionScenes.east
           (2 * PI) 5 1 true).
  reflexivity.
Defined.

(** X25: with a field of view of the full circle and no occlusion the mask
    of [compute_visibility_mask] is symmetric: it marks [j] for [i] exactly
    when it marks [i] for [j]. *)
Theorem visibility_mask_is_symmetric (positions : list (R * R)) (angles : list R)
    (fov view_distance agent_radius : R) (mask : list (list bool)) (i j : nat) :
  PI <= fov / 2 ->
  compute_visibility_mask positions angles fov view_distance agent_radius false
  = Some mask ->
  (i < length positions)%nat ->
  (j < length positions)%nat ->
  nth j (nth i mask []) false = nth i (nth j mask []) false.
Proof.
  intros Hfov Hmask Hi Hj.
  destruct (get_visible_agents positions angles fov view_distance agent_radius false)
    as [visibility|] eqn:Hvis;
    [|unfold compute_visibility_mask in Hmask; rewrite Hvis in Hmask; discriminate].
  destruct (compute_visibility_mask_entries _ _ _ _ _ _ _ Hvis) as [mask' [Hm [_ He]]].
  rewrite Hm in Hmask. injection Hmask as ->.
  rewrite (He i j Hi Hj), (He j i Hj Hi).
  rewrite (Nat.eqb_sym i j). destruct (j =? i)%nat; [reflexivity|]. cbn [orb].
  apply eq_true_iff_eq. rewrite !existsb_eqb_In.
  destruct (visible_from_plain positions angles fov view_distance agent_radius i)
    as [Hini _].
  destruct (visible_from_plain positions angles fov view_distance agent_radius j)
    as [Hinj _].
  rewrite Hini, Hinj.
  rewrite (in_fov_full_circle positions angles fov view_distance i j Hfov).
  rewrite (in_fov_full_circle positions angles fov view_distance j i Hfov).
  rewrite norm_opp. tauto.
Qed.

Lemma visibility_mask_is_symmetric_witness :
  exists mask,
    compute_visibility_mask VisionScenes.row VisionScenes.east (2 * PI) 5 1 false
    = Some mask /\
    nth 2 (nth 0 mask []) false = nth 0 (nth 2 mask []) false.
Proof.
  destruct (compute_visibility_mask_entries VisionScenes.row VisionScenes.east
              (2 * PI) 5 1 false _ eq_refl) as [mask [Hmask _]].
  exists mask. split; [exact Hmask|].
  apply (visibility_mask_is_symmetric VisionScenes.row VisionScenes.east (2 * PI) 5 1
           mask 0 2).
  - lra.
  - exact Hmask.
  - simpl. lia.
  - simpl. lia.
Defined.

End VisionOcclusion.
